(** * ParentPal: email-to-event parser and reminder worker

    A shallow embedding of [parser/main.py] (RegexParser, EventParser) and
    [worker/main.py] (ReminderWorker), followed by the properties of the
    extraction-and-scheduling pipeline.

    Modelling conventions.
    - Python [str] values are [string]s holding the UTF-8 bytes of the text:
      [str.lower], [str.strip], [\s], [\d] and [re.IGNORECASE] are modelled
      on code points below 128, and a character beyond them (the bullet of
      the split class) is matched as its byte sequence.
    - The confidence score is a binary64 float, as in the source.
    - The record store, the text-generation service and the push provider are
      external: a [world] carries the tables together with the scripted
      outcomes of the next external calls.
    - Exceptions are explicit: a computation returns [Ok] or [Raise]. *)

From Stdlib Require Import String Ascii List ZArith Lia Bool Arith Floats
  Permutation.
Import ListNotations.

Set Warnings "-inexact-float,-register-all".

Local Open Scope list_scope.
Local Open Scope string_scope.
Local Open Scope nat_scope.

(* ===================================================================== *)
(** * Python string primitives *)
(* ===================================================================== *)

Module Py.

Definition code (c : ascii) : nat := nat_of_ascii c.

(** [str.isspace] on ASCII: TAB..CR, FS..US and SPACE. *)
Definition is_space (c : ascii) : bool :=
  let n := code c in
  ((9 <=? n) && (n <=? 13)) || ((28 <=? n) && (n <=? 32)).

Definition is_digit (c : ascii) : bool :=
  let n := code c in (48 <=? n) && (n <=? 57).

Definition is_upper (c : ascii) : bool :=
  let n := code c in (65 <=? n) && (n <=? 90).

Definition is_lower (c : ascii) : bool :=
  let n := code c in (97 <=? n) && (n <=? 122).

Definition lower_char (c : ascii) : ascii :=
  if is_upper c then ascii_of_nat (code c + 32) else c.

Definition upper_char (c : ascii) : ascii :=
  if is_lower c then ascii_of_nat (code c - 32) else c.

(** [s.lower()] *)
Fixpoint lower (s : string) : string :=
  match s with
  | EmptyString => EmptyString
  | String c s' => String (lower_char c) (lower s')
  end.

(** [s.startswith(p)] *)
Fixpoint startswith (s p : string) : bool :=
  match p, s with
  | EmptyString, _ => true
  | String _ _, EmptyString => false
  | String a p', String b s' => Ascii.eqb a b && startswith s' p'
  end.

(** [s[n:]] *)
Fixpoint drop (n : nat) (s : string) : string :=
  match n, s with
  | O, _ => s
  | S _, EmptyString => EmptyString
  | S n', String _ s' => drop n' s'
  end.

(** [s[:n]] *)
Fixpoint take (n : nat) (s : string) : string :=
  match n, s with
  | O, _ => EmptyString
  | S _, EmptyString => EmptyString
  | S n', String c s' => String c (take n' s')
  end.

Fixpoint lstrip (s : string) : string :=
  match s with
  | EmptyString => EmptyString
  | String c s' => if is_space c then lstrip s' else s
  end.

Fixpoint rstrip (s : string) : string :=
  match s with
  | EmptyString => EmptyString
  | String c s' =>
      match rstrip s' with
      | EmptyString => if is_space c then EmptyString else String c EmptyString
      | r => String c r
      end
  end.

(** [s.strip()] *)
Definition strip (s : string) : string := rstrip (lstrip s).

(** [c in s] for a one-character [c] *)
Fixpoint has_char (c : ascii) (s : string) : bool :=
  match s with
  | EmptyString => false
  | String a s' => Ascii.eqb a c || has_char c s'
  end.

(** [p in s] *)
Fixpoint contains (s p : string) : bool :=
  startswith s p ||
  match s with
  | EmptyString => false
  | String _ s' => contains s' p
  end.

(** [s.replace(c, by)] for a one-character [c] *)
Fixpoint replace_char (c : ascii) (by_ : string) (s : string) : string :=
  match s with
  | EmptyString => EmptyString
  | String a s' =>
      if Ascii.eqb a c then by_ ++ replace_char c by_ s'
      else String a (replace_char c by_ s')
  end.

Definition truthy_list {T} (l : list T) : bool :=
  match l with [] => false | _ => true end.

(** [o is not None] *)
Definition is_some {T} (o : option T) : bool :=
  match o with Some _ => true | None => false end.

(** Truthiness of a [str]: non-empty. *)
Definition truthy (s : string) : bool :=
  match s with EmptyString => false | _ => true end.

Definition nl : string := String (ascii_of_nat 10) EmptyString.

(** Values the parser handles dynamically: what [json.loads] returns and
    what the fields of a [ParsedEvent] can hold at run time. *)
Inductive pyval : Type :=
| PyNone
| PyBool (b : bool)
| PyInt (z : Z)
| PyFloat (f : float)
| PyStr (s : string)
| PyList (l : list pyval)
| PyDict (kv : list (string * pyval)).

(** [d.get(key)] on a decoded JSON object; [None] when the key is absent. *)
Fixpoint dict_lookup (kv : list (string * pyval)) (key : string)
  : option pyval :=
  match kv with
  | [] => None
  | (k, v) :: kv' => if String.eqb k key then Some v else dict_lookup kv' key
  end.

(** [d.get(key, default)] *)
Definition dict_get (kv : list (string * pyval)) (key : string)
                    (default : pyval) : pyval :=
  match dict_lookup kv key with
  | Some v => v
  | None => default
  end.

Definition digit_char (n : nat) : ascii := ascii_of_nat (48 + n mod 10).

(** Decimal rendering with at least [w] digits (zero padded), [fuel]
    bounding the number of digits produced. *)
Fixpoint digits_acc (fuel n : nat) (acc : string) : string :=
  match fuel with
  | O => acc
  | S f =>
      let acc' := String (digit_char n) acc in
      if n / 10 =? 0 then acc' else digits_acc f (n / 10) acc'
  end.

Definition nat_to_string (n : nat) : string := digits_acc (S n) n "".

Fixpoint zeros (k : nat) : string :=
  match k with O => "" | S k' => String "0" (zeros k') end.

Definition zero_pad (w n : nat) : string :=
  let d := nat_to_string n in zeros (w - String.length d) ++ d.

Definition Z_to_string (z : Z) : string :=
  match z with
  | Z0 => "0"
  | Zpos p => nat_to_string (Pos.to_nat p)
  | Zneg p => "-" ++ nat_to_string (Pos.to_nat p)
  end.

End Py.

(* ===================================================================== *)
(** * The fragment of Python's [re] used by the patterns *)
(* ===================================================================== *)

Module Re.

(** Patterns: literals, a character class with a greedy repetition count
    [{lo,hi}], concatenation, ordered alternation and the (single)
    capturing group. *)
Inductive regex : Type :=
| Lit (s : string)
| Cls (p : ascii -> bool) (lo : nat) (hi : option nat)
| Seq (r1 r2 : regex)
| Alt (r1 r2 : regex)
| Grp (r : regex).

(** [r1|r2|...], alternatives tried from left to right. *)
Definition any_of (rs : list regex) : regex :=
  match rs with
  | [] => Lit ""
  | r :: rs' => fold_left Alt rs' r
  end.

(** [r1 r2 ...] *)
Definition cat (rs : list regex) : regex := fold_right Seq (Lit "") rs.

Definition cls_test (icase : bool) (p : ascii -> bool) (c : ascii) : bool :=
  if icase then p c || p (Py.lower_char c) || p (Py.upper_char c) else p c.

Definition chr_eq (icase : bool) (a b : ascii) : bool :=
  if icase then Ascii.eqb (Py.lower_char a) (Py.lower_char b)
  else Ascii.eqb a b.

Section Matcher.
Context {A : Type}.
Variable icase : bool.

(** Continuations receive the current capture and the unread input. *)
Definition cont : Type := option string -> string -> option A.

Fixpoint lit (l : string) (cap : option string) (s : string) (k : cont)
  : option A :=
  match l, s with
  | EmptyString, _ => k cap s
  | String _ _, EmptyString => None
  | String a l', String b s' =>
      if chr_eq icase a b then lit l' cap s' k else None
  end.

(** Greedy repetition of a class, giving characters back on failure. *)
Fixpoint rep (p : ascii -> bool) (lo : nat) (hi : option nat)
             (cap : option string) (s : string) (k : cont) : option A :=
  let stop := if lo =? 0 then k cap s else None in
  let room := match hi with Some 0 => false | _ => true end in
  match s with
  | EmptyString => stop
  | String c s' =>
      if room && cls_test icase p c then
        match rep p (pred lo) (option_map pred hi) cap s' k with
        | Some x => Some x
        | None => stop
        end
      else stop
  end.

Fixpoint run (r : regex) (cap : option string) (s : string) (k : cont)
  : option A :=
  match r with
  | Lit l => lit l cap s k
  | Cls p lo hi => rep p lo hi cap s k
  | Seq r1 r2 => run r1 cap s (fun cap' s' => run r2 cap' s' k)
  | Alt r1 r2 =>
      match run r1 cap s k with
      | Some x => Some x
      | None => run r2 cap s k
      end
  | Grp r' =>
      run r' cap s
        (fun _ s' =>
           k (Some (Py.take (String.length s - String.length s') s)) s')
  end.
End Matcher.

(** A match anchored at the start of [s]: group 1 and the unread input. *)
Definition match_at (icase : bool) (r : regex) (s : string)
  : option (option string * string) :=
  run icase r None s (fun cap rest => Some (cap, rest)).

(** [re.match(r, s)] is not [None] *)
Definition matches (icase : bool) (r : regex) (s : string) : bool :=
  match match_at icase r s with Some _ => true | None => false end.

(** [re.search(r, s)]: group 1 of the leftmost match. *)
Fixpoint search (icase : bool) (r : regex) (s : string) : option string :=
  match match_at icase r s with
  | Some (cap, _) => Some (match cap with Some g => g | None => "" end)
  | None =>
      match s with
      | EmptyString => None
      | String _ s' => search icase r s'
      end
  end.

(** [re.findall(r, s)] for a pattern with one group: group 1 of every
    non-overlapping match, left to right. [skip] counts the characters of
    the previous match still to be passed over. *)
Fixpoint findall_from (icase : bool) (r : regex) (skip : nat) (s : string)
  : list string :=
  match skip with
  | S n =>
      match s with
      | EmptyString => []
      | String _ s' => findall_from icase r n s'
      end
  | O =>
      match match_at icase r s with
      | Some (cap, rest) =>
          let n := String.length s - String.length rest in
          (match cap with Some g => g | None => "" end) ::
          match s with
          | EmptyString => []
          | String _ s' => findall_from icase r (pred n) s'
          end
      | None =>
          match s with
          | EmptyString => []
          | String _ s' => findall_from icase r 0 s'
          end
      end
  end.

Definition findall (icase : bool) (r : regex) (s : string) : list string :=
  findall_from icase r 0 s.

(** [re.split(r'[...]+', s)] on the UTF-8 bytes of [s]: the pieces between
    maximal runs of members of the class. [width s] is the number of bytes
    of the member of the class that starts [s], or 0 when none does;
    [skip] counts the bytes of that member still to be passed over, and
    [in_run] tells that the previous character was a delimiter. *)
Fixpoint split_from (width : string -> nat) (skip : nat) (in_run : bool)
                    (s : string) : list string :=
  match s with
  | EmptyString => [EmptyString]
  | String c s' =>
      match skip with
      | S n => split_from width n true s'
      | O =>
          match width s with
          | S n =>
              if in_run then split_from width n true s'
              else EmptyString :: split_from width n true s'
          | O =>
              match split_from width 0 false s' with
              | piece :: pieces => String c piece :: pieces
              | [] => [String c EmptyString]
              end
          end
      end
  end.

Definition split (width : string -> nat) (s : string) : list string :=
  split_from width 0 false s.

Definition digit : ascii -> bool := Py.is_digit.
Definition space : ascii -> bool := Py.is_space.
Definition not_newline (c : ascii) : bool :=
  negb (Nat.eqb (Py.code c) 10 || Nat.eqb (Py.code c) 13).
Definition a_to_z : ascii -> bool := Py.is_lower.
Definition one (c : ascii) : ascii -> bool := Ascii.eqb c.

End Re.

(* ===================================================================== *)
(** * [datetime.strptime] / [strftime] for the three formats in use *)
(* ===================================================================== *)

Module Strptime.

(** A directive yields its readings of a prefix of the input in the order
    the alternatives of its regular expression are tried. *)
Definition reader (T : Type) : Type := string -> list (T * string).

Definition bind {T U} (r : reader T) (f : T -> reader U) : reader U :=
  fun s => flat_map (fun '(t, rest) => f t rest) (r s).

Definition value (c : ascii) : nat := Py.code c - 48.

Definition one_digit (p : nat -> bool) : reader nat :=
  fun s =>
    match s with
    | String a rest =>
        if Py.is_digit a && p (value a) then [(value a, rest)] else []
    | _ => []
    end.

Definition two_digits (p1 p2 : nat -> bool) : reader nat :=
  fun s =>
    match s with
    | String a (String b rest) =>
        if Py.is_digit a && Py.is_digit b && p1 (value a) && p2 (value b)
        then [(10 * value a + value b, rest)] else []
    | _ => []
    end.

Definition between (lo hi n : nat) : bool := (lo <=? n) && (n <=? hi).

(** [%m]: [1[0-2]|0[1-9]|[1-9]] *)
Definition month : reader nat :=
  fun s =>
    (two_digits (Nat.eqb 1) (between 0 2) s ++
     two_digits (Nat.eqb 0) (between 1 9) s ++
     one_digit (between 1 9) s)%list.

(** [%d]: [3[0-1]|[1-2]\d|0[1-9]|[1-9]| [1-9]] *)
Definition day : reader nat :=
  fun s =>
    (two_digits (Nat.eqb 3) (between 0 1) s ++
     two_digits (between 1 2) (fun _ => true) s ++
     two_digits (Nat.eqb 0) (between 1 9) s ++
     one_digit (between 1 9) s ++
     match s with
     | String " " rest => one_digit (between 1 9) rest
     | _ => []
     end)%list.

(** [%Y]: [\d\d\d\d] *)
Definition year : reader nat :=
  fun s =>
    match s with
    | String a (String b (String c (String d rest))) =>
        if Py.is_digit a && Py.is_digit b && Py.is_digit c && Py.is_digit d
        then [(1000 * value a + 100 * value b + 10 * value c + value d, rest)]
        else []
    | _ => []
    end.

Definition month_names : list string :=
  ["january"; "february"; "march"; "april"; "may"; "june"; "july";
   "august"; "september"; "october"; "november"; "december"].

Fixpoint names_from (i : nat) (names : list string) : reader nat :=
  fun s =>
    match names with
    | [] => []
    | n :: names' =>
        ((if Py.startswith (Py.lower (Py.take (String.length n) s)) n
          then [(i, Py.drop (String.length n) s)] else []) ++
         names_from (S i) names' s)%list
    end.

(** [%B]: a full month name, in any case. *)
Definition month_name : reader nat := names_from 1 month_names.

Definition expect (c : ascii) : reader unit :=
  fun s =>
    match s with
    | String a rest => if Ascii.eqb a c then [(tt, rest)] else []
    | _ => []
    end.

(** White space in a format stands for [\s+], longest run first. *)
Fixpoint spaces (s : string) : list (unit * string) :=
  match s with
  | String a rest =>
      if Py.is_space a then (spaces rest ++ [(tt, rest)])%list else []
  | _ => []
  end.

Definition is_leap (y : nat) : bool :=
  ((y mod 4 =? 0) && negb (y mod 100 =? 0)) || (y mod 400 =? 0).

Definition days_in_month (y m : nat) : nat :=
  match m with
  | 2 => if is_leap y then 29 else 28
  | 4 | 6 | 9 | 11 => 30
  | _ => 31
  end.

Record date : Type := mk_date { d_year : nat; d_month : nat; d_day : nat }.

(** The first reading must use the whole input ("unconverted data
    remains" otherwise) and name a day of the calendar; [None] is
    [ValueError]. *)
Definition finish (readings : list (date * string)) : option date :=
  match readings with
  | (d, EmptyString) :: _ =>
      if (1 <=? d_year d) && (1 <=? d_month d) && (d_month d <=? 12) &&
         (1 <=? d_day d) && (d_day d <=? days_in_month (d_year d) (d_month d))
      then Some d else None
  | _ => None
  end.

(** [datetime.strptime(s, '%m<sep>%d<sep>%Y')] *)
Definition month_day_year (sep : ascii) (s : string) : option date :=
  finish
    (bind month (fun m =>
     bind (expect sep) (fun _ =>
     bind day (fun d =>
     bind (expect sep) (fun _ =>
     bind year (fun y rest => [(mk_date y m d, rest)]))))) s).

(** [datetime.strptime(s, '%B %d, %Y')] *)
Definition name_day_year (s : string) : option date :=
  finish
    (bind month_name (fun m =>
     bind spaces (fun _ =>
     bind day (fun d =>
     bind (expect ",") (fun _ =>
     bind spaces (fun _ =>
     bind year (fun y rest => [(mk_date y m d, rest)])))))) s).

(** [dt.strftime('%Y-%m-%d')] as CPython on Linux gives it: the C library
    writes the year without padding, so a year below 1000 has fewer than
    four digits. *)
Definition strftime (d : date) : string :=
  Py.nat_to_string (d_year d) ++ "-" ++ Py.zero_pad 2 (d_month d) ++ "-" ++
  Py.zero_pad 2 (d_day d).

End Strptime.

(* ===================================================================== *)
(** * parser/main.py: ParsedEvent, EmailRecord, RegexParser *)
(* ===================================================================== *)

Import Py.

Record ParsedEvent : Type := mkParsedEvent {
  title : pyval;
  start_ts : string;
  end_ts : string;
  location : pyval;
  prep_items : pyval;
  confidence : float;
  child_id : option string
}.

Record EmailRecord : Type := mkEmailRecord {
  id : string;
  user_id : string;
  raw_body : string;
  subject : string;
  from_email : string;
  received_at : string;
  processed : bool
}.

(** An instant as [datetime] holds it: microseconds since
    0001-01-01T00:00:00 on the local wall clock of the value, and the UTC
    offset when the value is timezone-aware. *)
Record datetime : Type := mk_datetime {
  ticks : Z;
  utcoffset : option Z
}.

(** What is left to the running interpreter.
    - [list_of_set xs] is [list(set(xs))]: the distinct elements in the
      iteration order of a hash set, which depends on the string hashes of
      the process.
    - [str_compound v] is [str(v)] for floats, lists and dicts.
    - [fromisoformat s] is [datetime.fromisoformat(s)], [None] standing for
      [ValueError]; the accepted grammar differs between versions. *)
Class Runtime : Type := {
  list_of_set : list string -> list string;
  list_of_set_perm :
    forall xs, Permutation (list_of_set xs) (nodup string_dec xs);
  str_compound : pyval -> string;
  fromisoformat : string -> option datetime
}.

Module RegexParser.

Import Re.

Definition DATE_PATTERNS : list regex :=
  [ Grp (cat [Cls digit 4 (Some 4); Lit "-"; Cls digit 2 (Some 2); Lit "-";
              Cls digit 2 (Some 2)]);
    Grp (cat [Cls digit 1 (Some 2); Lit "/"; Cls digit 1 (Some 2); Lit "/";
              Cls digit 4 (Some 4)]);
    Grp (cat [Cls digit 1 (Some 2); Lit "-"; Cls digit 1 (Some 2); Lit "-";
              Cls digit 4 (Some 4)]);
    Grp (cat [any_of [Lit "Jan"; Lit "Feb"; Lit "Mar"; Lit "Apr"; Lit "May";
                      Lit "Jun"; Lit "Jul"; Lit "Aug"; Lit "Sep"; Lit "Oct";
                      Lit "Nov"; Lit "Dec"];
              Cls a_to_z 0 None; Lit " "; Cls digit 1 (Some 2);
              Cls (one ",") 0 (Some 1); Lit " "; Cls digit 4 (Some 4)]) ].

Definition LOCATION_PATTERNS : list regex :=
  [ cat [any_of [Lit "location"; Lit "venue"; Lit "address"; Lit "at"];
         Lit ":"; Cls space 0 None; Grp (Cls not_newline 1 None)];
    cat [any_of [Lit "held at"; Lit "taking place at"; Lit "located at"];
         Cls space 0 None; Grp (Cls not_newline 1 None)] ].

Definition PREP_PATTERNS : list regex :=
  [ cat [any_of [Lit "bring"; Lit "pack"; Lit "remember to bring";
                 Lit "don't forget"];
         Lit ":"; Cls space 0 None; Grp (Cls not_newline 1 None)];
    cat [any_of [Lit "items needed"; Lit "required items";
                 Lit "what to bring"];
         Lit ":"; Cls space 0 None; Grp (Cls not_newline 1 None)];
    cat [any_of [Lit "prep"; Lit "preparation"];
         Lit ":"; Cls space 0 None; Grp (Cls not_newline 1 None)] ].

(** The prefixes [_clean_subject] removes. *)
Definition prefixes : list string :=
  ["re:"; "fwd:"; "fw:"; "[reminder]"; "[event]"].

Definition clean_step (st : string * string) (prefix : string)
  : string * string :=
  let '(subject, cleaned) := st in
  if startswith cleaned prefix then
    let subject' := strip (drop (String.length prefix) subject) in
    (subject', lower subject')
  else st.

(** [_clean_subject]: one pass over the prefixes, each tested against the
    subject as cleaned so far. *)
Definition _clean_subject (subject : string) : string :=
  strip (fst (fold_left clean_step prefixes (subject, lower subject))).

(** The pattern [re.match] tests a match against in [_extract_dates]. *)
Definition iso_prefix : regex :=
  cat [Cls digit 4 (Some 4); Lit "-"; Cls digit 2 (Some 2); Lit "-";
       Cls digit 2 (Some 2)].

(** The body of the [try] in [_extract_dates]; [None] is the [ValueError]
    that skips the match. *)
Definition normalize_date (m : string) : option string :=
  if matches false iso_prefix m then Some m
  else if has_char "/" m then
    option_map Strptime.strftime (Strptime.month_day_year "/" m)
  else if has_char "-" m then
    option_map Strptime.strftime (Strptime.month_day_year "-" m)
  else
    option_map Strptime.strftime (Strptime.name_day_year m).

(** The list [dates] as the two nested loops build it: patterns in order,
    matches left to right, [ValueError]s skipped. *)
Definition scan_dates (text : string) : list string :=
  flat_map
    (fun pattern =>
       flat_map
         (fun m => match normalize_date m with
                   | Some d => [d]
                   | None => []
                   end)
         (findall true pattern text))
    DATE_PATTERNS.

(** [_extract_dates]: the scanned dates, de-duplicated through a set. *)
Definition _extract_dates `{Runtime} (text : string) : list string :=
  list_of_set (scan_dates text).

Fixpoint first_search (patterns : list regex) (text : string)
  : option string :=
  match patterns with
  | [] => None
  | pattern :: rest =>
      match search true pattern text with
      | Some g => Some (strip g)
      | None => first_search rest text
      end
  end.

(** [_extract_location]: group 1 of the first pattern that matches,
    stripped. *)
Definition _extract_location (text : string) : option string :=
  first_search LOCATION_PATTERNS text.

(** The class of [re.split] in [_extract_prep_items]: the one-byte
    members comma, semicolon, LF and CR, and the bullet (U+2022), three
    bytes in UTF-8. *)
Definition split_delims (c : ascii) : bool :=
  Ascii.eqb c "," || Ascii.eqb c ";" ||
  Nat.eqb (code c) 10 || Nat.eqb (code c) 13.

Definition bullet : string :=
  String (ascii_of_nat 226)
    (String (ascii_of_nat 128) (String (ascii_of_nat 162) EmptyString)).

Definition delimiter_width (s : string) : nat :=
  match s with
  | EmptyString => 0
  | String c _ =>
      if split_delims c then 1
      else if startswith s bullet then 3
      else 0
  end.

Definition items_of (pattern : regex) (text : string) : list string :=
  match search true pattern text with
  | Some g =>
      let items_text := strip g in
      map strip
        (filter (fun item => truthy (strip item))
                (split delimiter_width items_text))
  | None => []
  end.

(** [_extract_prep_items]: the items of every pattern that matches, or
    [None] when there is none. *)
Definition _extract_prep_items (text : string) : option (list string) :=
  match flat_map (fun pattern => items_of pattern text) PREP_PATTERNS with
  | [] => None
  | items => Some items
  end.

(** The keyword dictionary [parsed_data]. *)
Record parsed_data : Type := mk_parsed_data {
  pd_title : option string;
  pd_start_ts : option string;
  pd_end_ts : option string;
  pd_location : option string;
  pd_prep_items : option (list string)
}.

(** The [ParsedEvent] built from the keywords of [parsed_data] and the
    confidence: [title], [start_ts] and [end_ts] have no default, so a
    missing one is a [TypeError] ([None] here). *)
Definition make_event (pd : parsed_data) (c : float) : option ParsedEvent :=
  match pd_title pd, pd_start_ts pd, pd_end_ts pd with
  | Some t, Some s, Some e =>
      Some (mkParsedEvent (PyStr t) s e
              (match pd_location pd with Some l => PyStr l | None => PyNone end)
              (match pd_prep_items pd with
               | Some items => PyList (map PyStr items)
               | None => PyNone
               end)
              c None)
  | _, _, _ => None
  end.

Definition empty_data : parsed_data := mk_parsed_data None None None None None.

(** The four checks of [parse], each filling [parsed_data] and adding its
    weight to the confidence when its extraction is truthy. *)
Definition check_title (subject : string) (st : parsed_data * float)
  : parsed_data * float :=
  let '(pd, c) := st in
  let t := _clean_subject subject in
  if truthy t then
    (mk_parsed_data (Some t) (pd_start_ts pd) (pd_end_ts pd)
                    (pd_location pd) (pd_prep_items pd), (c + 0.2)%float)
  else st.

Definition check_dates `{Runtime} (email_body : string)
                       (st : parsed_data * float) : parsed_data * float :=
  let '(pd, c) := st in
  match _extract_dates email_body with
  | [] => st
  | d0 :: rest =>
      (mk_parsed_data (pd_title pd) (Some d0)
                      (Some (match rest with d1 :: _ => d1 | [] => d0 end))
                      (pd_location pd) (pd_prep_items pd), (c + 0.4)%float)
  end.

Definition check_location (email_body : string) (st : parsed_data * float)
  : parsed_data * float :=
  let '(pd, c) := st in
  match _extract_location email_body with
  | Some l =>
      if truthy l then
        (mk_parsed_data (pd_title pd) (pd_start_ts pd) (pd_end_ts pd)
                        (Some l) (pd_prep_items pd), (c + 0.2)%float)
      else st
  | None => st
  end.

Definition check_prep_items (email_body : string) (st : parsed_data * float)
  : parsed_data * float :=
  let '(pd, c) := st in
  match _extract_prep_items email_body with
  | Some items =>
      (mk_parsed_data (pd_title pd) (pd_start_ts pd) (pd_end_ts pd)
                      (pd_location pd) (Some items), (c + 0.2)%float)
  | None => st
  end.

Definition checks `{Runtime} (email_body subject : string)
  : parsed_data * float :=
  check_prep_items email_body
    (check_location email_body
       (check_dates email_body
          (check_title subject (empty_data, 0.0%float)))).

(** The confidence accumulated by the four checks. *)
Definition accumulated `{Runtime} (email_body subject : string) : float :=
  snd (checks email_body subject).

(** [RegexParser.parse] *)
Definition parse `{Runtime} (email_body subject : string)
  : option ParsedEvent * float :=
  let '(pd, c) := checks email_body subject in
  if (0.4 <=? c)%float then
    match make_event pd c with
    | Some event => (Some event, c)
    | None => (None, 0.0%float)
    end
  else (None, c).

(** Observations on a run of [parse]. *)
Definition title_found (subject : string) : bool :=
  truthy (_clean_subject subject).

Definition date_found `{Runtime} (email_body : string) : bool :=
  truthy_list (_extract_dates email_body).

Definition returned (r : option ParsedEvent * float) : bool :=
  is_some (fst r).

End RegexParser.

(* ===================================================================== *)
(** * The record store and the external services *)
(* ===================================================================== *)

Inductive exn_kind : Type :=
| StoreError              (* raised by a store request *)
| GenerateError           (* TimeoutError / RuntimeError of the Ollama client *)
| ValueError
| TypeError
| OverflowError
| DeviceNotRegisteredError
| PushServerError
| PushNotificationError
| OtherError.

(** An exception: its class and [str(e)]. *)
Record exn : Type := mk_exn { kind : exn_kind; text : string }.

Inductive result (A : Type) : Type :=
| Ok (a : A)
| Raise (e : exn).
Arguments Ok {A} a.
Arguments Raise {A} e.

(** Rows of the tables. Generated primary keys are numbers; message and
    user identifiers are the strings the ingest boundary stored. *)
Record email_row : Type := mk_email_row {
  em_record : EmailRecord;
  em_processed_at : option string
}.

Record event_row : Type := mk_event_row {
  ev_id : nat;
  ev_user_id : string;
  ev_source_msg_id : string;
  ev_status : string;
  ev_title : pyval;
  ev_start_ts : string;
  ev_end_ts : string;
  ev_location : pyval;
  ev_prep_items : pyval;
  ev_child_id : option string;
  ev_google_calendar_id : option string;
  ev_error_message : option string
}.

Record child_row : Type := mk_child_row {
  ch_id : string;
  ch_user_id : string;
  ch_name : string
}.

Record user_row : Type := mk_user_row {
  us_id : string;
  us_expo_push_token : option string
}.

Record reminder_row : Type := mk_reminder_row {
  rm_id : nat;
  rm_event_id : nat;
  rm_user_id : string;
  rm_notify_at_ts : Z;
  rm_message : string;
  rm_push_token : option string;
  rm_sent_at_ts : option Z;
  rm_status : string;
  rm_retry_count : Z;
  rm_error_message : option string
}.

Record store : Type := mk_store {
  inbound_emails : list email_row;
  events : list event_row;
  children : list child_row;
  users : list user_row;
  reminders : list reminder_row
}.

(** What the text-generation call yields: an exception anywhere before the
    decoding, or the response text as [json.loads] sees it ([None] is
    [JSONDecodeError]). *)
Inductive generate_outcome : Type :=
| GenRaises (e : exn)
| GenText (decoded : option pyval).

(** What [push_client.publish] yields. *)
Inductive push_outcome : Type :=
| PushSuccess
| PushNotSuccess (details : string)
| PushRaises (e : exn).

(** The world of one service run: the tables, the outcomes of the next
    external calls (an exhausted script means success for the store and an
    unreachable service otherwise), the clocks, and a journal of what the
    services did. A clock keeps its reading for the length of one
    operation. *)
Record world : Type := mk_world {
  db : store;
  faults : list (option string);
  generations : list generate_outcome;
  pushes : list push_outcome;
  ollama_up : bool;            (* what the liveness probe answers *)
  now_iso : string;            (* datetime.now().isoformat() *)
  utcnow : Z;                  (* datetime.utcnow(), in ticks *)
  marked : list (string * bool);   (* calls of _mark_email_processed *)
  slept : list Z;                  (* asyncio.sleep delays *)
  asked : list string              (* email contents put to the generator *)
}.

Definition set_db (d : store) (w : world) : world :=
  mk_world d (faults w) (generations w) (pushes w) (ollama_up w) (now_iso w)
           (utcnow w) (marked w) (slept w) (asked w).
Definition set_faults (f : list (option string)) (w : world) : world :=
  mk_world (db w) f (generations w) (pushes w) (ollama_up w) (now_iso w)
           (utcnow w) (marked w) (slept w) (asked w).
Definition set_generations (g : list generate_outcome) (w : world) : world :=
  mk_world (db w) (faults w) g (pushes w) (ollama_up w) (now_iso w)
           (utcnow w) (marked w) (slept w) (asked w).
Definition set_pushes (p : list push_outcome) (w : world) : world :=
  mk_world (db w) (faults w) (generations w) p (ollama_up w) (now_iso w)
           (utcnow w) (marked w) (slept w) (asked w).
Definition set_utcnow (z : Z) (w : world) : world :=
  mk_world (db w) (faults w) (generations w) (pushes w) (ollama_up w)
           (now_iso w) z (marked w) (slept w) (asked w).
Definition set_marked (m : list (string * bool)) (w : world) : world :=
  mk_world (db w) (faults w) (generations w) (pushes w) (ollama_up w)
           (now_iso w) (utcnow w) m (slept w) (asked w).
Definition set_slept (z : list Z) (w : world) : world :=
  mk_world (db w) (faults w) (generations w) (pushes w) (ollama_up w)
           (now_iso w) (utcnow w) (marked w) z (asked w).
Definition set_asked (a : list string) (w : world) : world :=
  mk_world (db w) (faults w) (generations w) (pushes w) (ollama_up w)
           (now_iso w) (utcnow w) (marked w) (slept w) a.

Definition set_inbound_emails (t : list email_row) (d : store) : store :=
  mk_store t (events d) (children d) (users d) (reminders d).
Definition set_events (t : list event_row) (d : store) : store :=
  mk_store (inbound_emails d) t (children d) (users d) (reminders d).
Definition set_reminders (t : list reminder_row) (d : store) : store :=
  mk_store (inbound_emails d) (events d) (children d) (users d) t.

(** ** Computations: state passing with exceptions *)

Definition M (A : Type) : Type := world -> result A * world.

Definition ret {A} (a : A) : M A := fun w => (Ok a, w).

Definition bind {A B} (m : M A) (f : A -> M B) : M B :=
  fun w =>
    match m w with
    | (Ok a, w') => f a w'
    | (Raise e, w') => (Raise e, w')
    end.

Definition raise {A} (e : exn) : M A := fun w => (Raise e, w).

(** [try: m  except Exception as e: handler e] *)
Definition try_except {A} (m : M A) (handler : exn -> M A) : M A :=
  fun w =>
    match m w with
    | (Ok a, w') => (Ok a, w')
    | (Raise e, w') => handler e w'
    end.

Declare Scope comp_scope.
Delimit Scope comp_scope with comp.
Notation "x <- m ;; k" := (bind m (fun x => k))
  (at level 61, m at next level, right associativity) : comp_scope.
Notation "m ;;; k" := (bind m (fun _ => k))
  (at level 61, right associativity) : comp_scope.
Local Open Scope comp_scope.

Definition modify (f : world -> world) : M unit := fun w => (Ok tt, f w).
Definition gets {A} (f : world -> A) : M A := fun w => (Ok (f w), w).

(** One request to the store ([....execute()]): it raises when the script
    says so, and otherwise runs the query on the tables. *)
Definition execute {A} (q : store -> A * store) : M A :=
  fun w =>
    match faults w with
    | Some msg :: rest => (Raise (mk_exn StoreError msg), set_faults rest w)
    | None :: rest =>
        let '(a, d) := q (db w) in (Ok a, set_db d (set_faults rest w))
    | [] => let '(a, d) := q (db w) in (Ok a, set_db d w)
    end.

(** [asyncio.sleep(delay)] *)
Definition sleep (delay : Z) : M unit :=
  modify (fun w => set_slept (slept w ++ [delay])%list w).

(** [self.ollama.generate(prompt)] followed by reading the response text. *)
Definition generate (prompt : string) : M generate_outcome :=
  fun w =>
    let w' := set_asked (asked w ++ [prompt])%list w in
    match generations w with
    | o :: rest => (Ok o, set_generations rest w')
    | [] => (Ok (GenRaises (mk_exn GenerateError "Ollama request failed")), w')
    end.

(** [self.push_client.publish(message)] *)
Definition publish : M push_outcome :=
  fun w =>
    match pushes w with
    | o :: rest => (Ok o, set_pushes rest w)
    | [] => (Ok (PushRaises (mk_exn OtherError "connection failed")), w)
    end.

(** ** Observations on computations *)

(** [m] takes every world to one related to it by [R]. *)
Definition respects (R : world -> world -> Prop) {A} (m : M A) : Prop :=
  forall w, R w (snd (m w)).

(** [m] returns normally from every world. *)
Definition never_raises {A} (m : M A) : Prop :=
  forall w, exists a, fst (m w) = Ok a.

(** No call of [_mark_email_processed] in between. *)
Definition same_marks (w w' : world) : Prop := marked w' = marked w.

Definition fresh_event_id (t : list event_row) : nat :=
  S (list_max (map ev_id t)).

Definition fresh_reminder_id (t : list reminder_row) : nat :=
  S (list_max (map rm_id t)).

(* ===================================================================== *)
(** * parser/main.py: EventParser *)
(* ===================================================================== *)

Module EventParser.

Section WithRuntime.
Context `{Runtime}.

(** [str(v)], as an f-string renders a field. *)
Definition str_of (v : pyval) : string :=
  match v with
  | PyNone => "None"
  | PyBool true => "True"
  | PyBool false => "False"
  | PyInt z => Z_to_string z
  | PyStr s => s
  | _ => str_compound v
  end.

(** [_get_unprocessed_emails]: a failing request yields no emails. *)
Definition _get_unprocessed_emails : M (list EmailRecord) :=
  try_except
    (execute (fun d =>
       (map em_record
          (filter (fun r => negb (processed (em_record r)))
                  (inbound_emails d)), d)))
    (fun _ => ret []).

(** [_mark_email_processed]: the update by id; a failing request is
    logged and swallowed. [success] is not stored. *)
Definition mark_row (email_id now : string) (r : email_row) : email_row :=
  if String.eqb (id (em_record r)) email_id then
    let e := em_record r in
    mk_email_row
      (mkEmailRecord (id e) (user_id e) (raw_body e) (subject e)
                     (from_email e) (received_at e) true)
      (Some now)
  else r.

Definition _mark_email_processed (email_id : string) (success : bool)
  : M unit :=
  modify (fun w => set_marked (marked w ++ [(email_id, success)])%list w) ;;;
  now <- gets now_iso ;;
  try_except
    (execute (fun d =>
       (tt, set_inbound_emails
              (map (mark_row email_id now) (inbound_emails d)) d)))
    (fun _ => ret tt).

(** The candidate built from a decoded JSON object in
    [_parse_with_ollama]. *)
Definition candidate_of_reply (data : list (string * pyval)) : ParsedEvent :=
  let start_ts :=
    str_of (dict_get data "start_date" PyNone) ++ "T" ++
    str_of (dict_get data "start_time" (PyStr "00:00")) ++ ":00" in
  let end_ts :=
    str_of (dict_get data "end_date" (dict_get data "start_date" PyNone))
    ++ "T" ++
    str_of (dict_get data "end_time"
              (dict_get data "start_time" (PyStr "23:59"))) ++ ":00" in
  mkParsedEvent
    (dict_get data "title" (PyStr "Untitled Event"))
    start_ts end_ts
    (dict_get data "location" PyNone)
    (dict_get data "prep_items" PyNone)
    0.8%float
    None.

(** The calls of [_mark_email_processed] for one message. *)
Definition markings (email_id : string) (w : world) : list (string * bool) :=
  filter (fun m => String.eqb (fst m) email_id) (marked w).

Definition email_content (email : EmailRecord) : string :=
  "Subject: " ++ subject email ++ nl ++ nl ++ "Body:" ++ nl ++
  raw_body email.

(** [_parse_with_ollama]: every failure is logged and gives [None]. A
    decoded value that is not an object has no [get]; that
    [AttributeError] reaches the outer handler. *)
Definition _parse_with_ollama (email : EmailRecord)
  : M (option ParsedEvent) :=
  outcome <- generate (email_content email) ;;
  match outcome with
  | GenRaises _ => ret None
  | GenText None => ret None
  | GenText (Some (PyDict data)) => ret (Some (candidate_of_reply data))
  | GenText (Some _) => ret None
  end.

(** [_find_child_id]: the first child of the user whose lower-cased
    name occurs in the lower-cased subject and body. *)
Definition _find_child_id (user subject body : string)
  : M (option string) :=
  try_except
    (rows <- execute (fun d =>
       (filter (fun c => String.eqb (ch_user_id c) user) (children d),
        d)) ;;
     let text := lower (subject ++ " " ++ body) in
     ret (option_map ch_id
            (find (fun c => contains text (lower (ch_name c))) rows)))
    (fun _ => ret None).

(** [_insert_event]: the row sent to the store; a failing request is
    logged and raised again. *)
Definition event_data (email : EmailRecord)
                      (parsed_event : option ParsedEvent)
                      (status now : string) (new_id : nat) : event_row :=
  match parsed_event with
  | Some pe =>
      mk_event_row new_id (user_id email) (id email) status
        (title pe) (start_ts pe) (end_ts pe) (location pe)
        (prep_items pe) (child_id pe) None None
  | None =>
      mk_event_row new_id (user_id email) (id email) status
        (PyStr ("Review: " ++ subject email)) now now PyNone PyNone
        None None None
  end.

Definition _insert_event (email : EmailRecord)
                        (parsed_event : option ParsedEvent)
                        (status : string) : M unit :=
  now <- gets now_iso ;;
  try_except
    (execute (fun d =>
       (tt, set_events
              (events d ++
               [event_data email parsed_event status now
                           (fresh_event_id (events d))])%list d)))
    (fun e => raise e).

(** The default of the [status] parameter of [_insert_event]. *)
Definition default_status : string := "upcoming".

Definition with_child (child : option string) (pe : ParsedEvent)
  : ParsedEvent :=
  mkParsedEvent (title pe) (start_ts pe) (end_ts pe) (location pe)
                (prep_items pe) (confidence pe) child.

(** The body of the [try] in [_process_email]. *)
Definition attempt_once (email : EmailRecord) : M unit :=
  existing <- execute (fun d =>
    (filter (fun e => String.eqb (ev_source_msg_id e) (id email))
            (events d), d)) ;;
  if truthy_list existing then
    _mark_email_processed (id email) true
  else
    let '(regex_event, confidence) :=
      RegexParser.parse (raw_body email) (subject email) in
    parsed_event <-
      (if (confidence <? 0.7)%float then _parse_with_ollama email
       else ret regex_event) ;;
    match parsed_event with
    | Some pe =>
        child <- _find_child_id (user_id email) (subject email)
                               (raw_body email) ;;
        _insert_event email (Some (with_child child pe)) default_status ;;;
        _mark_email_processed (id email) true
    | None =>
        _insert_event email None "needs_review" ;;;
        _mark_email_processed (id email) true
    end.

Definition max_retries : nat := 3.

(** [for attempt in range(max_retries)] with the [except] clause. *)
Fixpoint attempts (todo : list nat) (retry_delay : Z)
                  (email : EmailRecord) : M unit :=
  match todo with
  | [] => ret tt
  | attempt :: rest =>
      try_except (attempt_once email)
        (fun e =>
           if attempt <? max_retries - 1 then
             sleep retry_delay ;;;
             attempts rest (retry_delay * 2)%Z email
           else
             _mark_email_processed (id email) false ;;;
             raise e)
  end.

(** [_process_email] *)
Definition _process_email (email : EmailRecord) : M unit :=
  attempts (seq 0 max_retries) 1%Z email.

(** The [for email in emails] loop of [parse_queue]. *)
Fixpoint process_batch (emails : list EmailRecord) : M unit :=
  match emails with
  | [] => ret tt
  | email :: rest =>
      try_except (_process_email email)
        (fun _ => _mark_email_processed (id email) false) ;;;
      process_batch rest
  end.

(** One turn of the [while True] loop of [parse_queue]. *)
Definition parse_queue_cycle : M unit :=
  emails <- _get_unprocessed_emails ;;
  if truthy_list emails then
    process_batch emails ;;; sleep 5%Z
  else sleep 10%Z.

Fixpoint parse_queue_turns (turns : nat) : M unit :=
  match turns with
  | O => ret tt
  | S n => parse_queue_cycle ;;; parse_queue_turns n
  end.

(** [parse_queue], watched for its first [turns] turns: nothing is done
    when the liveness probe fails, and an exception escaping the loop is
    logged. *)
Definition parse_queue (turns : nat) : M unit :=
  healthy <- gets ollama_up ;;
  if negb healthy then ret tt
  else try_except (parse_queue_turns turns) (fun _ => ret tt).

End WithRuntime.

(** Outcomes of a computation that handles message [email_id]: one
    attempt either marks it once (as a success) or raises without marking;
    the whole processing either marks it once as a success, or marks it
    once as a failure and raises. *)
Definition marks_or_raises (email_id : string) (m : M unit) : Prop :=
  forall w,
    (fst (m w) = Ok tt /\
     marked (snd (m w)) = (marked w ++ [(email_id, true)])%list) \/
    (exists e, fst (m w) = Raise e /\ marked (snd (m w)) = marked w).

Definition settles (email_id : string) (m : M unit) : Prop :=
  forall w,
    (fst (m w) = Ok tt /\
     marked (snd (m w)) = (marked w ++ [(email_id, true)])%list) \/
    (exists e, fst (m w) = Raise e /\
     marked (snd (m w)) = (marked w ++ [(email_id, false)])%list).

End EventParser.

(* ===================================================================== *)
(** * worker/main.py: ReminderWorker *)
(* ===================================================================== *)

Module ReminderWorker.

(** [timedelta(hours=n)] and [timedelta(minutes=n)] in ticks. *)
Definition hours (n : Z) : Z := (n * 3600 * 1000000)%Z.
Definition minutes (n : Z) : Z := (n * 60 * 1000000)%Z.

(** [d - delta]: [OverflowError] below [datetime.min]. *)
Definition minus (d : datetime) (delta : Z) : result datetime :=
  if (ticks d - delta <? 0)%Z then
    Raise (mk_exn OverflowError "date value out of range")
  else Ok (mk_datetime (ticks d - delta) (utcoffset d)).

(** [d <= datetime.utcnow()]: the clock reading is naive, so an aware
    [d] is a [TypeError]. *)
Definition at_or_before (d : datetime) (now : Z) : result bool :=
  match utcoffset d with
  | None => Ok (ticks d <=? now)%Z
  | Some _ =>
      Raise (mk_exn TypeError
               "can't compare offset-naive and offset-aware datetimes")
  end.

(** Truthiness of a dynamically typed field. *)
Definition truthy_val (v : pyval) : bool :=
  match v with
  | PyNone => false
  | PyBool b => b
  | PyInt z => negb (z =? 0)%Z
  | PyFloat f => negb (f =? 0)%float
  | PyStr s => truthy s
  | PyList l => truthy_list l
  | PyDict kv => truthy_list kv
  end.

(** The columns sent by [_create_reminders] for one reminder. *)
Record reminder_data : Type := mk_reminder_data {
  rd_event_id : nat;
  rd_user_id : string;
  rd_notify_at_ts : Z;
  rd_message : string;
  rd_push_token : option string;
  rd_status : string;
  rd_retry_count : Z
}.

(** [upsert(rows, on_conflict='event_id,notify_at_ts')]: a row with the
    same key takes the columns sent and keeps the others; without one a
    new row is inserted, its other columns null. *)
Definition same_slot (p : reminder_data) (r : reminder_row) : bool :=
  Nat.eqb (rm_event_id r) (rd_event_id p) &&
  Z.eqb (rm_notify_at_ts r) (rd_notify_at_ts p).

Definition overwrite (p : reminder_data) (r : reminder_row) : reminder_row :=
  if same_slot p r then
    mk_reminder_row (rm_id r) (rd_event_id p) (rd_user_id p)
      (rd_notify_at_ts p) (rd_message p) (rd_push_token p)
      (rm_sent_at_ts r) (rd_status p) (rd_retry_count p)
      (rm_error_message r)
  else r.

Definition upsert_one (t : list reminder_row) (p : reminder_data)
  : list reminder_row :=
  if existsb (same_slot p) t then map (overwrite p) t
  else
    (t ++ [mk_reminder_row (fresh_reminder_id t) (rd_event_id p)
             (rd_user_id p) (rd_notify_at_ts p) (rd_message p)
             (rd_push_token p) None (rd_status p) (rd_retry_count p)
             None])%list.

Definition upsert (t : list reminder_row) (ps : list reminder_data)
  : list reminder_row :=
  fold_left upsert_one ps t.

(** The update of [_mark_reminder_sent]. *)
Definition sent_update (reminder_id : nat) (now : Z)
                       (error_message : option string)
                       (r : reminder_row) : reminder_row :=
  if Nat.eqb (rm_id r) reminder_id then
    let noted :=
      match error_message with Some m => truthy m | None => false end in
    mk_reminder_row (rm_id r) (rm_event_id r) (rm_user_id r)
      (rm_notify_at_ts r) (rm_message r) (rm_push_token r)
      (Some now)
      (if noted then "failed" else "sent")
      (rm_retry_count r)
      (if noted then error_message else rm_error_message r)
  else r.

(** The two updates of [_handle_push_failure]. *)
Definition failure_update (reminder_id : nat) (retry_count : Z)
                          (error_message : string)
                          (r : reminder_row) : reminder_row :=
  if Nat.eqb (rm_id r) reminder_id then
    mk_reminder_row (rm_id r) (rm_event_id r) (rm_user_id r)
      (rm_notify_at_ts r) (rm_message r) (rm_push_token r)
      (rm_sent_at_ts r)
      (if (retry_count >=? 5)%Z then "failed" else rm_status r)
      retry_count
      (Some error_message)
  else r.

(** The filter of [_get_pending_reminders]. *)
Definition is_due (now : Z) (r : reminder_row) : bool :=
  (rm_notify_at_ts r <=? now)%Z &&
  negb (is_some (rm_sent_at_ts r)) &&
  String.eqb (rm_status r) "pending".

(** ** The calendar provider *)

(** What a request to the calendar provider yields: the identifier of the
    entry it returns, an [HttpError] with status 404, or any other
    failure. *)
Inductive google_outcome : Type :=
| GoogleOk (entry_id : string)
| GoogleNotFound
| GoogleError (msg : string).

(** The Google side as the worker sees it: the [google_refresh_token]
    column of the users table (a user without an entry has none) and the
    outcomes of the next requests, an exhausted script meaning an
    unreachable provider. *)
Record google : Type := mk_google {
  refresh_tokens : list (string * string);
  answers : list google_outcome
}.

Definition next_answer (g : google) : google_outcome * google :=
  match answers g with
  | a :: rest => (a, mk_google (refresh_tokens g) rest)
  | [] => (GoogleError "unreachable", g)
  end.

Fixpoint refresh_token_of (tokens : list (string * string)) (user : string)
  : option string :=
  match tokens with
  | [] => None
  | (u, t) :: rest =>
      if String.eqb u user then Some t else refresh_token_of rest user
  end.

(** Whether [for item in v] works on a truthy [v]. *)
Definition iterable (v : pyval) : bool :=
  match v with
  | PyStr _ | PyList _ | PyDict _ => true
  | _ => false
  end.

(** The updates of [_mark_event_synced] and [_mark_event_failed]. *)
Definition synced_update (event_id : nat) (calendar_event_id : option string)
                         (e : event_row) : event_row :=
  if Nat.eqb (ev_id e) event_id then
    mk_event_row (ev_id e) (ev_user_id e) (ev_source_msg_id e) "synced"
      (ev_title e) (ev_start_ts e) (ev_end_ts e) (ev_location e)
      (ev_prep_items e) (ev_child_id e)
      (match calendar_event_id with
       | Some c => if truthy c then Some c else ev_google_calendar_id e
       | None => ev_google_calendar_id e
       end)
      (ev_error_message e)
  else e.

Definition failed_update (event_id : nat) (error_message : string)
                         (e : event_row) : event_row :=
  if Nat.eqb (ev_id e) event_id then
    mk_event_row (ev_id e) (ev_user_id e) (ev_source_msg_id e) "failed"
      (ev_title e) (ev_start_ts e) (ev_end_ts e) (ev_location e)
      (ev_prep_items e) (ev_child_id e) (ev_google_calendar_id e)
      (Some error_message)
  else e.

Section WithRuntime.
Context `{Runtime}.

(** [_get_pending_events] *)
Definition _get_pending_events : M (list event_row) :=
  try_except
    (execute (fun d =>
       (filter (fun e => String.eqb (ev_status e) "pending") (events d),
        d)))
    (fun e => raise e).

(** The three entries of [reminder_times]. *)
Definition reminder_times (start_time : datetime)
  : result (list (datetime * string)) :=
  match minus start_time (hours 24) with
  | Raise e => Raise e
  | Ok t24 =>
      match minus start_time (hours 3) with
      | Raise e => Raise e
      | Ok t3 =>
          match minus start_time (minutes 30) with
          | Raise e => Raise e
          | Ok t30 =>
              Ok [(t24, "24 hours"); (t3, "3 hours"); (t30, "30 minutes")]
          end
      end
  end.

Definition reminder_message (event : event_row) (time_desc : string)
  : string :=
  let message :=
    "Reminder: " ++ EventParser.str_of (ev_title event) ++ " starts in "
    ++ time_desc in
  if truthy_val (ev_location event) then
    message ++ " at " ++ EventParser.str_of (ev_location event)
  else message.

(** The loop filling [reminders_to_insert]. *)
Fixpoint reminders_to_insert (event : event_row)
                             (push_token : option string) (now : Z)
                             (times : list (datetime * string))
  : result (list reminder_data) :=
  match times with
  | [] => Ok []
  | (notify_time, time_desc) :: rest =>
      match at_or_before notify_time now with
      | Raise e => Raise e
      | Ok true => reminders_to_insert event push_token now rest
      | Ok false =>
          match reminders_to_insert event push_token now rest with
          | Raise e => Raise e
          | Ok more =>
              Ok (mk_reminder_data (ev_id event) (ev_user_id event)
                    (ticks notify_time)
                    (reminder_message event time_desc)
                    push_token "pending" 0%Z :: more)
          end
      end
  end.

Definition lift {A} (r : result A) : M A := fun w => (r, w).

(** [_create_reminders]; every exception is logged and raised again. *)
Definition _create_reminders (event : event_row) : M unit :=
  try_except
    (start_time <-
       match fromisoformat (replace_char "Z" "+00:00" (ev_start_ts event))
       with
       | Some d => ret d
       | None => raise (mk_exn ValueError "Invalid isoformat string")
       end ;;
     times <- lift (reminder_times start_time) ;;
     user_rows <- execute (fun d =>
       (filter (fun u => String.eqb (us_id u) (ev_user_id event))
               (users d), d)) ;;
     let push_token :=
       match user_rows with
       | u :: _ => us_expo_push_token u
       | [] => None
       end in
     now <- gets utcnow ;;
     to_insert <- lift (reminders_to_insert event push_token now times) ;;
     if truthy_list to_insert then
       execute (fun d =>
         (tt, set_reminders (upsert (reminders d) to_insert) d))
     else ret tt)
    (fun e => raise e).

(** [_get_pending_reminders] *)
Definition _get_pending_reminders : M (list reminder_row) :=
  try_except
    (now <- gets utcnow ;;
     execute (fun d => (filter (is_due now) (reminders d), d)))
    (fun e => raise e).

(** [_mark_reminder_sent]; a failing request is logged and swallowed. *)
Definition _mark_reminder_sent (reminder_id : nat)
                              (error_message : option string) : M unit :=
  try_except
    (now <- gets utcnow ;;
     execute (fun d =>
       (tt, set_reminders
              (map (sent_update reminder_id now error_message)
                   (reminders d)) d)))
    (fun _ => ret tt).

(** [_handle_push_failure]; a failing request is logged and
    swallowed. *)
Definition _handle_push_failure (reminder : reminder_row)
                               (error_message : string) : M unit :=
  try_except
    (let retry_count := (rm_retry_count reminder + 1)%Z in
     execute (fun d =>
       (tt, set_reminders
              (map (failure_update (rm_id reminder) retry_count
                                   error_message)
                   (reminders d)) d)))
    (fun _ => ret tt).

Definition has_token (reminder : reminder_row) : bool :=
  match rm_push_token reminder with
  | Some t => truthy t
  | None => false
  end.

(** [_send_push_notification] *)
Definition _send_push_notification (reminder : reminder_row) : M unit :=
  if negb (has_token reminder) then
    _mark_reminder_sent (rm_id reminder) (Some "No push token")
  else
    outcome <- publish ;;
    match outcome with
    | PushSuccess => _mark_reminder_sent (rm_id reminder) None
    | PushNotSuccess details =>
        raise (mk_exn PushNotificationError
                 ("Failed to send push notification: " ++
                  "Push notification failed: " ++ details))
    | PushRaises e =>
        match kind e with
        | DeviceNotRegisteredError =>
            _mark_reminder_sent (rm_id reminder)
                               (Some "Device not registered")
        | PushServerError =>
            raise (mk_exn PushNotificationError
                     ("Push server error: " ++ text e))
        | _ =>
            raise (mk_exn PushNotificationError
                     ("Failed to send push notification: " ++ text e))
        end
    end.

(** The [for reminder in pending_reminders] loop. *)
Fixpoint send_all (pending : list reminder_row) : M unit :=
  match pending with
  | [] => ret tt
  | reminder :: rest =>
      try_except (_send_push_notification reminder)
        (fun e => _handle_push_failure reminder (text e)) ;;;
      send_all rest
  end.

(** [process_push_notifications]; a failure to fetch is logged. *)
Definition process_push_notifications : M unit :=
  try_except
    (pending <- _get_pending_reminders ;;
     send_all pending)
    (fun _ => ret tt).

(** What can happen to the worker's world: its own operations, and time
    passing while the scripts of the external services are renewed. *)
Inductive action : Type :=
| CreateReminders (event : event_row)
| ProcessPushNotifications
| SendPushNotification (reminder : reminder_row)
| MarkReminderSent (reminder_id : nat) (error_message : option string)
| HandlePushFailure (reminder : reminder_row) (error_message : string)
| Elapse (now : Z) (f : list (option string)) (p : list push_outcome).

Definition perform (a : action) (w : world) : world :=
  match a with
  | CreateReminders event => snd (_create_reminders event w)
  | ProcessPushNotifications => snd (process_push_notifications w)
  | SendPushNotification reminder => snd (_send_push_notification reminder w)
  | MarkReminderSent reminder_id error_message =>
      snd (_mark_reminder_sent reminder_id error_message w)
  | HandlePushFailure reminder error_message =>
      snd (_handle_push_failure reminder error_message w)
  | Elapse now f p => set_utcnow now (set_faults f (set_pushes p w))
  end.

Definition run (acts : list action) (w : world) : world :=
  fold_left (fun w' a => perform a w') acts w.

(** ** Calendar sync and event processing

    The state of the Google side is passed along explicitly. *)

(** [_get_user_calendar_service]: whether a service could be built. The
    credentials start without an access token, so they are refreshed (one
    request to the provider) before the service is built; every failure is
    logged and gives [None]. *)
Definition _get_user_calendar_service (user : string) (g : google)
  : M (bool * google) :=
  try_except
    (rows <- execute (fun d =>
       (filter (fun u => String.eqb (us_id u) user) (users d), d)) ;;
     if negb (truthy_list rows) then ret (false, g)
     else
       match refresh_token_of (refresh_tokens g) user with
       | None => ret (false, g)
       | Some token =>
           if negb (truthy token) then ret (false, g)
           else
             let '(a, g') := next_answer g in
             match a with
             | GoogleOk _ => ret (true, g')
             | _ => ret (false, g')
             end
       end)
    (fun _ => ret (false, g)).

(** The [insert] request of [_sync_to_google_calendar]; a failure reaches
    the outer handler. *)
Definition create_entry (g : google) : option string * google :=
  let '(a, g') := next_answer g in
  match a with
  | GoogleOk entry_id => (Some entry_id, g')
  | _ => (None, g')
  end.

Definition has_calendar_id (event : event_row) : bool :=
  match ev_google_calendar_id event with
  | Some c => truthy c
  | None => false
  end.

(** [_sync_to_google_calendar]: update the linked entry, or create one when
    there is no link or the link is stale (404). Building the description
    iterates over truthy prep items. No exception leaves the function. *)
Definition _sync_to_google_calendar (event : event_row) (g : google)
  : M (option string * google) :=
  service <- _get_user_calendar_service (ev_user_id event) g ;;
  let '(available, g1) := service in
  if negb available then ret (None, g1)
  else if truthy_val (ev_prep_items event)
          && negb (iterable (ev_prep_items event)) then ret (None, g1)
  else if has_calendar_id event then
    let '(a, g2) := next_answer g1 in
    match a with
    | GoogleOk entry_id => ret (Some entry_id, g2)
    | GoogleNotFound => ret (create_entry g2)
    | GoogleError _ => ret (None, g2)
    end
  else ret (create_entry g1).

(** [_mark_event_synced]; a failing request is logged and raised again. *)
Definition _mark_event_synced (event_id : nat)
                              (calendar_event_id : option string) : M unit :=
  try_except
    (execute (fun d =>
       (tt, set_events
              (map (synced_update event_id calendar_event_id) (events d))
              d)))
    (fun e => raise e).

(** [_mark_event_failed]; a failing request is logged and swallowed. *)
Definition _mark_event_failed (event_id : nat) (error_message : string)
  : M unit :=
  try_except
    (execute (fun d =>
       (tt, set_events
              (map (failed_update event_id error_message) (events d)) d)))
    (fun _ => ret tt).

(** [_process_single_event]. The calendar is consulted before anything can
    raise, so the state of the Google side after the sync is the one
    returned; [Some e] stands for the exception [e] raised again. *)
Definition _process_single_event (event : event_row) (g : google)
  : M (option exn * google) :=
  synced <- _sync_to_google_calendar event g ;;
  let '(calendar_event_id, g1) := synced in
  try_except
    (_create_reminders event ;;;
     _mark_event_synced (ev_id event) calendar_event_id ;;;
     ret (None, g1))
    (fun e =>
       _mark_event_failed (ev_id event) (text e) ;;;
       ret (Some e, g1)).

(** The [for event in pending_events] loop: a failed event is logged and
    the loop continues. *)
Fixpoint process_all (pending : list event_row) (g : google) : M google :=
  match pending with
  | [] => ret g
  | event :: rest =>
      outcome <- _process_single_event event g ;;
      process_all rest (snd outcome)
  end.

(** [process_events]; a failure to fetch is logged. *)
Definition process_events (g : google) : M google :=
  try_except
    (pending <- _get_pending_events ;;
     process_all pending g)
    (fun _ => ret g).

(** [main]: events first, then the notifications. *)
Definition main (g : google) : M google :=
  g' <- process_events g ;;
  process_push_notifications ;;;
  ret g'.

End WithRuntime.

(** The ways the worker rewrites the reminders table. *)
Inductive rewrites : list reminder_row -> list reminder_row -> Prop :=
| rw_same t : rewrites t t
| rw_sent t reminder_id now error_message :
    rewrites t (map (sent_update reminder_id now error_message) t)
| rw_failure t reminder_id retry_count error_message :
    rewrites t (map (failure_update reminder_id retry_count error_message) t)
| rw_upsert t ps : rewrites t (upsert t ps)
| rw_then t1 t2 t3 : rewrites t1 t2 -> rewrites t2 t3 -> rewrites t1 t3.

Definition table_rewritten (w w' : world) : Prop :=
  rewrites (reminders (db w)) (reminders (db w')).

(** Reminder [reminder_id] exists and every row of that id has its
    sent-at set. *)
Definition settled (reminder_id : nat) (t : list reminder_row) : Prop :=
  In reminder_id (map rm_id t) /\
  forall r, In r t -> rm_id r = reminder_id -> rm_sent_at_ts r <> None.

(** The rows of one event. *)
Definition rows_of (event_id : nat) (t : list reminder_row)
  : list reminder_row :=
  filter (fun r => Nat.eqb (rm_event_id r) event_id) t.

End ReminderWorker.

(** Two interpreters: sets that iterate in the order of the last
    occurrences, and sets that iterate the other way round. Neither parses
    timestamps other than the one listed. *)
Definition sample_fromisoformat (s : string) : option datetime :=
  if String.eqb s "2024-03-16T15:00:00" then
    Some (mk_datetime 63846198000000000 None)
  else if String.eqb s "2024-03-16T15:00:00+00:00" then
    Some (mk_datetime 63846198000000000 (Some 0%Z))
  else None.

#[refine] Instance forward_sets : Runtime :=
  {| list_of_set := nodup string_dec;
     str_compound := fun _ => "";
     fromisoformat := sample_fromisoformat |}.
Proof. intros xs; apply Permutation_refl. Defined.

#[refine] Instance backward_sets : Runtime :=
  {| list_of_set := fun xs => rev (nodup string_dec xs);
     str_compound := fun _ => "";
     fromisoformat := sample_fromisoformat |}.
Proof. intros xs; apply Permutation_sym, Permutation_rev. Defined.

(* ===================================================================== *)
(** * Observations *)
(* ===================================================================== *)

(** No white space at either end. *)
Definition trimmed (s : string) : Prop := lstrip s = s /\ rstrip s = s.

(** Every character of [s] passes [p]. *)
Fixpoint all_chars (p : ascii -> bool) (s : string) : bool :=
  match s with
  | EmptyString => true
  | String c s' => p c && all_chars p s'
  end.

Definition is_line_break (c : ascii) : bool :=
  Nat.eqb (code c) 10 || Nat.eqb (code c) 13.

(** Patterns that end in the group [([^\n\r]+)]. *)
Inductive line_capture : Re.regex -> Prop :=
| lc_group :
    line_capture
      (Re.Seq (Re.Grp (Re.Cls Re.not_newline 1 None)) (Re.Lit ""))
| lc_after a r : line_capture r -> line_capture (Re.Seq a r).




(** The observation [f] of the world reads the same. *)
Definition same_on {T} (f : world -> T) (w w' : world) : Prop := f w' = f w.

(** The generator was not called in between. *)
Definition same_asked (w w' : world) : Prop :=
  asked w' = asked w /\ generations w' = generations w.

(** The tables are the same. *)
Definition same_tables (w w' : world) : Prop := db w' = db w.

(** A property of the tables that holds before holds after. *)
Definition keeps (P : store -> Prop) (w w' : world) : Prop :=
  P (db w) -> P (db w').

(** Message [email_id] is flagged processed wherever it occurs. *)
Definition flagged (email_id : string) (d : store) : Prop :=
  forall r, In r (inbound_emails d) -> id (em_record r) = email_id ->
    processed (em_record r) = true.

(** Every pending reminder has fewer than five failed attempts behind it. *)
Definition within_retries (d : store) : Prop :=
  forall r, In r (reminders d) -> rm_status r = "pending" ->
    (rm_retry_count r < 5)%Z.

(** The slots [(event id, notify-at)] of a reminders table. *)
Definition slots (t : list reminder_row) : list (nat * Z) :=
  map (fun r => (rm_event_id r, rm_notify_at_ts r)) t.

(** [t'] is [t] with rows of the identifiers in [ids] rewritten, all other
    rows and all identifiers being kept. *)
Definition touches_only (ids : list nat) (t t' : list reminder_row) : Prop :=
  exists f,
    t' = map f t /\
    (forall r, rm_id (f r) = rm_id r) /\
    (forall r, ~ In (rm_id r) ids -> f r = r).

(** The store answers its next [n] requests. *)
Definition answered (n : nat) (w : world) : bool :=
  forallb (fun f => negb (is_some f)) (firstn n (faults w)).

(** No member of the split class of [_extract_prep_items] starts anywhere
    in [s]. *)
Fixpoint free_of_delimiters (s : string) : bool :=
  match s with
  | EmptyString => true
  | String _ s' =>
      Nat.eqb (RegexParser.delimiter_width s) 0 && free_of_delimiters s'
  end.

(** [t] is a contiguous part of [s]. *)
Definition part_of (t s : string) : Prop := exists a b, s = a ++ t ++ b.

(** The reminders table of [w'] is that of [w] with rows of [ids]
    rewritten. *)
Definition touched (ids : list nat) (w w' : world) : Prop :=
  touches_only ids (reminders (db w)) (reminders (db w')).

(* ===================================================================== *)
(** * Sample inputs *)
(* ===================================================================== *)

Module Samples.

Definition soccer_subject : string := "Re: Soccer Practice Tomorrow".

Definition soccer_body : string :=
  "Hi parents," ++ nl ++ nl ++
  "Soccer practice is on 2024-03-15." ++ nl ++
  "Location: Community Field" ++ nl ++
  "Please bring: water, cleats" ++ nl ++ nl ++
  "Thanks!" ++ nl.

Definition soccer_event : ParsedEvent :=
  mkParsedEvent (PyStr "Soccer Practice Tomorrow") "2024-03-15" "2024-03-15"
    (PyStr "Community Field") (PyList [PyStr "water"; PyStr "cleats"])
    1.0%float None.

(** A body with a date and nothing else, under an empty subject. *)
Definition date_only_body : string := "See you on 2024-03-15".

(** A body naming two days, the earlier one first. *)
Definition trip_body : string := "Trip from 2024-03-15 to 2024-03-16".

(** A reply of the generator that gives a title and a start date only. *)
Definition short_reply : list (string * pyval) :=
  [("title", PyStr "Recital"); ("start_date", PyStr "2024-03-16")].

Definition full_reply : list (string * pyval) :=
  [("title", PyStr "Soccer Practice"); ("start_date", PyStr "2024-03-16");
   ("start_time", PyStr "15:00"); ("location", PyStr "Sports Center")].

Definition soccer_email : EmailRecord :=
  mkEmailRecord "msg-1" "user-1" soccer_body soccer_subject
                "coach@example.com" "2024-03-14T08:00:00" false.

(** An email the patterns find nothing in but a title. *)
Definition unclear_email : EmailRecord :=
  mkEmailRecord "msg-2" "user-1" "Details to follow." "Unclear Event"
                "office@example.com" "2024-03-14T08:30:00" false.

Definition inbox : store :=
  mk_store [mk_email_row soccer_email None; mk_email_row unclear_email None]
           [] [] [mk_user_row "user-1" (Some "ExponentPushToken[abc]")] [].

(** A world over [d] with the given scripts, at UTC instant [now]. *)
Definition world_of (d : store) (f : list (option string))
                    (g : list generate_outcome) (p : list push_outcome)
                    (now : Z) : world :=
  mk_world d f g p true "2024-03-14T09:00:00" now [] [] [].

Definition no_token_reminder : reminder_row :=
  mk_reminder_row 1 7 "user-1" 1000 "Reminder: Recital starts in 3 hours"
                  None None "pending" 0 None.

Definition registered_reminder : reminder_row :=
  mk_reminder_row 2 7 "user-1" 2000 "Reminder: Recital starts in 30 minutes"
                  (Some "ExponentPushToken[abc]") None "pending" 0 None.

Definition reminders_due : store :=
  mk_store [] [] [] [mk_user_row "user-1" None]
           [no_token_reminder; registered_reminder].

Definition device_gone : push_outcome :=
  PushRaises (mk_exn DeviceNotRegisteredError "DeviceNotRegistered").

(** An event of user-1 starting 2024-03-16T15:00:00. *)
Definition recital : event_row :=
  mk_event_row 7 "user-1" "msg-1" "pending" (PyStr "Recital")
               "2024-03-16T15:00:00" "2024-03-16T16:00:00"
               (PyStr "School Hall") PyNone None None None.

Definition recital_start : Z := 63846198000000000.

(** The store is unreachable for three requests in a row. *)
Definition outage : list (option string) :=
  [Some "connection refused"; Some "connection refused";
   Some "connection refused"].

(** The inbox once the soccer message has its event. *)
Definition inbox_with_event : store :=
  mk_store [mk_email_row soccer_email None; mk_email_row unclear_email None]
           [recital] []
           [mk_user_row "user-1" (Some "ExponentPushToken[abc]")] [].

(** The recital with its start written in UTC. *)
Definition recital_utc : event_row :=
  mk_event_row 8 "user-1" "msg-3" "pending" (PyStr "Recital")
               "2024-03-16T15:00:00Z" "2024-03-16T16:00:00Z"
               (PyStr "School Hall") PyNone None None None.

(** The recital, linked to a calendar entry that is gone. *)
Definition linked_recital : event_row :=
  mk_event_row 7 "user-1" "msg-1" "pending" (PyStr "Recital")
               "2024-03-16T15:00:00" "2024-03-16T16:00:00"
               (PyStr "School Hall") PyNone None (Some "cal-1") None.

(** A Google side where user-1 has granted access: the token refresh is
    answered, the update of the linked entry is not found, and the
    creation returns a new entry. *)
Definition google_side : ReminderWorker.google :=
  ReminderWorker.mk_google
    [("user-1", "refresh-1")]
    [ReminderWorker.GoogleOk "token"; ReminderWorker.GoogleNotFound;
     ReminderWorker.GoogleOk "cal-2"].

Definition rate_limited : push_outcome := PushNotSuccess "rate limited".

(** The store answers every duplicate check and refuses every insert. *)
Definition insert_refused : list (option string) :=
  [None; Some "insert refused"; None; Some "insert refused";
   None; Some "insert refused"].

(** A list of items separated by a bullet and a semicolon. *)
Definition bulleted_body : string :=
  "Please bring: water " ++ RegexParser.bullet ++ " cleats; snack".

End Samples.

(* ===================================================================== *)
(** * Properties of the pattern extractor *)
(* ===================================================================== *)

Section Extractor.
Context `{Runtime}.

Lemma list_of_set_single (xs : list string) (x : string) :
  nodup string_dec xs = [x] -> list_of_set xs = [x].
Proof.
  intros Hx. pose proof (list_of_set_perm xs) as Hp. rewrite Hx in Hp.
  apply Permutation_sym, Permutation_length_1_inv in Hp. exact Hp.
Qed.

Lemma list_of_set_nil (xs : list string) :
  list_of_set xs = [] <-> xs = [].
Proof.
  pose proof (list_of_set_perm xs) as Hp. split; intros Hx.
  - rewrite Hx in Hp. apply Permutation_nil in Hp.
    destruct xs as [|x xs']; [reflexivity|].
    assert (Hin : In x (nodup string_dec (x :: xs')))
      by (apply nodup_In; left; reflexivity).
    rewrite Hp in Hin. destruct Hin.
  - subst xs. simpl in Hp. apply Permutation_sym, Permutation_nil in Hp.
    exact Hp.
Qed.

Lemma soccer_dates :
  RegexParser._extract_dates Samples.soccer_body = ["2024-03-15"].
Proof.
  unfold RegexParser._extract_dates. apply list_of_set_single.
  vm_compute. reflexivity.
Qed.

Lemma soccer_parse :
  RegexParser.parse Samples.soccer_body Samples.soccer_subject
    = (Some Samples.soccer_event, 1.0%float).
Proof.
  unfold RegexParser.parse, RegexParser.checks, RegexParser.check_dates.
  rewrite soccer_dates. vm_compute. reflexivity.
Qed.

(** C8. The message with subject "Re: Soccer Practice Tomorrow" whose body
    carries the date 2024-03-15, the line "Location: Community Field" and
    the line "Please bring: water, cleats" yields a candidate of
    confidence at least 0.4 with title "Soccer Practice Tomorrow", start
    and end 2024-03-15, location "Community Field" and prep items
    water, cleats. *)
Theorem C8_soccer_practice_round_trip :
  exists event c,
    RegexParser.parse Samples.soccer_body Samples.soccer_subject
      = (Some event, c) /\
    (0.4 <=? c)%float = true /\
    title event = PyStr "Soccer Practice Tomorrow" /\
    start_ts event = "2024-03-15" /\
    end_ts event = "2024-03-15" /\
    location event = PyStr "Community Field" /\
    prep_items event = PyList [PyStr "water"; PyStr "cleats"].
Proof.
  exists Samples.soccer_event, 1.0%float.
  split; [exact soccer_parse | repeat split; reflexivity].
Qed.

(** With exactly one distinct date in the body, a returned candidate ends
    on the day it starts. *)
Lemma one_date_start_equals_end
    (email_body subject d : string) (event : ParsedEvent) (c : float) :
  nodup string_dec (RegexParser.scan_dates email_body) = [d] ->
  RegexParser.parse email_body subject = (Some event, c) ->
  start_ts event = d /\ end_ts event = d.
Proof.
  intros Hone. unfold RegexParser.parse, RegexParser.checks,
    RegexParser.check_title, RegexParser.check_dates,
    RegexParser.check_location, RegexParser.check_prep_items.
  unfold RegexParser._extract_dates. rewrite (list_of_set_single _ _ Hone).
  generalize (RegexParser._clean_subject subject); intros t.
  destruct (truthy t);
    destruct (RegexParser._extract_location email_body) as [l|];
    try destruct (truthy l);
    destruct (RegexParser._extract_prep_items email_body) as [items|];
    vm_compute; intros Hp; try discriminate Hp; injection Hp as <- _;
    split; reflexivity.
Qed.

(** ** The viability gate *)

(** C4, amended. A candidate is returned exactly when the accumulated
    confidence is at least 0.4 and both a title and a date were
    extracted; it then carries the accumulated confidence. When no
    candidate is returned, the returned confidence is the accumulated
    score if that is below 0.4, and 0.0 otherwise. *)
Theorem C4_candidate_iff_viable_and_complete (email_body subject : string) :
  let r := RegexParser.parse email_body subject in
  let acc := RegexParser.accumulated email_body subject in
  (RegexParser.returned r = true <->
     (0.4 <=? acc)%float = true /\
     RegexParser.title_found subject = true /\
     RegexParser.date_found email_body = true) /\
  (forall event, fst r = Some event ->
     snd r = acc /\ confidence event = acc) /\
  (fst r = None ->
     snd r = if (0.4 <=? acc)%float then 0.0%float else acc).
Proof.
  unfold RegexParser.returned, RegexParser.title_found,
    RegexParser.date_found, RegexParser.accumulated,
    RegexParser.parse, RegexParser.checks, RegexParser.check_title,
    RegexParser.check_dates, RegexParser.check_location,
    RegexParser.check_prep_items.
  generalize (RegexParser._clean_subject subject); intros t.
  destruct (truthy t);
    destruct (RegexParser._extract_dates email_body) as [|d0 rest];
    destruct (RegexParser._extract_location email_body) as [l|];
    try destruct (truthy l);
    destruct (RegexParser._extract_prep_items email_body) as [items|];
    vm_compute;
    (split; [split; [intros Hr; try discriminate Hr; auto
                   | intros [Ha [Ht Hd]];
                     try discriminate Ha; try discriminate Ht;
                     try discriminate Hd; reflexivity]
           | split; [intros event He; try discriminate He;
                     injection He as <-; split; reflexivity
                   | intros Hn; try discriminate Hn; reflexivity]]).
Qed.

End Extractor.

(** C4, as stated, fails: a body with a date under an empty subject
    accumulates 0.4, yet no candidate is returned and the returned
    confidence is 0.0. *)
Lemma C4_counterexample :
  let r := @RegexParser.parse forward_sets Samples.date_only_body "" in
  let acc := @RegexParser.accumulated forward_sets Samples.date_only_body "" in
  (0.4 <=? acc)%float = true /\ fst r = None /\ snd r <> acc.
Proof.
  vm_compute. repeat split. intros Heq. discriminate Heq.
Qed.

(** C6. At a body naming 2024-03-15 and then 2024-03-16 the scan finds the
    two days in that order, but which of them becomes the start is decided
    by the iteration order of the set: an interpreter whose set iterates
    backwards makes 2024-03-16 the start and 2024-03-15 the end. *)
Theorem C6_start_follows_set_order :
  RegexParser.scan_dates Samples.trip_body = ["2024-03-15"; "2024-03-16"] /\
  (exists event c,
     @RegexParser.parse backward_sets Samples.trip_body "Trip"
       = (Some event, c) /\
     start_ts event = "2024-03-16" /\ end_ts event = "2024-03-15") /\
  (exists event c,
     @RegexParser.parse forward_sets Samples.trip_body "Trip"
       = (Some event, c) /\
     start_ts event = "2024-03-15" /\ end_ts event = "2024-03-16").
Proof.
  split; [vm_compute; reflexivity|].
  split; eexists; eexists; (split; [vm_compute; reflexivity|]);
    split; reflexivity.
Qed.

(* ===================================================================== *)
(** * Properties of the generative parser *)
(* ===================================================================== *)

Section Generative.
Context `{Runtime}.

Lemma generate_next (prompt : string) (w : world) (o : generate_outcome)
                    (g : list generate_outcome) :
  generations w = o :: g ->
  generate prompt w
    = (Ok o, set_generations g (set_asked (asked w ++ [prompt])%list w)).
Proof. intros Hg. unfold generate. rewrite Hg. reflexivity. Qed.

(** C7, amended. For a reply that decodes to a JSON object the candidate
    is returned, and its two timestamps are the date, a T, the time and
    :00, read from the keys with these defaults: an absent start_time
    reads 00:00; an absent end_time reads the start_time when that key is
    present and 23:59 when it is absent too; an absent end_date reads the
    start_date. A key that is present is used as it is. *)
Theorem C7_defaults_for_absent_keys
    (email : EmailRecord) (w : world) (data : list (string * pyval))
    (g : list generate_outcome) :
  generations w = GenText (Some (PyDict data)) :: g ->
  exists event,
    fst (EventParser._parse_with_ollama email w) = Ok (Some event) /\
    let str := EventParser.str_of in
    let start_date :=
      match dict_lookup data "start_date" with
      | Some v => str v
      | None => str PyNone
      end in
    let start_time :=
      match dict_lookup data "start_time" with
      | Some v => str v
      | None => "00:00"
      end in
    let end_date :=
      match dict_lookup data "end_date" with
      | Some v => str v
      | None => start_date
      end in
    let end_time :=
      match dict_lookup data "end_time" with
      | Some v => str v
      | None =>
          match dict_lookup data "start_time" with
          | Some v => str v
          | None => "23:59"
          end
      end in
    start_ts event = start_date ++ "T" ++ start_time ++ ":00" /\
    end_ts event = end_date ++ "T" ++ end_time ++ ":00" /\
    (dict_lookup data "start_time" = None ->
       start_ts event = start_date ++ "T00:00:00") /\
    (forall v, dict_lookup data "end_time" = None ->
       dict_lookup data "start_time" = Some v ->
       end_ts event = end_date ++ "T" ++ str v ++ ":00") /\
    (dict_lookup data "end_time" = None ->
       dict_lookup data "start_time" = None ->
       end_ts event = end_date ++ "T23:59:00") /\
    (forall t, dict_lookup data "end_date" = None ->
       dict_lookup data "end_time" = Some t ->
       end_ts event = start_date ++ "T" ++ str t ++ ":00").
Proof.
  intros Hg. exists (EventParser.candidate_of_reply data). split.
  - unfold EventParser._parse_with_ollama, bind.
    rewrite (generate_next _ _ _ _ Hg). reflexivity.
  - cbv zeta. unfold EventParser.candidate_of_reply, dict_get.
    cbn [start_ts end_ts].
    assert (Hstart :
              EventParser.str_of
                match dict_lookup data "start_date" with
                | Some v => v
                | None => PyNone
                end
              = match dict_lookup data "start_date" with
                | Some v => EventParser.str_of v
                | None => EventParser.str_of PyNone
                end)
      by (destruct (dict_lookup data "start_date"); reflexivity).
    split; [|split; [|split; [|split; [|split]]]].
    + rewrite Hstart.
      destruct (dict_lookup data "start_time"); reflexivity.
    + rewrite <- Hstart.
      destruct (dict_lookup data "end_date");
        destruct (dict_lookup data "end_time");
        destruct (dict_lookup data "start_time"); reflexivity.
    + intros Hs. rewrite Hs, Hstart. reflexivity.
    + intros v He Hs. rewrite He, Hs, <- Hstart.
      destruct (dict_lookup data "end_date"); reflexivity.
    + intros He Hs. rewrite He, Hs, <- Hstart.
      destruct (dict_lookup data "end_date"); reflexivity.
    + intros t Hd He. rewrite Hd, He, Hstart. reflexivity.
Qed.

End Generative.

(** C7, as stated, fails: for a reply with a title and a start date only,
    the start time reads 00:00 and the end time reads 23:59, not the start
    time. *)
Lemma C7_counterexample :
  let event := @EventParser.candidate_of_reply forward_sets Samples.short_reply in
  dict_lookup Samples.short_reply "start_time" = None /\
  dict_lookup Samples.short_reply "end_time" = None /\
  start_ts event = "2024-03-16T00:00:00" /\
  end_ts event = "2024-03-16T23:59:00" /\
  end_ts event <> start_ts event.
Proof.
  vm_compute. repeat split. intros Heq. discriminate Heq.
Qed.

Lemma C7_witness :
  generations
    (Samples.world_of Samples.inbox []
       [GenText (Some (PyDict Samples.full_reply))] [] 0)
    = [GenText (Some (PyDict Samples.full_reply))] /\
  exists event,
    fst (@EventParser._parse_with_ollama forward_sets Samples.unclear_email
           (Samples.world_of Samples.inbox []
              [GenText (Some (PyDict Samples.full_reply))] [] 0))
      = Ok (Some event) /\
    end_ts event = "2024-03-16T15:00:00".
Proof.
  split; [reflexivity|].
  destruct (@C7_defaults_for_absent_keys forward_sets Samples.unclear_email
              (Samples.world_of Samples.inbox []
                 [GenText (Some (PyDict Samples.full_reply))] [] 0)
              Samples.full_reply [] eq_refl)
    as [event [Hrun [_ [_ [_ [Hend _]]]]]].
  exists event. split; [exact Hrun|].
  exact (Hend (PyStr "15:00") eq_refl eq_refl).
Defined.

(* ===================================================================== *)
(** * Reasoning about computations *)
(* ===================================================================== *)

Lemma bind_ok {A B} (m : M A) (f : A -> M B) (w w1 : world) (a : A) :
  m w = (Ok a, w1) -> bind m f w = f a w1.
Proof. intros Hm. unfold bind. rewrite Hm. reflexivity. Qed.

Lemma try_ok {A} (m : M A) (h : exn -> M A) (w w1 : world) (a : A) :
  m w = (Ok a, w1) -> try_except m h w = (Ok a, w1).
Proof. intros Hm. unfold try_except. rewrite Hm. reflexivity. Qed.

Lemma execute_quiet {A} (q : store -> A * store) (w : world) :
  faults w = [] ->
  execute q w = (Ok (fst (q (db w))), set_db (snd (q (db w))) w).
Proof.
  intros Hf. unfold execute. rewrite Hf. destruct (q (db w)); reflexivity.
Qed.

Section Respects.
Variable R : world -> world -> Prop.
Hypothesis R_refl : forall w, R w w.
Hypothesis R_trans : forall a b c, R a b -> R b c -> R a c.

Lemma respects_ret {A} (a : A) : respects R (ret a).
Proof. intros w. apply R_refl. Qed.

Lemma respects_raise {A} (e : exn) : respects R (@raise A e).
Proof. intros w. apply R_refl. Qed.

Lemma respects_gets {A} (f : world -> A) : respects R (gets f).
Proof. intros w. apply R_refl. Qed.

Lemma respects_lift {A} (r : result A) : respects R (ReminderWorker.lift r).
Proof. intros w. apply R_refl. Qed.

Lemma respects_bind {A B} (m : M A) (f : A -> M B) :
  respects R m -> (forall a, respects R (f a)) -> respects R (bind m f).
Proof.
  intros Hm Hf w. unfold bind. specialize (Hm w).
  destruct (m w) as [[a|e] w1]; simpl in *.
  - eapply R_trans; [exact Hm | apply Hf].
  - exact Hm.
Qed.

Lemma respects_try {A} (m : M A) (h : exn -> M A) :
  respects R m -> (forall e, respects R (h e)) -> respects R (try_except m h).
Proof.
  intros Hm Hh w. unfold try_except. specialize (Hm w).
  destruct (m w) as [[a|e] w1]; simpl in *.
  - exact Hm.
  - eapply R_trans; [exact Hm | apply Hh].
Qed.

End Respects.

Lemma never_raises_ret {A} (a : A) : never_raises (ret a).
Proof. intros w. exists a. reflexivity. Qed.

Lemma never_raises_bind {A B} (m : M A) (f : A -> M B) :
  never_raises m -> (forall a, never_raises (f a)) -> never_raises (bind m f).
Proof.
  intros Hm Hf w. unfold bind. destruct (Hm w) as [a Ha].
  destruct (m w) as [r w1]; simpl in Ha; subst r. apply Hf.
Qed.

Lemma never_raises_try {A} (m : M A) (h : exn -> M A) :
  (forall e, never_raises (h e)) -> never_raises (try_except m h).
Proof.
  intros Hh w. unfold try_except.
  destruct (m w) as [[a|e] w1]; [exists a; reflexivity | apply Hh].
Qed.

(** ** The marks journal *)

Lemma same_marks_refl (w : world) : same_marks w w.
Proof. reflexivity. Qed.

Lemma same_marks_trans (a b c : world) :
  same_marks a b -> same_marks b c -> same_marks a c.
Proof. unfold same_marks. intros Hab Hbc. rewrite Hbc. exact Hab. Qed.

Lemma execute_same_marks {A} (q : store -> A * store) :
  respects same_marks (execute q).
Proof.
  intros w. unfold execute.
  destruct (faults w) as [|[msg|] rest]; try destruct (q (db w));
    reflexivity.
Qed.

Lemma generate_same_marks (prompt : string) :
  respects same_marks (generate prompt).
Proof.
  intros w. unfold generate. destruct (generations w); reflexivity.
Qed.

Lemma generate_never_raises (prompt : string) : never_raises (generate prompt).
Proof.
  intros w. unfold generate. destruct (generations w) as [|o rest];
    eexists; reflexivity.
Qed.

Lemma sleep_same_marks (delay : Z) : respects same_marks (sleep delay).
Proof. intros w. reflexivity. Qed.

Lemma sleep_returns (delay : Z) (w : world) :
  sleep delay w = (Ok tt, set_slept (slept w ++ [delay])%list w).
Proof. reflexivity. Qed.

Create HintDb marks.
#[local] Hint Resolve same_marks_refl same_marks_trans : marks.
#[local] Hint Resolve execute_same_marks generate_same_marks
  sleep_same_marks : marks.

(** [quiet] splits a goal [respects same_marks m] along the structure of
    [m], leaving the continuations that bind a value. *)
Ltac quiet :=
  repeat first
    [ solve [auto with marks]
    | apply respects_ret; [exact same_marks_refl]
    | apply respects_raise; [exact same_marks_refl]
    | apply respects_gets; [exact same_marks_refl]
    | apply respects_bind; [exact same_marks_trans | | intro ]
    | apply respects_try; [exact same_marks_trans | | intro ] ].

(* ===================================================================== *)
(** * Properties of the extraction coordinator *)
(* ===================================================================== *)

Section Coordinator.
Context `{Runtime}.

Lemma mark_email_processed_marks (email_id : string) (s : bool) (w : world) :
  fst (EventParser._mark_email_processed email_id s w) = Ok tt /\
  marked (snd (EventParser._mark_email_processed email_id s w))
    = (marked w ++ [(email_id, s)])%list.
Proof.
  unfold EventParser._mark_email_processed, bind, modify, gets, try_except,
    execute, ret.
  simpl. destruct (faults w) as [|[msg|] rest]; simpl; split; reflexivity.
Qed.

Lemma parse_with_ollama_same_marks (email : EmailRecord) :
  respects same_marks (EventParser._parse_with_ollama email).
Proof.
  unfold EventParser._parse_with_ollama.
  apply respects_bind;
    [exact same_marks_trans | apply generate_same_marks | ].
  intros [e|[[| | | | |l|kv]|]]; quiet.
Qed.

Lemma parse_with_ollama_never_raises (email : EmailRecord) :
  never_raises (EventParser._parse_with_ollama email).
Proof.
  unfold EventParser._parse_with_ollama. apply never_raises_bind.
  - apply generate_never_raises.
  - intros [e|[[| | | | |l|kv]|]]; apply never_raises_ret.
Qed.

Lemma find_child_id_same_marks (user subject body : string) :
  respects same_marks (EventParser._find_child_id user subject body).
Proof. unfold EventParser._find_child_id. quiet. Qed.

Lemma insert_event_same_marks (email : EmailRecord)
    (parsed_event : option ParsedEvent) (status : string) :
  respects same_marks (EventParser._insert_event email parsed_event status).
Proof. unfold EventParser._insert_event. quiet. Qed.

Lemma marks_or_raises_mark (email_id : string) :
  EventParser.marks_or_raises email_id
    (EventParser._mark_email_processed email_id true).
Proof. intros w. left. apply mark_email_processed_marks. Qed.

Lemma marks_or_raises_bind {A} (email_id : string) (m : M A)
    (k : A -> M unit) :
  respects same_marks m ->
  (forall a, EventParser.marks_or_raises email_id (k a)) ->
  EventParser.marks_or_raises email_id (bind m k).
Proof.
  intros Hm Hk w. unfold bind. specialize (Hm w).
  destruct (m w) as [[a|e] w1]; simpl in Hm; unfold same_marks in Hm.
  - destruct (Hk a w1) as [[Hr Hj]|[e [Hr Hj]]].
    + left. rewrite Hj, Hm. split; [exact Hr | reflexivity].
    + right. exists e. rewrite Hj, Hm. split; [exact Hr | reflexivity].
  - right. exists e. split; [reflexivity | exact Hm].
Qed.

Lemma attempt_once_marks (email : EmailRecord) :
  EventParser.marks_or_raises (id email) (EventParser.attempt_once email).
Proof.
  unfold EventParser.attempt_once.
  apply marks_or_raises_bind; [apply execute_same_marks|].
  intros existing. destruct (truthy_list existing).
  - apply marks_or_raises_mark.
  - destruct (RegexParser.parse (raw_body email) (subject email))
      as [regex_event c].
    apply marks_or_raises_bind.
    + destruct (c <? 0.7)%float;
        [apply parse_with_ollama_same_marks | quiet].
    + intros [pe|].
      * apply marks_or_raises_bind; [apply find_child_id_same_marks|].
        intros child.
        apply marks_or_raises_bind; [apply insert_event_same_marks|].
        intros _. apply marks_or_raises_mark.
      * apply marks_or_raises_bind; [apply insert_event_same_marks|].
        intros _. apply marks_or_raises_mark.
Qed.

Lemma attempts_last (attempt : nat) (rest : list nat) (delay : Z)
    (email : EmailRecord) :
  (attempt <? EventParser.max_retries - 1) = false ->
  EventParser.settles (id email)
    (EventParser.attempts (attempt :: rest) delay email).
Proof.
  intros Hlast w. cbn [EventParser.attempts]. rewrite Hlast.
  unfold try_except.
  destruct (attempt_once_marks email w) as [[Hr Hj]|[e [Hr Hj]]];
    destruct (EventParser.attempt_once email w) as [r w1];
    simpl in Hr, Hj; subst r.
  - left. split; [reflexivity | exact Hj].
  - right. exists e. unfold bind.
    destruct (mark_email_processed_marks (id email) false w1) as [Hm Hk].
    destruct (EventParser._mark_email_processed (id email) false w1)
      as [r w2]; simpl in Hm, Hk; subst r.
    simpl. split; [reflexivity | rewrite Hk, Hj; reflexivity].
Qed.

Lemma attempts_retry (attempt : nat) (rest : list nat) (delay : Z)
    (email : EmailRecord) :
  (attempt <? EventParser.max_retries - 1) = true ->
  EventParser.settles (id email)
    (EventParser.attempts rest (delay * 2)%Z email) ->
  EventParser.settles (id email)
    (EventParser.attempts (attempt :: rest) delay email).
Proof.
  intros Hmore Hrest w. cbn [EventParser.attempts]. rewrite Hmore.
  unfold try_except.
  destruct (attempt_once_marks email w) as [[Hr Hj]|[e [Hr Hj]]];
    destruct (EventParser.attempt_once email w) as [r w1];
    simpl in Hr, Hj; subst r.
  - left. split; [reflexivity | exact Hj].
  - rewrite (bind_ok _ _ _ _ _ (sleep_returns delay w1)).
    specialize (Hrest (set_slept (slept w1 ++ [delay])%list w1)).
    simpl in Hrest. rewrite Hj in Hrest. exact Hrest.
Qed.

Lemma process_email_settles (email : EmailRecord) :
  EventParser.settles (id email) (EventParser._process_email email).
Proof.
  unfold EventParser._process_email. simpl seq.
  apply attempts_retry; [reflexivity|].
  apply attempts_retry; [reflexivity|].
  apply attempts_last. reflexivity.
Qed.

Lemma process_batch_never_raises (emails : list EmailRecord) :
  never_raises (EventParser.process_batch emails).
Proof.
  induction emails as [|email rest IH]; simpl.
  - apply never_raises_ret.
  - apply never_raises_bind; [|intros _; exact IH].
    apply never_raises_try. intros e w. exists tt.
    apply mark_email_processed_marks.
Qed.

Lemma parse_queue_turns_never_raises (turns : nat) :
  never_raises (EventParser.parse_queue_turns turns).
Proof.
  induction turns as [|n IH]; simpl; [apply never_raises_ret|].
  apply never_raises_bind; [|intros _; exact IH].
  unfold EventParser.parse_queue_cycle. apply never_raises_bind.
  - unfold EventParser._get_unprocessed_emails. apply never_raises_try.
    intros e. apply never_raises_ret.
  - intros emails. destruct (truthy_list emails).
    + apply never_raises_bind; [apply process_batch_never_raises|].
      intros _ w. exists tt. reflexivity.
    + intros w. exists tt. reflexivity.
Qed.

(** C5, amended. Every message of a batch gets marked processed in every
    branch: exactly once when its processing returns (existing event,
    successful parse, review placeholder), and twice after the final retry
    fails -- once by the per-message processing before it raises again, once
    by the handler of the batch loop. That handler swallows the error: the
    batch never raises and goes on with the next message. *)
Theorem C5_marked_in_every_branch
    (email : EmailRecord) (rest : list EmailRecord) (w : world) :
  never_raises (EventParser.process_batch (email :: rest)) /\
  exists w1,
    EventParser.process_batch (email :: rest) w
      = EventParser.process_batch rest w1 /\
    ((fst (EventParser._process_email email w) = Ok tt /\
      marked w1 = (marked w ++ [(id email, true)])%list) \/
     (exists e,
        fst (EventParser._process_email email w) = Raise e /\
        marked w1
          = (marked w ++ [(id email, false); (id email, false)])%list)).
Proof.
  split; [apply process_batch_never_raises|].
  simpl. unfold bind at 1. unfold try_except.
  destruct (process_email_settles email w) as [[Hr Hj]|[e [Hr Hj]]];
    destruct (EventParser._process_email email w) as [r w1];
    simpl in Hr, Hj; subst r.
  - exists w1. split; [reflexivity|]. left. split; [reflexivity | exact Hj].
  - destruct (mark_email_processed_marks (id email) false w1) as [Hm Hk].
    destruct (EventParser._mark_email_processed (id email) false w1)
      as [r w2]; simpl in Hm, Hk; subst r.
    exists w2. split; [reflexivity|]. right. exists e.
    split; [reflexivity|]. rewrite Hk, Hj, <- app_assoc. reflexivity.
Qed.

(** C1. At the sample soccer message (store reachable, no event yet) the
    regex parse succeeds with confidence 1.0 and the coordinator inserts
    the event with the default status of the insert operation, upcoming.
    That status is none of pending, synced, failed, needs_review, and the
    worker's pending-event query does not select the row, so its status is
    never advanced. *)
Theorem C1_parsed_event_is_inserted_as_upcoming :
  let w := Samples.world_of Samples.inbox [] [] [] 0 in
  exists w' row,
    EventParser._process_email Samples.soccer_email w = (Ok tt, w') /\
    events (db w') = [row] /\
    ev_source_msg_id row = "msg-1" /\
    ev_status row = "upcoming" /\
    ~ In (ev_status row) ["pending"; "synced"; "failed"; "needs_review"] /\
    fst (ReminderWorker._get_pending_events w') = Ok [].
Proof.
  intros w. subst w. eexists. eexists.
  unfold EventParser._process_email. simpl seq.
  cbn [EventParser.attempts]. unfold EventParser.attempt_once.
  unfold try_except, bind at 1. unfold execute at 1. simpl.
  rewrite soccer_parse.
  split; [vm_compute; reflexivity|].
  split; [reflexivity|]. split; [reflexivity|]. split; [reflexivity|].
  split; [|reflexivity].
  simpl. intros [Hp|[Hp|[Hp|[Hp|[]]]]]; discriminate Hp.
Qed.

Lemma answered_three (w : world) :
  answered 3 w = true ->
  faults w = [] \/ faults w = [None] \/ faults w = [None; None] \/
  exists rest, faults w = None :: None :: None :: rest.
Proof.
  unfold answered.
  destruct (faults w) as [|[m1|] [|[m2|] [|[m3|] rest]]]; simpl;
    intros Ha; try discriminate Ha; auto.
  right. right. right. exists rest. reflexivity.
Qed.

Lemma mark_row_marks (email_id now : string) (r : email_row) :
  id (em_record (EventParser.mark_row email_id now r)) = id (em_record r) /\
  (id (em_record r) = email_id ->
   processed (em_record (EventParser.mark_row email_id now r)) = true /\
   em_processed_at (EventParser.mark_row email_id now r) = Some now).
Proof.
  unfold EventParser.mark_row.
  destruct (String.eqb (id (em_record r)) email_id) eqn:Heq.
  - split; [reflexivity|]. intros _. split; reflexivity.
  - split; [reflexivity|]. intros Hid. apply String.eqb_neq in Heq.
    contradiction.
Qed.

(** C9, amended. When the regex parse is below the 0.7 escalation
    threshold and the response of the generative service is not valid
    JSON, the generative parse returns an absent result without raising.
    When moreover the message has no event yet and the store answers the
    three requests of the attempt (duplicate check, insert, update), the
    coordinator persists an event with status needs_review and marks the
    message processed: one call of the mark operation, every row of the
    message gets processed = true and its processed-at instant, the row is
    kept, and the message is not fetched as unprocessed any more. *)
Theorem C9_invalid_json_goes_to_review
    (email : EmailRecord) (w : world) (g : list generate_outcome) :
  answered 3 w = true ->
  filter (fun e => String.eqb (ev_source_msg_id e) (id email))
         (events (db w)) = [] ->
  (snd (RegexParser.parse (raw_body email) (subject email)) <? 0.7)%float
    = true ->
  generations w = GenText None :: g ->
  fst (EventParser._parse_with_ollama email w) = Ok None /\
  exists w' row,
    EventParser._process_email email w = (Ok tt, w') /\
    events (db w') = (events (db w) ++ [row])%list /\
    ev_status row = "needs_review" /\
    ev_source_msg_id row = id email /\
    ev_title row = PyStr ("Review: " ++ subject email) /\
    marked w' = (marked w ++ [(id email, true)])%list /\
    inbound_emails (db w')
      = map (EventParser.mark_row (id email) (now_iso w))
            (inbound_emails (db w)) /\
    (forall r, In r (inbound_emails (db w')) ->
       id (em_record r) = id email ->
       processed (em_record r) = true /\
       em_processed_at r = Some (now_iso w)) /\
    map (fun r => id (em_record r)) (inbound_emails (db w'))
      = map (fun r => id (em_record r)) (inbound_emails (db w)) /\
    (forall found,
       fst (EventParser._get_unprocessed_emails w') = Ok found ->
       forall e, In e found -> id e <> id email).
Proof.
  intros Ha Hnone Hlow Hg.
  assert (Hcore : exists w' row,
             EventParser._process_email email w = (Ok tt, w') /\
             events (db w') = (events (db w) ++ [row])%list /\
             ev_status row = "needs_review" /\
             ev_source_msg_id row = id email /\
             ev_title row = PyStr ("Review: " ++ subject email) /\
             marked w' = (marked w ++ [(id email, true)])%list /\
             inbound_emails (db w')
               = map (EventParser.mark_row (id email) (now_iso w))
                     (inbound_emails (db w))).
  { apply answered_three in Ha.
    destruct w as [d f gs ps up ni un mk sl ak]. simpl in Ha, Hnone, Hg.
    subst gs.
    destruct Ha as [->|[->|[->|[rest ->]]]]; eexists; eexists;
      unfold EventParser._process_email; simpl seq;
      cbn [EventParser.attempts]; unfold EventParser.attempt_once;
      unfold try_except, bind at 1; unfold execute at 1; simpl;
      rewrite Hnone; simpl;
      destruct (RegexParser.parse (raw_body email) (subject email))
        as [regex_event c];
      simpl in Hlow; rewrite Hlow;
      (split; [reflexivity|]); simpl; repeat split; reflexivity. }
  split.
  - unfold EventParser._parse_with_ollama, bind, generate. rewrite Hg.
    reflexivity.
  - destruct Hcore as [w' [row [Hrun [Hev [Hst [Hsrc [Htitle [Hmk Hrows]]]]]]]].
    exists w', row.
    assert (Hflag : forall r, In r (inbound_emails (db w')) ->
              id (em_record r) = id email ->
              processed (em_record r) = true /\
              em_processed_at r = Some (now_iso w)).
    { intros r Hr Hid. rewrite Hrows in Hr. apply in_map_iff in Hr.
      destruct Hr as [r0 [<- _]].
      destruct (mark_row_marks (id email) (now_iso w) r0) as [Hsame Hset].
      apply Hset. rewrite <- Hsame. exact Hid. }
    repeat (split; [assumption|]). split.
    + rewrite Hrows, map_map. apply map_ext. intros r.
      apply mark_row_marks.
    + intros found Hfound e He Hid.
      unfold EventParser._get_unprocessed_emails, try_except, execute, ret
        in Hfound.
      assert (Hin : In e (map em_record
                  (filter (fun r => negb (processed (em_record r)))
                          (inbound_emails (db w'))))).
      { destruct (faults w') as [|[msg|] rest]; simpl in Hfound;
          inversion Hfound; subst found;
          [exact He | destruct He | exact He]. }
      apply in_map_iff in Hin. destruct Hin as [r [Hr Hrin]]. subst e.
      apply filter_In in Hrin. destruct Hrin as [Hrin Hneg].
      rewrite (proj1 (Hflag r Hrin Hid)) in Hneg. discriminate Hneg.
Qed.

End Coordinator.

(** C5, as stated, fails: when the store is unreachable for the three
    attempts, the message is marked processed twice. *)
Lemma C5_counterexample :
  let w := Samples.world_of Samples.inbox Samples.outage [] [] 0 in
  let w' := snd (@EventParser.process_batch forward_sets
                   [Samples.unclear_email] w) in
  (exists e, fst (@EventParser._process_email forward_sets
                    Samples.unclear_email w) = Raise e) /\
  EventParser.markings "msg-2" w = [] /\
  EventParser.markings "msg-2" w' = [("msg-2", false); ("msg-2", false)].
Proof.
  vm_compute. split; [eexists; reflexivity|]. split; reflexivity.
Qed.

(** C9, as stated, fails: when the store refuses the insert on every
    attempt, the parse is below the threshold and the response is not
    valid JSON, yet no event is persisted and the processing raises. *)
Lemma C9_counterexample :
  let w := Samples.world_of Samples.inbox Samples.insert_refused
             [GenText None; GenText None; GenText None] [] 0 in
  let r := @EventParser._process_email forward_sets Samples.unclear_email w in
  (snd (@RegexParser.parse forward_sets (raw_body Samples.unclear_email)
          (subject Samples.unclear_email)) <? 0.7)%float = true /\
  fst (@EventParser._parse_with_ollama forward_sets Samples.unclear_email w)
    = Ok None /\
  fst r = Raise (mk_exn StoreError "insert refused") /\
  events (db (snd r)) = [] /\
  asked (snd r)
    = [EventParser.email_content Samples.unclear_email;
       EventParser.email_content Samples.unclear_email;
       EventParser.email_content Samples.unclear_email].
Proof.
  vm_compute. repeat split; reflexivity.
Qed.

Lemma C9_witness :
  let w := Samples.world_of Samples.inbox [] [GenText None] [] 0 in
  answered 3 w = true /\
  exists w' row,
    @EventParser._process_email forward_sets Samples.unclear_email w
      = (Ok tt, w') /\
    events (db w') = [row] /\ ev_status row = "needs_review" /\
    marked w' = [("msg-2", true)] /\
    map (fun r => (id (em_record r), processed (em_record r)))
        (inbound_emails (db w'))
      = [("msg-1", false); ("msg-2", true)].
Proof.
  cbv zeta. split; [reflexivity|].
  destruct (@C9_invalid_json_goes_to_review forward_sets
              Samples.unclear_email
              (Samples.world_of Samples.inbox [] [GenText None] [] 0) []
              eq_refl eq_refl eq_refl eq_refl)
    as [_ [w' [row [Hrun [Hev [Hst [_ [_ [Hmk [Hrows _]]]]]]]]]].
  exists w', row.
  split; [exact Hrun|]. split; [exact Hev|]. split; [exact Hst|].
  split; [exact Hmk|]. rewrite Hrows. reflexivity.
Defined.

(* ===================================================================== *)
(** * Properties of the reminder worker *)
(* ===================================================================== *)

Lemma rewritten_refl (w : world) : ReminderWorker.table_rewritten w w.
Proof. apply ReminderWorker.rw_same. Qed.

Lemma rewritten_trans (a b c : world) :
  ReminderWorker.table_rewritten a b -> ReminderWorker.table_rewritten b c ->
  ReminderWorker.table_rewritten a c.
Proof. apply ReminderWorker.rw_then. Qed.

Lemma execute_rewritten {A} (q : store -> A * store) :
  (forall d, ReminderWorker.rewrites (reminders d) (reminders (snd (q d)))) ->
  respects ReminderWorker.table_rewritten (execute q).
Proof.
  intros Hq w. unfold execute, ReminderWorker.table_rewritten.
  destruct (faults w) as [|[msg|] rest].
  - specialize (Hq (db w)). destruct (q (db w)); exact Hq.
  - apply ReminderWorker.rw_same.
  - specialize (Hq (db w)). destruct (q (db w)); exact Hq.
Qed.

Lemma publish_rewritten : respects ReminderWorker.table_rewritten publish.
Proof.
  intros w. unfold publish. destruct (pushes w); apply ReminderWorker.rw_same.
Qed.

Create HintDb tables.
#[local] Hint Resolve rewritten_refl rewritten_trans publish_rewritten : tables.
#[local] Hint Constructors ReminderWorker.rewrites : tables.

(** [steady] splits a goal [respects table_rewritten m] along the structure
    of [m]. *)
Ltac steady :=
  repeat first
    [ solve [auto with tables]
    | apply respects_ret; [exact rewritten_refl]
    | apply respects_raise; [exact rewritten_refl]
    | apply respects_gets; [exact rewritten_refl]
    | apply respects_lift; [exact rewritten_refl]
    | apply execute_rewritten; intro; simpl; solve [auto with tables]
    | apply respects_bind; [exact rewritten_trans | | intro ]
    | apply respects_try; [exact rewritten_trans | | intro ] ].

(** ** Settled reminders stay settled *)

Lemma settled_map (reminder_id : nat) (f : reminder_row -> reminder_row)
    (t : list reminder_row) :
  (forall r, rm_id (f r) = rm_id r) ->
  (forall r, rm_sent_at_ts r <> None -> rm_sent_at_ts (f r) <> None) ->
  ReminderWorker.settled reminder_id t ->
  ReminderWorker.settled reminder_id (map f t).
Proof.
  intros Hid Hsent [Hin Hall]. split.
  - rewrite map_map. rewrite (map_ext _ rm_id Hid). exact Hin.
  - intros r Hr Heq. apply in_map_iff in Hr. destruct Hr as [r0 [<- Hr0]].
    apply Hsent. apply Hall; [exact Hr0|]. rewrite <- Hid. exact Heq.
Qed.

Lemma sent_update_keeps (reminder_id : nat) (now : Z)
    (error_message : option string) (r : reminder_row) :
  rm_id (ReminderWorker.sent_update reminder_id now error_message r) = rm_id r
  /\ (rm_sent_at_ts r <> None ->
      rm_sent_at_ts (ReminderWorker.sent_update reminder_id now error_message r)
        <> None).
Proof.
  unfold ReminderWorker.sent_update.
  destruct (Nat.eqb (rm_id r) reminder_id); simpl; split; auto; discriminate.
Qed.

Lemma failure_update_keeps (reminder_id : nat) (retry_count : Z)
    (error_message : string) (r : reminder_row) :
  rm_id (ReminderWorker.failure_update reminder_id retry_count error_message r)
    = rm_id r /\
  rm_sent_at_ts
    (ReminderWorker.failure_update reminder_id retry_count error_message r)
    = rm_sent_at_ts r.
Proof.
  unfold ReminderWorker.failure_update.
  destruct (Nat.eqb (rm_id r) reminder_id); simpl; split; reflexivity.
Qed.

Lemma overwrite_keeps (p : ReminderWorker.reminder_data) (r : reminder_row) :
  rm_id (ReminderWorker.overwrite p r) = rm_id r /\
  rm_sent_at_ts (ReminderWorker.overwrite p r) = rm_sent_at_ts r.
Proof.
  unfold ReminderWorker.overwrite.
  destruct (ReminderWorker.same_slot p r); simpl; split; reflexivity.
Qed.

Lemma fresh_reminder_id_new (t : list reminder_row) (n : nat) :
  In n (map rm_id t) -> n <> fresh_reminder_id t.
Proof.
  intros Hin. unfold fresh_reminder_id.
  assert (Hle : n <= list_max (map rm_id t)).
  { pose proof (proj1 (list_max_le (map rm_id t) (list_max (map rm_id t)))
                  (Nat.le_refl _)) as Hall.
    rewrite Forall_forall in Hall. apply Hall. exact Hin. }
  lia.
Qed.

Lemma settled_upsert_one (reminder_id : nat) (t : list reminder_row)
    (p : ReminderWorker.reminder_data) :
  ReminderWorker.settled reminder_id t ->
  ReminderWorker.settled reminder_id (ReminderWorker.upsert_one t p).
Proof.
  intros Hs. unfold ReminderWorker.upsert_one.
  destruct (existsb (ReminderWorker.same_slot p) t).
  - apply settled_map; [apply overwrite_keeps | | exact Hs].
    intros r Hr. rewrite (proj2 (overwrite_keeps p r)). exact Hr.
  - destruct Hs as [Hin Hall]. split.
    + rewrite map_app. apply in_or_app. left. exact Hin.
    + intros r Hr Heq. apply in_app_or in Hr. destruct Hr as [Hr|[<-|[]]].
      * apply Hall; assumption.
      * simpl in Heq. exfalso.
        apply (fresh_reminder_id_new t reminder_id Hin). symmetry. exact Heq.
Qed.

Lemma settled_upsert (reminder_id : nat)
    (ps : list ReminderWorker.reminder_data) (t : list reminder_row) :
  ReminderWorker.settled reminder_id t ->
  ReminderWorker.settled reminder_id (ReminderWorker.upsert t ps).
Proof.
  revert t. unfold ReminderWorker.upsert.
  induction ps as [|p ps IH]; intros t Hs; simpl; [exact Hs|].
  apply IH. apply settled_upsert_one. exact Hs.
Qed.

Lemma settled_rewrites (reminder_id : nat) (t t' : list reminder_row) :
  ReminderWorker.rewrites t t' ->
  ReminderWorker.settled reminder_id t -> ReminderWorker.settled reminder_id t'.
Proof.
  induction 1 as [t | t rid now err | t rid rc err | t ps | t1 t2 t3 _ IH1 _ IH2];
    intros Hs.
  - exact Hs.
  - apply settled_map; [apply sent_update_keeps | apply sent_update_keeps
                       | exact Hs].
  - apply settled_map; [apply failure_update_keeps | | exact Hs].
    intros r Hr. rewrite (proj2 (failure_update_keeps rid rc err r)). exact Hr.
  - apply settled_upsert. exact Hs.
  - apply IH2, IH1, Hs.
Qed.

Lemma is_due_unsent (now : Z) (r : reminder_row) :
  ReminderWorker.is_due now r = true -> rm_sent_at_ts r = None.
Proof.
  unfold ReminderWorker.is_due. destruct (rm_sent_at_ts r); simpl.
  - rewrite andb_false_r. discriminate.
  - reflexivity.
Qed.

(** ** Upserting reminders of new slots *)

Lemma same_slot_absent (p : ReminderWorker.reminder_data)
    (t : list reminder_row) :
  (forall r, In r (ReminderWorker.rows_of (ReminderWorker.rd_event_id p) t) ->
     rm_notify_at_ts r <> ReminderWorker.rd_notify_at_ts p) ->
  existsb (ReminderWorker.same_slot p) t = false.
Proof.
  induction t as [|r t IH]; intros Hnew; simpl; [reflexivity|].
  unfold ReminderWorker.rows_of in Hnew. simpl in Hnew.
  unfold ReminderWorker.same_slot at 1.
  destruct (Nat.eqb (rm_event_id r) (ReminderWorker.rd_event_id p)) eqn:He;
    simpl.
  - assert (Hr : rm_notify_at_ts r <> ReminderWorker.rd_notify_at_ts p)
      by (apply Hnew; left; reflexivity).
    apply Z.eqb_neq in Hr. rewrite Hr. simpl.
    apply IH. intros r' Hr'. apply Hnew. right. exact Hr'.
  - apply IH. exact Hnew.
Qed.

Lemma rows_of_app (event_id : nat) (t1 t2 : list reminder_row) :
  ReminderWorker.rows_of event_id (t1 ++ t2)
    = (ReminderWorker.rows_of event_id t1
       ++ ReminderWorker.rows_of event_id t2)%list.
Proof. apply filter_app. Qed.

Lemma upsert_new_slots (event_id : nat)
    (ps : list ReminderWorker.reminder_data) (t : list reminder_row) :
  (forall p, In p ps -> ReminderWorker.rd_event_id p = event_id) ->
  NoDup (map ReminderWorker.rd_notify_at_ts ps) ->
  (forall p r, In p ps -> In r (ReminderWorker.rows_of event_id t) ->
     rm_notify_at_ts r <> ReminderWorker.rd_notify_at_ts p) ->
  length (ReminderWorker.rows_of event_id (ReminderWorker.upsert t ps))
    = length (ReminderWorker.rows_of event_id t) + length ps.
Proof.
  revert t. unfold ReminderWorker.upsert.
  induction ps as [|p ps IH]; intros t Hev Hnd Hnew; simpl; [lia|].
  inversion Hnd as [|x xs Hx Hnd']; subst.
  assert (Hp : ReminderWorker.rd_event_id p = event_id)
    by (apply Hev; left; reflexivity).
  unfold ReminderWorker.upsert_one at 2.
  rewrite same_slot_absent.
  2:{ rewrite Hp. intros r Hr. apply (Hnew p r); [left; reflexivity | exact Hr]. }
  rewrite IH.
  - rewrite rows_of_app, length_app. unfold ReminderWorker.rows_of at 2.
    simpl. rewrite Hp, Nat.eqb_refl. simpl. lia.
  - intros p' Hp'. apply Hev. right. exact Hp'.
  - exact Hnd'.
  - intros p' r Hp' Hr. rewrite rows_of_app in Hr. apply in_app_or in Hr.
    destruct Hr as [Hr|Hr].
    + apply (Hnew p' r); [right; exact Hp' | exact Hr].
    + unfold ReminderWorker.rows_of in Hr. simpl in Hr.
      rewrite Hp, Nat.eqb_refl in Hr. destruct Hr as [<-|[]]. simpl.
      intros Heq. apply Hx. rewrite Heq. apply in_map. exact Hp'.
Qed.

Section Worker.
Context `{Runtime}.

Lemma mark_reminder_sent_rewritten (reminder_id : nat)
    (error_message : option string) :
  respects ReminderWorker.table_rewritten
    (ReminderWorker._mark_reminder_sent reminder_id error_message).
Proof. unfold ReminderWorker._mark_reminder_sent. steady. Qed.

Lemma handle_push_failure_rewritten (reminder : reminder_row)
    (error_message : string) :
  respects ReminderWorker.table_rewritten
    (ReminderWorker._handle_push_failure reminder error_message).
Proof. unfold ReminderWorker._handle_push_failure. steady. Qed.

Lemma get_pending_reminders_rewritten :
  respects ReminderWorker.table_rewritten ReminderWorker._get_pending_reminders.
Proof. unfold ReminderWorker._get_pending_reminders. steady. Qed.

Lemma create_reminders_rewritten (event : event_row) :
  respects ReminderWorker.table_rewritten
    (ReminderWorker._create_reminders event).
Proof.
  unfold ReminderWorker._create_reminders. steady.
  - destruct (fromisoformat _); steady.
  - destruct (truthy_list _); steady.
Qed.

Lemma send_push_notification_rewritten (reminder : reminder_row) :
  respects ReminderWorker.table_rewritten
    (ReminderWorker._send_push_notification reminder).
Proof.
  unfold ReminderWorker._send_push_notification.
  destruct (negb (ReminderWorker.has_token reminder)).
  - apply mark_reminder_sent_rewritten.
  - apply respects_bind; [exact rewritten_trans | apply publish_rewritten |].
    intros [|details|e]; [apply mark_reminder_sent_rewritten | steady |].
    destruct (kind e); try apply mark_reminder_sent_rewritten; steady.
Qed.

Lemma send_all_rewritten (pending : list reminder_row) :
  respects ReminderWorker.table_rewritten (ReminderWorker.send_all pending).
Proof.
  induction pending as [|reminder rest IH]; simpl; [steady|].
  apply respects_bind; [exact rewritten_trans | | intros _; exact IH].
  apply respects_try; [exact rewritten_trans | |].
  - apply send_push_notification_rewritten.
  - intros e. apply handle_push_failure_rewritten.
Qed.

Lemma process_push_notifications_rewritten :
  respects ReminderWorker.table_rewritten
    ReminderWorker.process_push_notifications.
Proof.
  unfold ReminderWorker.process_push_notifications.
  apply respects_try; [exact rewritten_trans | | intros e; steady].
  apply respects_bind;
    [exact rewritten_trans | apply get_pending_reminders_rewritten |].
  intros pending. apply send_all_rewritten.
Qed.

Lemma perform_rewritten (a : ReminderWorker.action) (w : world) :
  ReminderWorker.table_rewritten w (ReminderWorker.perform a w).
Proof.
  destruct a; simpl.
  - apply create_reminders_rewritten.
  - apply process_push_notifications_rewritten.
  - apply send_push_notification_rewritten.
  - apply mark_reminder_sent_rewritten.
  - apply handle_push_failure_rewritten.
  - apply ReminderWorker.rw_same.
Qed.

Lemma run_rewritten (acts : list ReminderWorker.action) (w : world) :
  ReminderWorker.table_rewritten w (ReminderWorker.run acts w).
Proof.
  revert w. induction acts as [|a acts IH]; intros w; simpl.
  - apply rewritten_refl.
  - eapply rewritten_trans; [apply perform_rewritten | apply IH].
Qed.

Lemma get_pending_reminders_rows (w : world) (rows : list reminder_row) :
  fst (ReminderWorker._get_pending_reminders w) = Ok rows ->
  rows = filter (ReminderWorker.is_due (utcnow w)) (reminders (db w)).
Proof.
  unfold ReminderWorker._get_pending_reminders, try_except, bind, gets,
    execute, raise.
  destruct (faults w) as [|[msg|] rest]; simpl; intros Hr;
    [injection Hr as <- | discriminate Hr | injection Hr as <-];
    reflexivity.
Qed.

Lemma mark_reminder_sent_table (reminder_id : nat)
    (error_message : option string) (w : world) :
  hd None (faults w) = None ->
  fst (ReminderWorker._mark_reminder_sent reminder_id error_message w) = Ok tt
  /\ utcnow (snd (ReminderWorker._mark_reminder_sent reminder_id
                    error_message w)) = utcnow w
  /\ reminders
       (db (snd (ReminderWorker._mark_reminder_sent reminder_id
                   error_message w)))
     = map (ReminderWorker.sent_update reminder_id (utcnow w) error_message)
           (reminders (db w)).
Proof.
  unfold ReminderWorker._mark_reminder_sent, try_except, bind, gets, execute,
    ret.
  destruct (faults w) as [|[msg|] rest]; simpl; intros Hf;
    try discriminate Hf; repeat split; reflexivity.
Qed.

(** C10, amended. A reminder routed through the mark-sent operation gets
    its sent-at set by that update when the store accepts the update,
    whichever status is written; from then on, whatever the worker does
    and however much time passes, the pending-reminder query never returns
    it again, so it is never sent or retried again. *)
Theorem C10_marked_reminder_is_terminal
    (w : world) (reminder_id : nat) (error_message : option string) :
  In reminder_id (map rm_id (reminders (db w))) ->
  hd None (faults w) = None ->
  let w1 :=
    snd (ReminderWorker._mark_reminder_sent reminder_id error_message w) in
  (forall r, In r (reminders (db w1)) -> rm_id r = reminder_id ->
     rm_sent_at_ts r = Some (utcnow w)) /\
  (forall acts rows,
     fst (ReminderWorker._get_pending_reminders (ReminderWorker.run acts w1))
       = Ok rows ->
     forall r, In r rows -> rm_id r <> reminder_id).
Proof.
  intros Hin Hf w1.
  destruct (mark_reminder_sent_table reminder_id error_message w Hf)
    as [_ [_ Ht]].
  fold w1 in Ht.
  assert (Hnow : forall r, In r (reminders (db w1)) -> rm_id r = reminder_id ->
                   rm_sent_at_ts r = Some (utcnow w)).
  { intros r Hr Heq. rewrite Ht in Hr. apply in_map_iff in Hr.
    destruct Hr as [r0 [<- Hr0]].
    assert (Hid : rm_id r0 = reminder_id).
    { rewrite <- (proj1 (sent_update_keeps reminder_id (utcnow w)
                           error_message r0)). exact Heq. }
    unfold ReminderWorker.sent_update. apply Nat.eqb_eq in Hid.
    rewrite Hid. reflexivity. }
  split; [exact Hnow|].
  intros acts rows Hrows r Hr Heq.
  assert (Hs : ReminderWorker.settled reminder_id (reminders (db w1))).
  { split.
    - rewrite Ht, map_map.
      rewrite (map_ext _ rm_id
                 (fun r0 => proj1 (sent_update_keeps reminder_id (utcnow w)
                                     error_message r0))).
      exact Hin.
    - intros r0 Hr0 Hid. rewrite (Hnow r0 Hr0 Hid). discriminate. }
  apply (settled_rewrites _ _ _ (run_rewritten acts w1)) in Hs.
  apply get_pending_reminders_rows in Hrows. subst rows.
  apply filter_In in Hr. destruct Hr as [Hr Hdue].
  apply is_due_unsent in Hdue.
  exact (proj2 Hs r Hr Heq Hdue).
Qed.

Lemma pair_of_parts {A} (x : result A * world) (a : A) :
  fst x = Ok a -> x = (Ok a, snd x).
Proof. destruct x as [r w]. simpl. intros ->. reflexivity. Qed.

(** C2, amended. When the stored push token is missing, or the provider
    reports the device as not registered, the dispatcher routes the
    reminder through the mark-sent operation with an explanatory note;
    because a note is given, that update (the store accepting it) writes
    status failed, the sent-at instant and the note. The retry count is
    left as it was, the failure handler is not run, and the reminder is
    not due again at any instant. *)
Theorem C2_terminal_conditions_close_the_reminder
    (reminder : reminder_row) (w : world) (note : string) :
  hd None (faults w) = None ->
  (ReminderWorker.has_token reminder = false /\ note = "No push token") \/
  (ReminderWorker.has_token reminder = true /\
   note = "Device not registered" /\
   exists e rest,
     pushes w = PushRaises e :: rest /\ kind e = DeviceNotRegisteredError) ->
  exists w',
    ReminderWorker._send_push_notification reminder w = (Ok tt, w') /\
    reminders (db w')
      = map (ReminderWorker.sent_update (rm_id reminder) (utcnow w)
               (Some note))
            (reminders (db w)) /\
    (forall r0, In r0 (reminders (db w)) -> rm_id r0 = rm_id reminder ->
       let r1 :=
         ReminderWorker.sent_update (rm_id reminder) (utcnow w) (Some note) r0
       in
       rm_status r1 = "failed" /\
       rm_sent_at_ts r1 = Some (utcnow w) /\
       rm_error_message r1 = Some note /\
       rm_retry_count r1 = rm_retry_count r0 /\
       forall now, ReminderWorker.is_due now r1 = false) /\
    (forall rest,
       ReminderWorker.send_all (reminder :: rest) w
         = ReminderWorker.send_all rest w').
Proof.
  intros Hf Hcase.
  assert (Hrun : exists w',
             ReminderWorker._send_push_notification reminder w = (Ok tt, w') /\
             reminders (db w')
               = map (ReminderWorker.sent_update (rm_id reminder) (utcnow w)
                        (Some note))
                     (reminders (db w))).
  { unfold ReminderWorker._send_push_notification.
    destruct Hcase as [[Htok ->]|[Htok [-> [e [rest [Hp Hk]]]]]];
      rewrite Htok; cbn [negb].
    - destruct (mark_reminder_sent_table (rm_id reminder)
                  (Some "No push token") w Hf) as [Hr [_ Ht]].
      eexists. split; [apply pair_of_parts; exact Hr | exact Ht].
    - unfold bind, publish. cbv beta. rewrite Hp. cbv beta iota.
      rewrite Hk.
      destruct (mark_reminder_sent_table (rm_id reminder)
                  (Some "Device not registered") (set_pushes rest w) Hf)
        as [Hr [_ Ht]].
      eexists. split; [apply pair_of_parts; exact Hr | exact Ht]. }
  destruct Hrun as [w' [Hrun Ht]]. exists w'.
  split; [exact Hrun|]. split; [exact Ht|]. split.
  - intros r0 _ Hid r1. subst r1. unfold ReminderWorker.sent_update.
    apply Nat.eqb_eq in Hid. rewrite Hid.
    assert (Hnote : truthy note = true)
      by (destruct Hcase as [[_ ->]|[_ [-> _]]]; reflexivity).
    rewrite Hnote. simpl. repeat split.
    intros now. unfold ReminderWorker.is_due. simpl.
    rewrite andb_false_r. reflexivity.
  - intros rest. cbn [ReminderWorker.send_all].
    rewrite (bind_ok _ _ _ _ _ (try_ok _ _ _ _ _ Hrun)). reflexivity.
Qed.

(** ** Scheduling *)

Lemma reminders_to_insert_naive (event : event_row)
    (push_token : option string) (now : Z)
    (times : list (datetime * string)) :
  (forall x, In x times -> utcoffset (fst x) = None) ->
  exists to_insert,
    ReminderWorker.reminders_to_insert event push_token now times
      = Ok to_insert /\
    map ReminderWorker.rd_notify_at_ts to_insert
      = filter (fun t => (now <? t)%Z) (map (fun x => ticks (fst x)) times) /\
    (forall p, In p to_insert ->
       ReminderWorker.rd_event_id p = ev_id event /\
       ReminderWorker.rd_status p = "pending" /\
       ReminderWorker.rd_retry_count p = 0%Z).
Proof.
  induction times as [|[notify_time time_desc] times IH]; intros Hnaive.
  - exists []. simpl. split; [reflexivity|]. split; [reflexivity|].
    intros p [].
  - destruct IH as [more [Hmore [Hticks Hcols]]].
    { intros x Hx. apply Hnaive. right. exact Hx. }
    specialize (Hnaive (notify_time, time_desc) (or_introl eq_refl)).
    simpl in Hnaive. simpl. unfold ReminderWorker.at_or_before.
    rewrite Hnaive, Hmore. rewrite (Z.ltb_antisym (ticks notify_time) now).
    destruct (ticks notify_time <=? now)%Z; simpl.
    + exists more. repeat split; [exact Hticks | apply Hcols ..]; assumption.
    + eexists. split; [reflexivity|]. split; [simpl; rewrite Hticks; reflexivity|].
      intros p [<-|Hp]; [repeat split | apply Hcols; exact Hp].
Qed.

Lemma reminder_times_naive (s : Z) :
  (ReminderWorker.hours 24 <= s)%Z ->
  ReminderWorker.reminder_times (mk_datetime s None)
    = Ok [(mk_datetime (s - ReminderWorker.hours 24) None, "24 hours");
          (mk_datetime (s - ReminderWorker.hours 3) None, "3 hours");
          (mk_datetime (s - ReminderWorker.minutes 30) None, "30 minutes")].
Proof.
  intros Hs. unfold ReminderWorker.reminder_times, ReminderWorker.minus.
  simpl ticks. simpl utcoffset.
  unfold ReminderWorker.hours, ReminderWorker.minutes in *.
  destruct (Z.ltb_spec (s - 24 * 3600 * 1000000) 0); [lia|].
  destruct (Z.ltb_spec (s - 3 * 3600 * 1000000) 0); [lia|].
  destruct (Z.ltb_spec (s - 30 * 60 * 1000000) 0); [lia|].
  reflexivity.
Qed.

(** C3, amended. For an event whose start is a timestamp without UTC
    offset (at least 24 hours after the first representable instant), with
    the store reachable, scheduling computes the three candidate instants
    24 hours, 3 hours and 30 minutes before the start, drops every
    candidate at or before the current instant and upserts one pending
    reminder for each of the others. For an event without reminders yet:
    if it starts 25 hours from now, exactly 3 reminders are persisted; if
    it starts in 1 hour, exactly 1 is (the one 30 minutes before the
    start). *)
Theorem C3_three_offsets_future_only
    (event : event_row) (w : world) (s : Z) :
  fromisoformat (replace_char "Z" "+00:00" (ev_start_ts event))
    = Some (mk_datetime s None) ->
  (ReminderWorker.hours 24 <= s)%Z ->
  faults w = [] ->
  let now := utcnow w in
  let kept :=
    filter (fun t => (now <? t)%Z)
           [(s - ReminderWorker.hours 24)%Z; (s - ReminderWorker.hours 3)%Z;
            (s - ReminderWorker.minutes 30)%Z] in
  exists w' to_insert,
    ReminderWorker._create_reminders event w = (Ok tt, w') /\
    map ReminderWorker.rd_notify_at_ts to_insert = kept /\
    (forall p, In p to_insert ->
       ReminderWorker.rd_event_id p = ev_id event /\
       ReminderWorker.rd_status p = "pending" /\
       ReminderWorker.rd_retry_count p = 0%Z) /\
    reminders (db w') = ReminderWorker.upsert (reminders (db w)) to_insert /\
    (ReminderWorker.rows_of (ev_id event) (reminders (db w)) = [] ->
     length (ReminderWorker.rows_of (ev_id event) (reminders (db w')))
       = length kept) /\
    (s = (now + ReminderWorker.hours 25)%Z ->
     kept = [(s - ReminderWorker.hours 24)%Z; (s - ReminderWorker.hours 3)%Z;
             (s - ReminderWorker.minutes 30)%Z]) /\
    (s = (now + ReminderWorker.hours 1)%Z ->
     kept = [(s - ReminderWorker.minutes 30)%Z]).
Proof.
  intros Hstart Hs Hf now kept.
  destruct (reminders_to_insert_naive event
              (match filter (fun u => String.eqb (us_id u) (ev_user_id event))
                            (users (db w)) with
               | u :: _ => us_expo_push_token u
               | [] => None
               end)
              now
              [(mk_datetime (s - ReminderWorker.hours 24) None, "24 hours");
               (mk_datetime (s - ReminderWorker.hours 3) None, "3 hours");
               (mk_datetime (s - ReminderWorker.minutes 30) None,
                "30 minutes")])
    as [to_insert [Hins [Hticks Hcols]]].
  { intros x [<-|[<-|[<-|[]]]]; reflexivity. }
  change (map (fun x : datetime * string => ticks (fst x)) _)
    with [(s - ReminderWorker.hours 24)%Z; (s - ReminderWorker.hours 3)%Z;
          (s - ReminderWorker.minutes 30)%Z] in Hticks.
  fold kept in Hticks.
  assert (Hrun : exists w',
             ReminderWorker._create_reminders event w = (Ok tt, w') /\
             reminders (db w')
               = ReminderWorker.upsert (reminders (db w)) to_insert).
  { unfold ReminderWorker._create_reminders, try_except.
    unfold bind at 1. rewrite Hstart. unfold ret at 1.
    unfold bind at 1. unfold ReminderWorker.lift at 1.
    rewrite (reminder_times_naive s Hs).
    unfold bind at 1. rewrite (execute_quiet _ _ Hf). cbv beta.
    cbn [fst snd]. unfold bind at 1. unfold gets at 1.
    unfold bind at 1. unfold ReminderWorker.lift at 1.
    cbn [utcnow set_db]. fold now. rewrite Hins.
    destruct to_insert as [|p ps]; cbn [truthy_list].
    - eexists. split; [reflexivity|]. reflexivity.
    - rewrite execute_quiet by exact Hf. eexists.
      split; [reflexivity|]. reflexivity. }
  destruct Hrun as [w' [Hrun Ht]]. exists w', to_insert.
  split; [exact Hrun|]. split; [exact Hticks|]. split; [exact Hcols|].
  split; [exact Ht|].
  assert (Hnd : NoDup kept).
  { apply NoDup_filter.
    unfold ReminderWorker.hours, ReminderWorker.minutes.
    repeat constructor; simpl; intuition lia. }
  split; [|split].
  - intros Hnone. rewrite Ht.
    rewrite (upsert_new_slots (ev_id event)).
    + rewrite Hnone, <- Hticks, length_map. reflexivity.
    + intros p Hp. apply Hcols. exact Hp.
    + rewrite Hticks. exact Hnd.
    + intros p r _ Hr. rewrite Hnone in Hr. destruct Hr.
  - intros Hlong. subst kept. simpl.
    unfold ReminderWorker.hours, ReminderWorker.minutes in *.
    destruct (Z.ltb_spec now (s - 24 * 3600 * 1000000)); [|lia].
    destruct (Z.ltb_spec now (s - 3 * 3600 * 1000000)); [|lia].
    destruct (Z.ltb_spec now (s - 30 * 60 * 1000000)); [|lia].
    reflexivity.
  - intros Hshort. subst kept. simpl.
    unfold ReminderWorker.hours, ReminderWorker.minutes in *.
    destruct (Z.ltb_spec now (s - 24 * 3600 * 1000000)); [lia|].
    destruct (Z.ltb_spec now (s - 3 * 3600 * 1000000)); [lia|].
    destruct (Z.ltb_spec now (s - 30 * 60 * 1000000)); [|lia].
    reflexivity.
Qed.

End Worker.

(** C2, as stated, fails: for a reminder without a push token, and for one
    whose device is no longer registered, the status written is failed,
    not sent. *)
Lemma C2_counterexample :
  let w := Samples.world_of Samples.reminders_due [] []
                            [Samples.device_gone] 5000 in
  map rm_status
      (reminders (db (snd (ReminderWorker._send_push_notification
                             Samples.no_token_reminder w))))
    = ["failed"; "pending"] /\
  map rm_status
      (reminders (db (snd (ReminderWorker._send_push_notification
                             Samples.registered_reminder w))))
    = ["pending"; "failed"].
Proof. vm_compute. split; reflexivity. Qed.

Lemma C2_witness :
  let w := Samples.world_of Samples.reminders_due [] []
                            [Samples.device_gone] 5000 in
  hd None (faults w) = None /\
  ReminderWorker.has_token Samples.registered_reminder = true /\
  exists w',
    ReminderWorker._send_push_notification
      Samples.registered_reminder w = (Ok tt, w') /\
    map rm_status (reminders (db w')) = ["pending"; "failed"].
Proof.
  split; [reflexivity|]. split; [reflexivity|].
  destruct (C2_terminal_conditions_close_the_reminder
              Samples.registered_reminder
              (Samples.world_of Samples.reminders_due [] []
                 [Samples.device_gone] 5000)
              "Device not registered" eq_refl
              (or_intror
                 (conj eq_refl
                    (conj eq_refl
                       (ex_intro _ _
                          (ex_intro _ [] (conj eq_refl eq_refl)))))))
    as [w' [Hrun [Ht _]]].
  exists w'. split; [exact Hrun|]. rewrite Ht. reflexivity.
Defined.

(** C10, as stated, fails: when the store fails the update, the mark-sent
    operation swallows the failure, the sent-at stays unset, and the next
    query for pending reminders returns the reminder again. *)
Lemma C10_counterexample :
  let w := Samples.world_of Samples.reminders_due [Some "timeout"] [] []
             5000 in
  let r := ReminderWorker._mark_reminder_sent 2 None w in
  fst r = Ok tt /\
  reminders (db (snd r)) = reminders (db w) /\
  map rm_sent_at_ts (reminders (db (snd r))) = [None; None] /\
  fst (ReminderWorker._get_pending_reminders (snd r))
    = Ok [Samples.no_token_reminder; Samples.registered_reminder] /\
  rm_id Samples.registered_reminder = 2.
Proof.
  vm_compute. repeat split; reflexivity.
Qed.

Lemma C10_witness :
  let w := Samples.world_of Samples.reminders_due [] [] [] 5000 in
  let w1 := snd (ReminderWorker._mark_reminder_sent 1
                   (Some "No push token") w) in
  In 1 (map rm_id (reminders (db w))) /\
  hd None (faults w) = None /\
  fst (ReminderWorker._get_pending_reminders
         (@ReminderWorker.run forward_sets
            [ReminderWorker.Elapse 9000 [] []] w1))
    = Ok [Samples.registered_reminder] /\
  rm_id Samples.registered_reminder <> 1.
Proof.
  split; [simpl; left; reflexivity|]. split; [reflexivity|].
  split; [reflexivity|].
  exact (proj2
           (@C10_marked_reminder_is_terminal forward_sets
              (Samples.world_of Samples.reminders_due [] [] [] 5000) 1
              (Some "No push token") (or_introl eq_refl) eq_refl)
           [ReminderWorker.Elapse 9000 [] []] [Samples.registered_reminder]
           eq_refl Samples.registered_reminder (or_introl eq_refl)).
Defined.

(** C3, as stated, fails: for an event starting in one hour the candidate
    30 minutes before the start is still ahead, and one reminder is
    persisted. *)
Lemma C3_counterexample :
  let now := (Samples.recital_start - ReminderWorker.hours 1)%Z in
  let w := Samples.world_of Samples.inbox [] [] [] now in
  let w' := snd (@ReminderWorker._create_reminders forward_sets
                   Samples.recital w) in
  reminders (db w) = [] /\
  map rm_notify_at_ts (reminders (db w'))
    = [(Samples.recital_start - ReminderWorker.minutes 30)%Z] /\
  length (reminders (db w')) <> 0.
Proof.
  vm_compute. repeat split. intros Heq. discriminate Heq.
Qed.

Lemma C3_witness :
  let now := (Samples.recital_start - ReminderWorker.hours 25)%Z in
  let w := Samples.world_of Samples.inbox [] [] [] now in
  (ReminderWorker.hours 24 <= Samples.recital_start)%Z /\
  faults w = [] /\
  exists w',
    @ReminderWorker._create_reminders forward_sets Samples.recital w
      = (Ok tt, w') /\
    length (ReminderWorker.rows_of 7 (reminders (db w'))) = 3.
Proof.
  assert (Hs : (ReminderWorker.hours 24 <= Samples.recital_start)%Z)
    by (vm_compute; discriminate).
  split; [exact Hs|]. split; [reflexivity|].
  destruct (@C3_three_offsets_future_only forward_sets Samples.recital
              (Samples.world_of Samples.inbox [] [] []
                 (Samples.recital_start - ReminderWorker.hours 25)%Z)
              Samples.recital_start eq_refl Hs eq_refl)
    as [w' [to_insert [Hrun [_ [_ [_ [Hlen [Hkept _]]]]]]]].
  exists w'. split; [exact Hrun|].
  etransitivity; [exact (Hlen eq_refl)|].
  rewrite (Hkept eq_refl). reflexivity.
Defined.

(* ===================================================================== *)
(** * Further properties of the pattern extractor *)
(* ===================================================================== *)

(** ** Stripping *)

Lemma lstrip_head (s : string) (c : ascii) (s' : string) :
  lstrip s = String c s' -> is_space c = false.
Proof.
  induction s as [|a s IH]; simpl; [discriminate|].
  destruct (is_space a) eqn:Ea; [exact IH|].
  intros Heq. injection Heq as <- _. exact Ea.
Qed.

Lemma rstrip_cons (c : ascii) (s : string) :
  is_space c = false -> rstrip (String c s) = String c (rstrip s).
Proof. intros Hc. simpl. destruct (rstrip s); rewrite ?Hc; reflexivity. Qed.

Lemma rstrip_rstrip (s : string) : rstrip (rstrip s) = rstrip s.
Proof.
  induction s as [|c s IH]; simpl; [reflexivity|].
  destruct (rstrip s) as [|x y] eqn:Hr.
  - destruct (is_space c) eqn:Hc; simpl; rewrite ?Hc; reflexivity.
  - change (rstrip (String c (String x y)) = String c (String x y)).
    simpl. simpl in IH. rewrite IH. reflexivity.
Qed.

Lemma strip_trimmed (s : string) : trimmed (strip s).
Proof.
  unfold trimmed, strip. split; [|apply rstrip_rstrip].
  destruct (lstrip s) as [|c s'] eqn:Hl; [reflexivity|].
  pose proof (lstrip_head _ _ _ Hl) as Hc.
  rewrite (rstrip_cons c s' Hc). simpl. rewrite Hc. reflexivity.
Qed.

Lemma all_chars_lstrip (p : ascii -> bool) (s : string) :
  all_chars p s = true -> all_chars p (lstrip s) = true.
Proof.
  induction s as [|c s IH]; simpl; [reflexivity|].
  intros Hp. apply andb_prop in Hp. destruct Hp as [Hc Hs].
  destruct (is_space c); [apply IH; exact Hs|].
  simpl. rewrite Hc, Hs. reflexivity.
Qed.

Lemma all_chars_rstrip (p : ascii -> bool) (s : string) :
  all_chars p s = true -> all_chars p (rstrip s) = true.
Proof.
  induction s as [|c s IH]; simpl; [reflexivity|].
  intros Hp. apply andb_prop in Hp. destruct Hp as [Hc Hs].
  specialize (IH Hs). destruct (rstrip s) as [|x y].
  - destruct (is_space c); simpl; rewrite ?Hc; reflexivity.
  - change (p c && all_chars p (String x y) = true). rewrite Hc. exact IH.
Qed.

Lemma all_chars_strip (p : ascii -> bool) (s : string) :
  all_chars p s = true -> all_chars p (strip s) = true.
Proof. intros Hp. apply all_chars_rstrip, all_chars_lstrip, Hp. Qed.

Lemma truthy_nonempty (s : string) : truthy s = true -> s <> "".
Proof. destruct s; [discriminate | intros _ Heq; discriminate Heq]. Qed.

(** ** Splitting *)

(** ** Captured lines *)

Section Captures.
Context {A : Type}.
Variable icase : bool.

Lemma lit_answer (l : string) :
  forall cap s (k : Re.cont) (x : A),
    Re.lit icase l cap s k = Some x -> exists s', k cap s' = Some x.
Proof.
  induction l as [|a l IH]; intros cap s k x; simpl.
  - intros Hk. exists s. destruct s; exact Hk.
  - destruct s as [|b s]; [discriminate|].
    destruct (Re.chr_eq icase a b); [apply IH | discriminate].
Qed.

Lemma rep_consumes (p : ascii -> bool) (s : string) :
  forall lo hi cap (k : Re.cont) (x : A),
    Re.rep icase p lo hi cap s k = Some x ->
    exists pre s',
      s = pre ++ s' /\ all_chars (Re.cls_test icase p) pre = true /\
      lo <= String.length pre /\ k cap s' = Some x.
Proof.
  induction s as [|c s IH]; intros lo hi cap k x; simpl.
  - destruct (Nat.eqb_spec lo 0) as [->|]; [|discriminate].
    intros Hk. exists "", "". repeat split; auto.
  - assert (Hstop : (if lo =? 0 then k cap (String c s) else None) = Some x ->
              exists pre s',
                String c s = pre ++ s' /\
                all_chars (Re.cls_test icase p) pre = true /\
                lo <= String.length pre /\ k cap s' = Some x).
    { destruct (Nat.eqb_spec lo 0) as [->|]; [|discriminate].
      intros Hk. exists "", (String c s). repeat split; auto. }
    destruct (match hi with Some 0 => false | _ => true end
              && Re.cls_test icase p c) eqn:Hgo; [|exact Hstop].
    destruct (Re.rep icase p (pred lo) (option_map pred hi) cap s k)
      as [y|] eqn:Hrec; [|exact Hstop].
    intros Hx. injection Hx as ->.
    destruct (IH _ _ _ _ _ Hrec) as [pre [s' [-> [Hall [Hlo Hk]]]]].
    apply andb_prop in Hgo. destruct Hgo as [_ Hc].
    exists (String c pre), s'. simpl. rewrite Hc, Hall.
    repeat split; [lia | exact Hk].
Qed.

Lemma run_answer (r : Re.regex) :
  forall cap s (k : Re.cont) (x : A),
    Re.run icase r cap s k = Some x ->
    exists cap' s', k cap' s' = Some x.
Proof.
  induction r as [l | p lo hi | r1 IH1 r2 IH2 | r1 IH1 r2 IH2 | r IH];
    intros cap s k x; simpl.
  - intros Hl. destruct (lit_answer _ _ _ _ _ Hl) as [s' Hk]. eauto.
  - intros Hr. destruct (rep_consumes _ _ _ _ _ _ _ Hr)
      as [pre [s' [_ [_ [_ Hk]]]]]. eauto.
  - intros H1. destruct (IH1 _ _ _ _ H1) as [cap' [s' H2]].
    exact (IH2 _ _ _ _ H2).
  - destruct (Re.run icase r1 cap s k) as [y|] eqn:H1.
    + intros Hx. injection Hx as ->. exact (IH1 _ _ _ _ H1).
    + apply IH2.
  - intros Hr. destruct (IH _ _ _ _ Hr) as [cap' [s' Hk]]. eauto.
Qed.

End Captures.

Lemma length_append (a b : string) :
  String.length (a ++ b) = String.length a + String.length b.
Proof. induction a as [|c a IH]; simpl; [reflexivity | rewrite IH; reflexivity]. Qed.

Lemma take_append (a b : string) :
  take (String.length (a ++ b) - String.length b) (a ++ b) = a.
Proof.
  rewrite length_append. replace (_ + _ - _) with (String.length a) by lia.
  induction a as [|c a IH]; simpl; [destruct b; reflexivity | rewrite IH; reflexivity].
Qed.

Lemma not_newline_insensitive (c : ascii) :
  Re.cls_test true Re.not_newline c = negb (is_line_break c).
Proof.
  destruct c as [[] [] [] [] [] [] [] []]; vm_compute; reflexivity.
Qed.

Lemma line_capture_group (r : Re.regex) :
  line_capture r ->
  forall cap s c rest,
    Re.run true r cap s (fun cap' rest' => Some (cap', rest')) = Some (c, rest) ->
    exists g,
      c = Some g /\ g <> "" /\
      all_chars (fun a => negb (is_line_break a)) g = true.
Proof.
  induction 1 as [|a r _ IH]; intros cap s c rest.
  - cbn [Re.run]. intros Hr.
    destruct (rep_consumes _ _ _ _ _ _ _ _ Hr)
      as [pre [s' [-> [Hall [Hlo Hk]]]]].
    rewrite take_append in Hk. simpl in Hk.
    assert (Hc : c = Some pre) by (destruct s'; injection Hk as <- _; reflexivity).
    exists pre. split; [exact Hc|]. split.
    + destruct pre; [simpl in Hlo; lia | discriminate].
    + clear -Hall. induction pre as [|x pre IH]; [reflexivity|].
      cbn [all_chars] in *. apply andb_prop in Hall.
      destruct Hall as [Hx Hp]. rewrite not_newline_insensitive in Hx.
      rewrite Hx. exact (IH Hp).
  - cbn [Re.run]. intros Hr.
    destruct (run_answer _ _ _ _ _ _ Hr) as [cap' [s' Hrest]].
    exact (IH _ _ _ _ Hrest).
Qed.

Lemma line_capture_search (r : Re.regex) (text g : string) :
  line_capture r -> Re.search true r text = Some g ->
  g <> "" /\ all_chars (fun a => negb (is_line_break a)) g = true.
Proof.
  intros Hr. induction text as [|c text IH]; simpl.
  - unfold Re.match_at.
    destruct (Re.run true r None "" _) as [[cap rest]|] eqn:Hm;
      [|discriminate].
    destruct (line_capture_group r Hr _ _ _ _ Hm) as [g' [-> [Hne Hall]]].
    intros Hg. injection Hg as <-. split; assumption.
  - unfold Re.match_at.
    destruct (Re.run true r None (String c text) _) as [[cap rest]|] eqn:Hm;
      [|exact IH].
    destruct (line_capture_group r Hr _ _ _ _ Hm) as [g' [-> [Hne Hall]]].
    intros Hg. injection Hg as <-. split; assumption.
Qed.

Lemma location_patterns_capture :
  Forall line_capture RegexParser.LOCATION_PATTERNS.
Proof. repeat constructor. Qed.

Lemma prep_patterns_capture : Forall line_capture RegexParser.PREP_PATTERNS.
Proof. repeat constructor. Qed.

(** X3. A location returned by [_extract_location] is a single line (no
    line feed or carriage return) without white space at either end. *)
Theorem extracted_location_is_a_trimmed_line (text l : string) :
  RegexParser._extract_location text = Some l ->
  trimmed l /\ all_chars (fun a => negb (is_line_break a)) l = true.
Proof.
  unfold RegexParser._extract_location.
  generalize location_patterns_capture.
  induction 1 as [|r rs Hr _ IH]; simpl; [discriminate|].
  destruct (Re.search true r text) as [g|] eqn:Hs; [|exact IH].
  intros Hl. injection Hl as <-.
  destruct (line_capture_search r text g Hr Hs) as [_ Hall].
  split; [apply strip_trimmed | apply all_chars_strip; exact Hall].
Qed.

Section MoreExtractor.
Context `{Runtime}.

Lemma extract_dates_nodup (text : string) :
  NoDup (RegexParser._extract_dates text).
Proof.
  unfold RegexParser._extract_dates.
  pose proof (list_of_set_perm (RegexParser.scan_dates text)) as Hp.
  apply (Permutation_NoDup (Permutation_sym Hp)). apply NoDup_nodup.
Qed.

Lemma extract_dates_members (text : string) (d : string) :
  In d (RegexParser._extract_dates text) <->
  In d (RegexParser.scan_dates text).
Proof.
  unfold RegexParser._extract_dates.
  pose proof (list_of_set_perm (RegexParser.scan_dates text)) as Hp.
  split; intros Hd.
  - apply (nodup_In string_dec). exact (Permutation_in _ Hp Hd).
  - apply (nodup_In string_dec) in Hd.
    exact (Permutation_in _ (Permutation_sym Hp) Hd).
Qed.

Lemma extract_dates_count (text : string) :
  length (RegexParser._extract_dates text)
    = length (nodup string_dec (RegexParser.scan_dates text)).
Proof.
  unfold RegexParser._extract_dates.
  exact (Permutation_length (list_of_set_perm (RegexParser.scan_dates text))).
Qed.

(** X1. The confidence [parse] returns lies between 0.0 and 1.0, and a
    returned candidate carries a confidence of at least 0.6 (a title and a
    date were both found). *)
Theorem parse_confidence_range (email_body subject : string) :
  let r := RegexParser.parse email_body subject in
  (0.0 <=? snd r)%float = true /\ (snd r <=? 1.0)%float = true /\
  forall event, fst r = Some event ->
    (0.6 <=? snd r)%float = true /\ confidence event = snd r.
Proof.
  unfold RegexParser.parse, RegexParser.checks, RegexParser.check_title,
    RegexParser.check_dates, RegexParser.check_location,
    RegexParser.check_prep_items.
  generalize (RegexParser._clean_subject subject); intros t.
  destruct (truthy t);
    destruct (RegexParser._extract_dates email_body) as [|d0 rest];
    destruct (RegexParser._extract_location email_body) as [l|];
    try destruct (truthy l);
    destruct (RegexParser._extract_prep_items email_body) as [items|];
    vm_compute;
    (split; [reflexivity|]; split; [reflexivity|];
     intros event He; try discriminate He; injection He as <-;
     split; reflexivity).
Qed.

Lemma parse_candidate_shape
    (email_body subject : string) (event : ParsedEvent) (c : float) :
  RegexParser.parse email_body subject = (Some event, c) ->
  exists d0 rest,
    RegexParser._extract_dates email_body = d0 :: rest /\
    truthy (RegexParser._clean_subject subject) = true /\
    title event = PyStr (RegexParser._clean_subject subject) /\
    start_ts event = d0 /\
    end_ts event = match rest with d1 :: _ => d1 | [] => d0 end /\
    child_id event = None.
Proof.
  unfold RegexParser.parse, RegexParser.checks, RegexParser.check_title,
    RegexParser.check_dates, RegexParser.check_location,
    RegexParser.check_prep_items.
  generalize (RegexParser._clean_subject subject); intros t.
  destruct (truthy t);
    destruct (RegexParser._extract_dates email_body) as [|d0 rest];
    destruct (RegexParser._extract_location email_body) as [l|];
    try destruct (truthy l);
    destruct (RegexParser._extract_prep_items email_body) as [items|];
    vm_compute; intros Hp; try discriminate Hp; injection Hp as <- _;
    exists d0, rest; repeat split; reflexivity.
Qed.

(** X2. A candidate returned by [parse] has a non-empty title without white
    space at either end; its start and end are dates scanned from the body,
    and they are the same date exactly when the scan found one distinct
    date. *)
Theorem parse_candidate_fields
    (email_body subject : string) (event : ParsedEvent) (c : float) :
  RegexParser.parse email_body subject = (Some event, c) ->
  (exists t, title event = PyStr t /\ t <> "" /\ trimmed t) /\
  In (start_ts event) (RegexParser.scan_dates email_body) /\
  In (end_ts event) (RegexParser.scan_dates email_body) /\
  (end_ts event = start_ts event <->
   length (nodup string_dec (RegexParser.scan_dates email_body)) = 1) /\
  child_id event = None.
Proof.
  intros Hp.
  destruct (parse_candidate_shape _ _ _ _ Hp)
    as [d0 [rest [Hd [Ht [-> [-> [-> ->]]]]]]].
  pose proof (extract_dates_nodup email_body) as Hnd.
  pose proof (extract_dates_members email_body) as Hin.
  pose proof (extract_dates_count email_body) as Hlen.
  rewrite <- Hlen. rewrite Hd in Hnd, Hin |- *. clear Hlen Hd.
  split.
  { eexists. split; [reflexivity|].
    split; [apply truthy_nonempty; exact Ht | apply strip_trimmed]. }
  split; [apply Hin; left; reflexivity|].
  destruct rest as [|d1 rest'].
  - split; [apply Hin; left; reflexivity|].
    split; [split; reflexivity | reflexivity].
  - split; [apply Hin; right; left; reflexivity|].
    split; [|reflexivity]. split.
    + intros Heq. exfalso. apply NoDup_cons_iff in Hnd.
      destruct Hnd as [Hx _]. apply Hx. left. exact Heq.
    + intros Hone. discriminate Hone.
Qed.

End MoreExtractor.

(** ** Normalised dates *)
















Section ScannedDates.
Context `{Runtime}.


End ScannedDates.

(** ** The title *)

Lemma append_assoc3 (a b c : string) : (a ++ b) ++ c = a ++ b ++ c.
Proof. induction a as [|x a IH]; simpl; [reflexivity | rewrite IH; reflexivity]. Qed.

Lemma append_empty_r (a : string) : a ++ "" = a.
Proof. induction a as [|x a IH]; simpl; [reflexivity | rewrite IH; reflexivity]. Qed.

Lemma part_of_refl (s : string) : part_of s s.
Proof. exists "", "". simpl. rewrite append_empty_r. reflexivity. Qed.

Lemma part_of_trans (a b c : string) :
  part_of a b -> part_of b c -> part_of a c.
Proof.
  intros [x [y ->]] [u [v ->]]. exists (u ++ x), (y ++ v).
  rewrite !append_assoc3. reflexivity.
Qed.

Lemma lstrip_part (s : string) : part_of (lstrip s) s.
Proof.
  induction s as [|c s IH]; simpl; [apply part_of_refl|].
  destruct (is_space c); [|apply part_of_refl].
  destruct IH as [a [b Hs]]. exists (String c a), b. simpl.
  rewrite <- Hs. reflexivity.
Qed.

Lemma rstrip_part (s : string) : part_of (rstrip s) s.
Proof.
  assert (Hprefix : exists b, s = rstrip s ++ b).
  { induction s as [|c s IH]; simpl; [exists ""; reflexivity|].
    destruct IH as [b Hs]. destruct (rstrip s) as [|x r].
    - simpl in Hs. destruct (is_space c).
      + exists (String c s). reflexivity.
      + exists s. reflexivity.
    - exists b. simpl. simpl in Hs. rewrite <- Hs. reflexivity. }
  destruct Hprefix as [b Hs]. exists "", b. exact Hs.
Qed.

Lemma strip_part (s : string) : part_of (strip s) s.
Proof.
  unfold strip. eapply part_of_trans; [apply rstrip_part | apply lstrip_part].
Qed.

Lemma drop_part (n : nat) (s : string) : part_of (drop n s) s.
Proof.
  revert s. induction n as [|n IH]; intros s; simpl; [apply part_of_refl|].
  destruct s as [|c s]; [apply part_of_refl|].
  destruct (IH s) as [a [b Hs]]. exists (String c a), b. simpl.
  rewrite <- Hs. reflexivity.
Qed.

Lemma clean_step_part (subject : string) (st : string * string)
    (prefix : string) :
  part_of (fst st) subject ->
  part_of (fst (RegexParser.clean_step st prefix)) subject.
Proof.
  destruct st as [current cleaned]. unfold RegexParser.clean_step.
  destruct (startswith cleaned prefix); [|intros Hst; exact Hst].
  simpl. intros Hst.
  eapply part_of_trans; [apply strip_part|].
  eapply part_of_trans; [apply drop_part | exact Hst].
Qed.

Lemma clean_step_unprefixed (subject : string) (ps : list string) :
  (forall p, In p ps -> startswith (lower subject) p = false) ->
  fold_left RegexParser.clean_step ps (subject, lower subject)
  = (subject, lower subject).
Proof.
  induction ps as [|p ps IH]; intros Hps; simpl; [reflexivity|].
  rewrite (Hps p (or_introl eq_refl)). apply IH.
  intros q Hq. apply Hps. right. exact Hq.
Qed.

(** X28. The title [_clean_subject] returns is a contiguous part of the
    subject with no white space at either end; a subject that starts
    with none of the prefixes, whatever its case, is only stripped. *)
Theorem cleaned_subject_is_a_trimmed_part_of_the_subject (subject : string) :
  trimmed (RegexParser._clean_subject subject) /\
  part_of (RegexParser._clean_subject subject) subject /\
  ((forall p, In p RegexParser.prefixes ->
      startswith (lower subject) p = false) ->
   RegexParser._clean_subject subject = strip subject).
Proof.
  unfold RegexParser._clean_subject. split; [apply strip_trimmed|]. split.
  - eapply part_of_trans; [apply strip_part|].
    assert (Hfold : forall ps st,
               part_of (fst st) subject ->
               part_of (fst (fold_left RegexParser.clean_step ps st)) subject).
    { induction ps as [|p ps IH]; intros st Hst; simpl; [exact Hst|].
      apply IH. apply clean_step_part. exact Hst. }
    apply Hfold. apply part_of_refl.
  - intros Hnone. rewrite (clean_step_unprefixed subject _ Hnone).
    reflexivity.
Qed.

(** ** Preparation items *)

Lemma startswith_append (t p b : string) :
  startswith t p = true -> startswith (t ++ b) p = true.
Proof.
  revert t. induction p as [|a p IH]; intros t;
    [intros _; destruct (t ++ b); reflexivity|].
  destruct t as [|x t]; simpl; [discriminate|].
  intros Hs. apply andb_prop in Hs. destruct Hs as [Ha Hp].
  rewrite Ha, (IH t Hp). reflexivity.
Qed.

Lemma delimiter_width_prefix (c : ascii) (t b : string) :
  RegexParser.delimiter_width (String c (t ++ b)) = 0 ->
  RegexParser.delimiter_width (String c t) = 0.
Proof.
  unfold RegexParser.delimiter_width.
  destruct (RegexParser.split_delims c); [discriminate|].
  destruct (startswith (String c t) RegexParser.bullet) eqn:Hb;
    [|reflexivity].
  apply (startswith_append _ _ b) in Hb.
  change (String c t ++ b) with (String c (t ++ b)) in Hb.
  rewrite Hb. discriminate.
Qed.

Lemma free_prefix (t b : string) :
  free_of_delimiters (t ++ b) = true -> free_of_delimiters t = true.
Proof.
  induction t as [|c t IH]; [reflexivity|].
  change (String c t ++ b) with (String c (t ++ b)).
  cbn [free_of_delimiters]. intros Hf. apply andb_prop in Hf.
  destruct Hf as [Hw Ht]. apply Nat.eqb_eq in Hw.
  rewrite (delimiter_width_prefix c t b Hw), (IH Ht). reflexivity.
Qed.

Lemma free_suffix (a u : string) :
  free_of_delimiters (a ++ u) = true -> free_of_delimiters u = true.
Proof.
  induction a as [|c a IH]; [intros Hf; exact Hf|].
  change (String c a ++ u) with (String c (a ++ u)).
  cbn [free_of_delimiters]. intros Hf. apply andb_prop in Hf.
  apply IH. exact (proj2 Hf).
Qed.

Lemma free_part (t s : string) :
  part_of t s -> free_of_delimiters s = true -> free_of_delimiters t = true.
Proof.
  intros [a [b ->]] Hf. apply free_suffix in Hf.
  exact (free_prefix _ _ Hf).
Qed.

Lemma split_head_prefix (s : string) :
  exists piece others rest,
    Re.split_from RegexParser.delimiter_width 0 false s = piece :: others /\
    s = piece ++ rest.
Proof.
  induction s as [|c s IH].
  - exists "", [], "". split; reflexivity.
  - cbn [Re.split_from].
    destruct (RegexParser.delimiter_width (String c s)) as [|n].
    + destruct IH as [piece [others [rest [Hs Hr]]]]. rewrite Hs.
      exists (String c piece), others, rest. split; [reflexivity|].
      simpl. rewrite <- Hr. reflexivity.
    + eexists "", _, (String c s). split; reflexivity.
Qed.

Lemma split_pieces_free (s : string) :
  forall skip in_run piece,
    In piece (Re.split_from RegexParser.delimiter_width skip in_run s) ->
    free_of_delimiters piece = true.
Proof.
  induction s as [|c s IH]; intros skip in_run piece.
  - intros [<-|[]]. reflexivity.
  - cbn [Re.split_from]. destruct skip as [|n]; [|apply IH].
    destruct (RegexParser.delimiter_width (String c s)) as [|n] eqn:Hw.
    + destruct (split_head_prefix s) as [first [others [rest [Hs Hr]]]].
      rewrite Hs. intros [<-|Hin].
      * cbn [free_of_delimiters].
        rewrite (delimiter_width_prefix c first rest)
          by (rewrite <- Hr; exact Hw).
        apply (IH 0 false). rewrite Hs. left. reflexivity.
      * apply (IH 0 false). rewrite Hs. right. exact Hin.
    + destruct in_run; [apply IH|].
      intros [<-|Hin]; [reflexivity | exact (IH n true piece Hin)].
Qed.

Lemma free_no_bullet (s : string) :
  free_of_delimiters s = true -> contains s RegexParser.bullet = false.
Proof.
  induction s as [|c s IH]; [reflexivity|].
  cbn [free_of_delimiters contains]. intros Hf. apply andb_prop in Hf.
  destruct Hf as [Hw Hs]. apply Nat.eqb_eq in Hw.
  unfold RegexParser.delimiter_width in Hw.
  destruct (RegexParser.split_delims c); [discriminate Hw|].
  destruct (startswith (String c s) RegexParser.bullet);
    [discriminate Hw|].
  exact (IH Hs).
Qed.

Lemma free_no_single (s : string) :
  free_of_delimiters s = true ->
  all_chars (fun c => negb (RegexParser.split_delims c)) s = true.
Proof.
  induction s as [|c s IH]; [reflexivity|].
  cbn [free_of_delimiters all_chars]. intros Hf. apply andb_prop in Hf.
  destruct Hf as [Hw Hs]. apply Nat.eqb_eq in Hw.
  unfold RegexParser.delimiter_width in Hw.
  destruct (RegexParser.split_delims c); [discriminate Hw|].
  exact (IH Hs).
Qed.

(** X4. [_extract_prep_items] never returns an empty list, and every item
    it returns is non-empty, has no white space at either end and contains
    no member of the split class: no comma, semicolon or line break, and
    no bullet. *)
Theorem prep_items_are_clean (text : string) (items : list string) :
  RegexParser._extract_prep_items text = Some items ->
  items <> [] /\
  forall item, In item items ->
    item <> "" /\ trimmed item /\
    all_chars (fun c => negb (RegexParser.split_delims c)) item = true /\
    contains item RegexParser.bullet = false.
Proof.
  unfold RegexParser._extract_prep_items.
  destruct (flat_map _ RegexParser.PREP_PATTERNS) as [|i0 more] eqn:Hf;
    [discriminate|].
  intros Hi. injection Hi as <-. split; [discriminate|].
  intros item Hin. rewrite <- Hf in Hin. apply in_flat_map in Hin.
  destruct Hin as [pattern [_ Hitem]]. unfold RegexParser.items_of in Hitem.
  destruct (Re.search true pattern text) as [g|]; [|destruct Hitem].
  apply in_map_iff in Hitem. destruct Hitem as [piece [<- Hpiece]].
  apply filter_In in Hpiece. destruct Hpiece as [Hpiece Htruthy].
  split; [apply truthy_nonempty; exact Htruthy|].
  split; [apply strip_trimmed|].
  assert (Hfree : free_of_delimiters (strip piece) = true).
  { apply (free_part _ piece (strip_part piece)).
    exact (split_pieces_free _ _ _ _ Hpiece). }
  split; [apply free_no_single | apply free_no_bullet]; exact Hfree.
Qed.

(* ===================================================================== *)
(** * Further properties of the extraction coordinator *)
(* ===================================================================== *)

Lemma same_on_refl {T} (f : world -> T) (w : world) : same_on f w w.
Proof. reflexivity. Qed.

Lemma same_on_trans {T} (f : world -> T) (a b c : world) :
  same_on f a b -> same_on f b c -> same_on f a c.
Proof. unfold same_on. intros Hab Hbc. rewrite Hbc. exact Hab. Qed.

Lemma keeps_refl (P : store -> Prop) (w : world) : keeps P w w.
Proof. intros HP. exact HP. Qed.

Lemma keeps_trans (P : store -> Prop) (a b c : world) :
  keeps P a b -> keeps P b c -> keeps P a c.
Proof. unfold keeps. auto. Qed.

(** The store requests of the services leave everything but the tables and
    the fault script alone. *)
Lemma execute_same_on {T A} (f : world -> T) (q : store -> A * store) :
  (forall w d, f (set_db d w) = f w) ->
  (forall w fl, f (set_faults fl w) = f w) ->
  respects (same_on f) (execute q).
Proof.
  intros Hdb Hfl w. unfold execute, same_on.
  destruct (faults w) as [|[msg|] rest]; try destruct (q (db w)); simpl;
    rewrite ?Hdb, ?Hfl; reflexivity.
Qed.

Lemma execute_keeps {A} (P : store -> Prop) (q : store -> A * store) :
  (forall d, P d -> P (snd (q d))) -> respects (keeps P) (execute q).
Proof.
  intros Hq w HP. unfold execute.
  destruct (faults w) as [|[msg|] rest]; simpl; try exact HP;
    specialize (Hq (db w) HP); destruct (q (db w)); exact Hq.
Qed.

Lemma execute_read_same_tables {A} (q : store -> A) :
  respects same_tables (execute (fun d => (q d, d))).
Proof.
  intros w. unfold execute, same_tables.
  destruct (faults w) as [|[msg|] rest]; reflexivity.
Qed.

Lemma same_tables_trans (a b c : world) :
  same_tables a b -> same_tables b c -> same_tables a c.
Proof. unfold same_tables. intros Hab Hbc. rewrite Hbc. exact Hab. Qed.

Section MoreCoordinator.
Context `{Runtime}.

Lemma mark_email_processed_effect (email_id : string) (s : bool) (w : world) :
  let w' := snd (EventParser._mark_email_processed email_id s w) in
  events (db w') = events (db w) /\ asked w' = asked w /\
  generations w' = generations w /\ slept w' = slept w /\
  (hd None (faults w) = None ->
   inbound_emails (db w')
     = map (EventParser.mark_row email_id (now_iso w)) (inbound_emails (db w))).
Proof.
  unfold EventParser._mark_email_processed, bind, modify, gets, try_except,
    execute, ret.
  simpl. destruct (faults w) as [|[msg|] rest]; simpl; repeat split;
    try reflexivity; intros Hf; discriminate Hf.
Qed.

(** X7. A message that already has an event is not parsed again: when the
    duplicate check is answered, [_process_email] returns normally after
    marking the message processed once, without inserting an event,
    calling the generator or waiting. *)
Theorem existing_event_is_not_parsed_again (email : EmailRecord) (w : world) :
  hd None (faults w) = None ->
  filter (fun e => String.eqb (ev_source_msg_id e) (id email))
         (events (db w)) <> [] ->
  exists w',
    EventParser._process_email email w = (Ok tt, w') /\
    events (db w') = events (db w) /\
    marked w' = (marked w ++ [(id email, true)])%list /\
    asked w' = asked w /\ generations w' = generations w /\
    slept w' = slept w.
Proof.
  intros Hf Hex.
  assert (Hfirst : exists w0,
             execute (fun d =>
               (filter (fun e => String.eqb (ev_source_msg_id e) (id email))
                       (events d), d)) w
             = (Ok (filter (fun e => String.eqb (ev_source_msg_id e) (id email))
                           (events (db w))), w0) /\
             events (db w0) = events (db w) /\ marked w0 = marked w /\
             asked w0 = asked w /\ generations w0 = generations w /\
             slept w0 = slept w).
  { unfold execute. destruct (faults w) as [|[msg|] rest];
      [| discriminate Hf |]; eexists; split; try reflexivity;
      repeat split; reflexivity. }
  destruct Hfirst as [w0 [Hrun [He [Hm [Ha [Hg Hs]]]]]].
  exists (snd (EventParser._mark_email_processed (id email) true w0)).
  destruct (mark_email_processed_marks (id email) true w0) as [Hok Hmk].
  destruct (mark_email_processed_effect (id email) true w0)
    as [He' [Ha' [Hg' [Hs' _]]]].
  split.
  - unfold EventParser._process_email. simpl seq.
    cbn [EventParser.attempts]. apply try_ok.
    unfold EventParser.attempt_once. rewrite (bind_ok _ _ _ _ _ Hrun).
    destruct (filter _ (events (db w))) as [|e0 es]; [contradiction|].
    cbn [truthy_list]. apply pair_of_parts. exact Hok.
  - rewrite He', Hmk, Ha', Hg', Hs', He, Hm, Ha, Hg, Hs.
    repeat split; reflexivity.
Qed.

Lemma mark_email_processed_same_asked (email_id : string) (s : bool) :
  respects same_asked (EventParser._mark_email_processed email_id s).
Proof.
  intros w.
  destruct (mark_email_processed_effect email_id s w) as [_ [Ha [Hg _]]].
  split; assumption.
Qed.

Lemma same_asked_refl (w : world) : same_asked w w.
Proof. split; reflexivity. Qed.

Lemma same_asked_trans (a b c : world) :
  same_asked a b -> same_asked b c -> same_asked a c.
Proof.
  unfold same_asked. intros [Ha Hg] [Ha' Hg']. rewrite Ha', Hg'.
  split; assumption.
Qed.

Lemma execute_same_asked {A} (q : store -> A * store) :
  respects same_asked (execute q).
Proof.
  intros w. unfold execute, same_asked.
  destruct (faults w) as [|[msg|] rest]; try destruct (q (db w)); simpl;
    split; reflexivity.
Qed.

(** [silent] splits a goal [respects same_asked m] along the structure
    of [m]. *)
Ltac silent :=
  repeat first
    [ apply execute_same_asked
    | apply mark_email_processed_same_asked
    | apply respects_ret; [exact same_asked_refl]
    | apply respects_raise; [exact same_asked_refl]
    | apply respects_gets; [exact same_asked_refl]
    | apply respects_bind; [exact same_asked_trans | | intro ]
    | apply respects_try; [exact same_asked_trans | | intro ] ].

(** X8. When the confidence returned by the regex parse is not below 0.7,
    [_process_email] never calls the generator, on any attempt and
    whatever the store does. *)
Theorem confident_parse_skips_the_generator (email : EmailRecord) (w : world) :
  (snd (RegexParser.parse (raw_body email) (subject email)) <? 0.7)%float
    = false ->
  asked (snd (EventParser._process_email email w)) = asked w /\
  generations (snd (EventParser._process_email email w)) = generations w.
Proof.
  intros Hhigh.
  assert (Honce : respects same_asked (EventParser.attempt_once email)).
  { unfold EventParser.attempt_once.
    apply respects_bind; [exact same_asked_trans | apply execute_same_asked |].
    intros existing. destruct (truthy_list existing); [silent|].
    destruct (RegexParser.parse (raw_body email) (subject email))
      as [regex_event c].
    simpl in Hhigh. rewrite Hhigh.
    apply respects_bind; [exact same_asked_trans | silent |].
    intros [pe|]; unfold EventParser._find_child_id,
      EventParser._insert_event; silent. }
  assert (Hall : forall todo delay,
             respects same_asked (EventParser.attempts todo delay email)).
  { induction todo as [|attempt rest IH]; intros delay;
      cbn [EventParser.attempts]; [silent|].
    apply respects_try; [exact same_asked_trans | exact Honce |].
    intros e. destruct (attempt <? EventParser.max_retries - 1).
    - apply respects_bind; [exact same_asked_trans | | intros _; apply IH].
      intros w0. split; reflexivity.
    - silent. }
  exact (Hall _ _ w).
Qed.

End MoreCoordinator.

Section CoordinatorRuns.
Context `{Runtime}.

(** One attempt with the store reachable: it returns, and it inserts one
    event for the message exactly when there was none. *)
Lemma attempt_once_reachable (email : EmailRecord) (w : world) :
  faults w = [] ->
  exists w',
    EventParser.attempt_once email w = (Ok tt, w') /\ faults w' = [] /\
    (filter (fun e => String.eqb (ev_source_msg_id e) (id email))
            (events (db w)) <> [] ->
     events (db w') = events (db w)) /\
    (filter (fun e => String.eqb (ev_source_msg_id e) (id email))
            (events (db w)) = [] ->
     exists row,
       events (db w') = (events (db w) ++ [row])%list /\
       ev_source_msg_id row = id email /\
       (ev_status row = "upcoming" \/ ev_status row = "needs_review")).
Proof.
  intros Hf. destruct w as [d f gs ps up ni un mk sl ak]. simpl in Hf.
  subst f. unfold EventParser.attempt_once.
  unfold bind at 1. unfold execute at 1. cbn [faults db set_db].
  destruct (filter _ (events d)) as [|e0 es] eqn:Hex; cbn [truthy_list].
  - destruct (RegexParser.parse (raw_body email) (subject email))
      as [regex_event c].
    assert (Hparsed : exists parsed_event gs' ak',
               (if (c <? 0.7)%float
                then EventParser._parse_with_ollama email
                else ret regex_event)
                 (mk_world d [] gs ps up ni un mk sl ak)
               = (Ok parsed_event, mk_world d [] gs' ps up ni un mk sl ak')).
    { destruct (c <? 0.7)%float; [|do 3 eexists; reflexivity].
      unfold EventParser._parse_with_ollama, bind, generate.
      destruct gs as [|[e|[[| | | | |l|kv]|]] gs']; do 3 eexists;
        reflexivity. }
    destruct Hparsed as [parsed_event [gs' [ak' Hparsed]]].
    rewrite (bind_ok _ _ _ _ _ Hparsed).
    destruct parsed_event as [pe|]; eexists;
      (split; [reflexivity|]); (split; [reflexivity|]);
      (split; [intros Hne; contradiction|]); intros _; eexists;
      (split; [reflexivity|]); (split; [reflexivity|]);
      [left | right]; reflexivity.
  - eexists. split; [reflexivity|]. split; [reflexivity|].
    split; [intros _; reflexivity | intros Hnil; discriminate Hnil].
Qed.

Lemma process_email_reachable (email : EmailRecord) (w : world) :
  faults w = [] ->
  EventParser._process_email email w = EventParser.attempt_once email w.
Proof.
  intros Hf. destruct (attempt_once_reachable email w Hf) as [w' [Hrun _]].
  unfold EventParser._process_email. simpl seq. cbn [EventParser.attempts].
  rewrite Hrun. apply try_ok. exact Hrun.
Qed.

(** X9. With the store reachable, processing a message leaves exactly one
    event for it when there was none (with status upcoming or
    needs_review), and processing it a second time changes no event. *)
Theorem processing_twice_yields_one_event (email : EmailRecord) (w : world) :
  faults w = [] ->
  let for_message :=
    filter (fun e => String.eqb (ev_source_msg_id e) (id email)) in
  let w1 := snd (EventParser._process_email email w) in
  let w2 := snd (EventParser._process_email email w1) in
  fst (EventParser._process_email email w) = Ok tt /\
  fst (EventParser._process_email email w1) = Ok tt /\
  events (db w2) = events (db w1) /\
  for_message (events (db w1)) <> [] /\
  (for_message (events (db w)) = [] ->
   exists row,
     for_message (events (db w1)) = [row] /\
     (ev_status row = "upcoming" \/ ev_status row = "needs_review")).
Proof.
  intros Hf for_message w1 w2. subst w2 w1.
  rewrite (process_email_reachable email w Hf).
  destruct (attempt_once_reachable email w Hf)
    as [w1 [Hrun [Hf1 [Hsame Hnew]]]].
  rewrite Hrun. cbn [fst snd].
  rewrite (process_email_reachable email w1 Hf1).
  destruct (attempt_once_reachable email w1 Hf1)
    as [w2 [Hrun2 [_ [Hsame2 _]]]].
  rewrite Hrun2. cbn [fst snd].
  subst for_message. cbv beta.
  assert (Hsome : filter (fun e => String.eqb (ev_source_msg_id e) (id email))
                         (events (db w1)) <> []).
  { destruct (filter (fun e => String.eqb (ev_source_msg_id e) (id email))
                     (events (db w))) as [|e0 es] eqn:Hex.
    - destruct (Hnew eq_refl) as [row [-> [Hid _]]].
      rewrite filter_app. simpl.
      rewrite Hid, String.eqb_refl. intros Heq.
      apply app_eq_nil in Heq. destruct Heq as [_ Heq]. discriminate Heq.
    - rewrite Hsame; [|discriminate]. rewrite Hex. discriminate. }
  split; [reflexivity|]. split; [reflexivity|].
  split; [exact (Hsame2 Hsome)|]. split; [exact Hsome|].
  intros Hnone. destruct (Hnew Hnone) as [row [-> [Hid Hst]]].
  exists row. split; [|exact Hst].
  rewrite filter_app, Hnone. simpl.
  rewrite Hid, String.eqb_refl. reflexivity.
Qed.

Lemma attempts_cons (attempt : nat) (rest : list nat) (delay : Z)
    (email : EmailRecord) (w : world) :
  EventParser.attempts (attempt :: rest) delay email w
  = match EventParser.attempt_once email w with
    | (Ok a, w1) => (Ok a, w1)
    | (Raise e, w1) =>
        if attempt <? EventParser.max_retries - 1 then
          EventParser.attempts rest (delay * 2)%Z email
            (set_slept (slept w1 ++ [delay])%list w1)
        else
          (Raise e, snd (EventParser._mark_email_processed (id email) false w1))
    end.
Proof.
  cbn [EventParser.attempts]. unfold try_except.
  destruct (EventParser.attempt_once email w) as [[a|e] w1]; [reflexivity|].
  destruct (attempt <? EventParser.max_retries - 1).
  - reflexivity.
  - unfold bind.
    destruct (mark_email_processed_marks (id email) false w1) as [Hok _].
    destruct (EventParser._mark_email_processed (id email) false w1)
      as [r w2]; simpl in Hok; subst r. reflexivity.
Qed.

Lemma parse_with_ollama_same_on {T} (f : world -> T) (email : EmailRecord) :
  (forall w a, f (set_asked a w) = f w) ->
  (forall w g, f (set_generations g w) = f w) ->
  respects (same_on f) (EventParser._parse_with_ollama email).
Proof.
  intros Ha Hg w. unfold EventParser._parse_with_ollama, bind, generate, same_on.
  destruct (generations w) as [|[e|[[| | | | |l|kv]|]] rest]; simpl;
    rewrite ?Hg, ?Ha; reflexivity.
Qed.

Lemma attempt_once_same_slept (email : EmailRecord) :
  respects (same_on slept) (EventParser.attempt_once email).
Proof.
  assert (Hmark : forall s,
             respects (same_on slept)
               (EventParser._mark_email_processed (id email) s)).
  { intros s w. apply (mark_email_processed_effect (id email) s w). }
  assert (Hexec : forall A (q : store -> A * store),
             respects (same_on slept) (execute q)).
  { intros A q. apply execute_same_on; reflexivity. }
  assert (Hinsert : forall pe st,
             respects (same_on slept) (EventParser._insert_event email pe st)).
  { intros pe st. unfold EventParser._insert_event.
    apply respects_bind; [apply same_on_trans | |intros now].
    - apply respects_gets. apply same_on_refl.
    - apply respects_try; [apply same_on_trans | apply Hexec |].
      intros e. apply respects_raise. apply same_on_refl. }
  unfold EventParser.attempt_once.
  apply respects_bind; [apply same_on_trans | apply Hexec |].
  intros existing. destruct (truthy_list existing); [apply Hmark|].
  destruct (RegexParser.parse (raw_body email) (subject email))
    as [regex_event c].
  apply respects_bind; [apply same_on_trans | |].
  - destruct (c <? 0.7)%float.
    + apply parse_with_ollama_same_on; reflexivity.
    + apply respects_ret. apply same_on_refl.
  - intros [pe|].
    + apply respects_bind; [apply same_on_trans | |intros child].
      * unfold EventParser._find_child_id.
        apply respects_try; [apply same_on_trans | |].
        -- apply respects_bind; [apply same_on_trans | apply Hexec |].
           intros rows. apply respects_ret. apply same_on_refl.
        -- intros e. apply respects_ret. apply same_on_refl.
      * apply respects_bind; [apply same_on_trans | apply Hinsert |].
        intros _. apply Hmark.
    + apply respects_bind; [apply same_on_trans | apply Hinsert |].
      intros _. apply Hmark.
Qed.

(** X10. [_process_email] waits only between attempts, first 1 second and
    then 2: the delays it adds are none, [1] or [1; 2], whatever the store
    and the generator answer, and when it raises it has waited [1; 2]. *)
Theorem retries_wait_one_then_two_seconds (email : EmailRecord) (w : world) :
  let r := EventParser._process_email email w in
  (slept (snd r) = slept w \/
   slept (snd r) = (slept w ++ [1%Z])%list \/
   slept (snd r) = (slept w ++ [1%Z; 2%Z])%list) /\
  (forall e, fst r = Raise e -> slept (snd r) = (slept w ++ [1%Z; 2%Z])%list).
Proof.
  unfold EventParser._process_email. simpl seq.
  rewrite attempts_cons.
  change (0 <? EventParser.max_retries - 1) with true. cbv iota.
  pose proof (attempt_once_same_slept email w) as S1. unfold same_on in S1.
  destruct (EventParser.attempt_once email w) as [[a1|e1] w1]; simpl in S1.
  { cbn [fst snd]. split; [left; exact S1 | intros e He; discriminate He]. }
  rewrite attempts_cons.
  change (1 <? EventParser.max_retries - 1) with true. cbv iota.
  set (w1' := set_slept (slept w1 ++ [1%Z])%list w1).
  assert (S1' : slept w1' = (slept w ++ [1%Z])%list).
  { subst w1'. simpl. rewrite S1. reflexivity. }
  clearbody w1'.
  pose proof (attempt_once_same_slept email w1') as S2. unfold same_on in S2.
  destruct (EventParser.attempt_once email w1') as [[a2|e2] w2]; simpl in S2.
  { cbn [fst snd]. rewrite S2, S1'.
    split; [right; left; reflexivity | intros e He; discriminate He]. }
  rewrite attempts_cons.
  change (2 <? EventParser.max_retries - 1) with false. cbv iota.
  set (w2' := set_slept (slept w2 ++ [(1 * 2)%Z])%list w2).
  assert (S2' : slept w2' = (slept w ++ [1%Z; 2%Z])%list).
  { subst w2'. simpl. rewrite S2, S1', <- app_assoc. reflexivity. }
  clearbody w2'.
  pose proof (attempt_once_same_slept email w2') as S3. unfold same_on in S3.
  destruct (EventParser.attempt_once email w2') as [[a3|e3] w3]; simpl in S3.
  { cbn [fst snd]. rewrite S3, S2'.
    split; [right; right; reflexivity | intros e He; discriminate He]. }
  cbn [fst snd].
  destruct (mark_email_processed_effect (id email) false w3)
    as [_ [_ [_ [Hs _]]]].
  rewrite Hs, S3, S2'.
  split; [right; right; reflexivity | intros e _; reflexivity].
Qed.

Lemma mark_row_flagged (email_id other now : string) (t : list email_row) :
  (forall r, In r t -> id (em_record r) = email_id ->
             processed (em_record r) = true) ->
  forall r, In r (map (EventParser.mark_row other now) t) ->
    id (em_record r) = email_id -> processed (em_record r) = true.
Proof.
  intros Ht r Hin Hid. apply in_map_iff in Hin.
  destruct Hin as [r0 [Hr Hin0]]. subst r. unfold EventParser.mark_row in *.
  destruct (String.eqb (id (em_record r0)) other); [reflexivity|].
  exact (Ht r0 Hin0 Hid).
Qed.

Lemma mark_email_processed_keeps_flag (email_id other : string) (s : bool) :
  respects (keeps (flagged email_id))
    (EventParser._mark_email_processed other s).
Proof.
  unfold EventParser._mark_email_processed.
  apply respects_bind; [apply keeps_trans | |intros _].
  { intros w HP. exact HP. }
  apply respects_bind; [apply keeps_trans | |intros now].
  { apply respects_gets. apply keeps_refl. }
  apply respects_try; [apply keeps_trans | |].
  - apply execute_keeps. intros d Hd. unfold flagged in *. simpl.
    apply mark_row_flagged. exact Hd.
  - intros e. apply respects_ret. apply keeps_refl.
Qed.

Lemma same_tables_keeps (P : store -> Prop) {A} (m : M A) :
  respects same_tables m -> respects (keeps P) m.
Proof. intros Hm w HP. rewrite (Hm w). exact HP. Qed.

Lemma attempt_once_keeps_flag (email_id : string) (email : EmailRecord) :
  respects (keeps (flagged email_id)) (EventParser.attempt_once email).
Proof.
  assert (Hinsert : forall pe st,
             respects (keeps (flagged email_id))
               (EventParser._insert_event email pe st)).
  { intros pe st. unfold EventParser._insert_event.
    apply respects_bind; [apply keeps_trans | |intros now].
    - apply respects_gets. apply keeps_refl.
    - apply respects_try; [apply keeps_trans | |].
      + apply execute_keeps. intros d Hd. exact Hd.
      + intros e. apply respects_raise. apply keeps_refl. }
  unfold EventParser.attempt_once.
  apply respects_bind; [apply keeps_trans | |].
  { apply execute_keeps. intros d Hd. exact Hd. }
  intros existing. destruct (truthy_list existing);
    [apply mark_email_processed_keeps_flag|].
  destruct (RegexParser.parse (raw_body email) (subject email))
    as [regex_event c].
  apply respects_bind; [apply keeps_trans | |].
  - destruct (c <? 0.7)%float.
    + apply same_tables_keeps. apply parse_with_ollama_same_on; reflexivity.
    + apply respects_ret. apply keeps_refl.
  - intros [pe|].
    + apply respects_bind; [apply keeps_trans | |intros child].
      * unfold EventParser._find_child_id.
        apply respects_try; [apply keeps_trans | |].
        -- apply respects_bind; [apply keeps_trans | |].
           ++ apply execute_keeps. intros d Hd. exact Hd.
           ++ intros rows. apply respects_ret. apply keeps_refl.
        -- intros e. apply respects_ret. apply keeps_refl.
      * apply respects_bind; [apply keeps_trans | apply Hinsert |].
        intros _. apply mark_email_processed_keeps_flag.
    + apply respects_bind; [apply keeps_trans | apply Hinsert |].
      intros _. apply mark_email_processed_keeps_flag.
Qed.

Lemma sleep_keeps (P : store -> Prop) (delay : Z) :
  respects (keeps P) (sleep delay).
Proof. intros w HP. exact HP. Qed.

Lemma parse_queue_keeps_flag (email_id : string) (turns : nat) :
  respects (keeps (flagged email_id)) (EventParser.parse_queue turns).
Proof.
  assert (Hall : forall email todo delay,
             respects (keeps (flagged email_id))
               (EventParser.attempts todo delay email)).
  { intros email. induction todo as [|attempt rest IH]; intros delay;
      cbn [EventParser.attempts]; [apply respects_ret; apply keeps_refl|].
    apply respects_try;
      [apply keeps_trans | apply attempt_once_keeps_flag |].
    intros e. destruct (attempt <? EventParser.max_retries - 1).
    - apply respects_bind;
        [apply keeps_trans | apply sleep_keeps | intros _; apply IH].
    - apply respects_bind;
        [apply keeps_trans | apply mark_email_processed_keeps_flag |].
      intros _. apply respects_raise. apply keeps_refl. }
  assert (Hbatch : forall emails,
             respects (keeps (flagged email_id))
               (EventParser.process_batch emails)).
  { induction emails as [|email rest IH]; cbn [EventParser.process_batch];
      [apply respects_ret; apply keeps_refl|].
    apply respects_bind; [apply keeps_trans | | intros _; exact IH].
    apply respects_try; [apply keeps_trans | apply Hall |].
    intros e. apply mark_email_processed_keeps_flag. }
  assert (Hturns : forall n,
             respects (keeps (flagged email_id))
               (EventParser.parse_queue_turns n)).
  { induction n as [|n IH]; cbn [EventParser.parse_queue_turns];
      [apply respects_ret; apply keeps_refl|].
    apply respects_bind; [apply keeps_trans | | intros _; exact IH].
    unfold EventParser.parse_queue_cycle.
    apply respects_bind; [apply keeps_trans | |].
    - unfold EventParser._get_unprocessed_emails.
      apply respects_try; [apply keeps_trans | |].
      + apply execute_keeps. intros d Hd. exact Hd.
      + intros e. apply respects_ret. apply keeps_refl.
    - intros emails. destruct (truthy_list emails).
      + apply respects_bind;
          [apply keeps_trans | apply Hbatch | intros _; apply sleep_keeps].
      + apply sleep_keeps. }
  unfold EventParser.parse_queue.
  apply respects_bind; [apply keeps_trans | |].
  { apply respects_gets. apply keeps_refl. }
  intros healthy. destruct (negb healthy).
  - apply respects_ret. apply keeps_refl.
  - apply respects_try; [apply keeps_trans | apply Hturns |].
    intros e. apply respects_ret. apply keeps_refl.
Qed.

(** X11. Once the update of [_mark_email_processed] has reached the store,
    the message is never fetched again: whatever [parse_queue] does
    afterwards, for any number of turns and any failures of the store,
    [_get_unprocessed_emails] does not return it. *)
Theorem marked_message_is_not_fetched_again
    (email_id : string) (success : bool) (turns : nat) (w : world) :
  hd None (faults w) = None ->
  let w1 := snd (EventParser._mark_email_processed email_id success w) in
  let w2 := snd (EventParser.parse_queue turns w1) in
  forall found,
    fst (EventParser._get_unprocessed_emails w2) = Ok found ->
    forall email, In email found -> id email <> email_id.
Proof.
  intros Hf w1 w2 found Hfound email Hin Hid.
  assert (H1 : flagged email_id (db w1)).
  { subst w1.
    destruct (mark_email_processed_effect email_id success w)
      as [_ [_ [_ [_ Hrows]]]].
    intros r Hr Hrid. rewrite (Hrows Hf) in Hr.
    apply in_map_iff in Hr. destruct Hr as [r0 [Hr0 _]]. subst r.
    unfold EventParser.mark_row in *.
    destruct (String.eqb (id (em_record r0)) email_id) eqn:Heq;
      [reflexivity|].
    apply String.eqb_neq in Heq. contradiction. }
  assert (H2 : flagged email_id (db w2)).
  { subst w2. exact (parse_queue_keeps_flag email_id turns w1 H1). }
  clearbody w2. clear H1.
  unfold EventParser._get_unprocessed_emails, try_except, execute, ret
    in Hfound.
  assert (Hrows : In email
            (map em_record
               (filter (fun r => negb (processed (em_record r)))
                       (inbound_emails (db w2))))).
  { destruct (faults w2) as [|[msg|] rest]; simpl in Hfound;
      inversion Hfound; subst found; [exact Hin | destruct Hin | exact Hin]. }
  apply in_map_iff in Hrows. destruct Hrows as [r [Hr Hrin]]. subst email.
  apply filter_In in Hrin. destruct Hrin as [Hrin Hneg].
  rewrite (H2 r Hrin Hid) in Hneg. discriminate Hneg.
Qed.

(** X12. [_find_child_id] never raises and changes no table, and an
    identifier it returns is that of a child of the user whose lower-cased
    name occurs in the lower-cased subject and body. *)
Theorem find_child_id_names_a_child_of_the_user
    (user subject body : string) (w : world) :
  let r := EventParser._find_child_id user subject body w in
  db (snd r) = db w /\
  exists found,
    fst r = Ok found /\
    forall child, found = Some child ->
      exists c,
        In c (children (db w)) /\ ch_id c = child /\ ch_user_id c = user /\
        contains (lower (subject ++ " " ++ body)) (lower (ch_name c)) = true.
Proof.
  unfold EventParser._find_child_id, try_except, bind, execute, ret.
  destruct (faults w) as [|[msg|] rest]; simpl;
    (split; [reflexivity|]); eexists; (split; [reflexivity|]);
    intros child Hc; try discriminate Hc;
    destruct (find _ _) as [c|] eqn:Hfind; try discriminate Hc;
    simpl in Hc; inversion Hc; subst child;
    apply find_some in Hfind; destruct Hfind as [Hin Hname];
    apply filter_In in Hin; destruct Hin as [Hin Huser];
    apply String.eqb_eq in Huser;
    exists c; repeat split; assumption.
Qed.

(** X13. [_parse_with_ollama] never raises, puts the message to the
    generator exactly once and changes no table; a candidate comes back
    only from a reply that decodes to a JSON object, with confidence 0.8
    and no child. *)
Theorem parse_with_ollama_answers_only_json_objects
    (email : EmailRecord) (w : world) :
  let r := EventParser._parse_with_ollama email w in
  db (snd r) = db w /\
  asked (snd r) = (asked w ++ [EventParser.email_content email])%list /\
  exists answer,
    fst r = Ok answer /\
    forall pe, answer = Some pe ->
      confidence pe = 0.8%float /\ child_id pe = None /\
      exists data rest,
        generations w = GenText (Some (PyDict data)) :: rest /\
        pe = EventParser.candidate_of_reply data.
Proof.
  unfold EventParser._parse_with_ollama, bind, generate, ret.
  destruct (generations w) as [|[e|[[| | | | |l|kv]|]] rest]; simpl;
    (split; [reflexivity|]); (split; [reflexivity|]);
    eexists; (split; [reflexivity|]); intros pe Hpe;
    try discriminate Hpe.
  inversion Hpe; subst pe.
  split; [reflexivity|]. split; [reflexivity|].
  exists kv, rest. split; reflexivity.
Qed.

(** X14. No failure of the store or of the generator makes the loop of
    [parse_queue] raise, so its crash handler is never reached and a
    healthy [parse_queue] does what its loop does; when the liveness probe
    of the generator fails it does nothing at all: no request to the
    store, no call of the generator, no waiting. *)
Theorem parse_queue_is_contained (turns : nat) (w : world) :
  fst (EventParser.parse_queue_turns turns w) = Ok tt /\
  (ollama_up w = true ->
   EventParser.parse_queue turns w = EventParser.parse_queue_turns turns w) /\
  (ollama_up w = false -> EventParser.parse_queue turns w = (Ok tt, w)).
Proof.
  assert (Hloop : fst (EventParser.parse_queue_turns turns w) = Ok tt).
  { destruct (parse_queue_turns_never_raises turns w) as [[] Hok]. exact Hok. }
  split; [exact Hloop|].
  unfold EventParser.parse_queue, bind, gets.
  split; intros Hup; rewrite Hup; cbn [negb]; [|reflexivity].
  unfold try_except.
  destruct (EventParser.parse_queue_turns turns w) as [r w1].
  simpl in Hloop. subst r. reflexivity.
Qed.

End CoordinatorRuns.

(* ===================================================================== *)
(** * Further properties of the reminder worker *)
(* ===================================================================== *)

(** ** One reminder per event and notification time *)

Lemma slot_present (p : ReminderWorker.reminder_data) (t : list reminder_row) :
  existsb (ReminderWorker.same_slot p) t = true <->
  In (ReminderWorker.rd_event_id p, ReminderWorker.rd_notify_at_ts p)
     (slots t).
Proof.
  unfold slots. rewrite existsb_exists, in_map_iff.
  split; intros [r [H1 H2]]; exists r.
  - unfold ReminderWorker.same_slot in H2. apply andb_prop in H2.
    destruct H2 as [He Hn]. apply Nat.eqb_eq in He. apply Z.eqb_eq in Hn.
    rewrite He, Hn. split; [reflexivity | exact H1].
  - inversion H1 as [[He Hn]]. split; [exact H2|].
    unfold ReminderWorker.same_slot. apply andb_true_intro.
    split; [apply Nat.eqb_eq | apply Z.eqb_eq]; assumption.
Qed.

Lemma slots_overwrite (p : ReminderWorker.reminder_data)
    (t : list reminder_row) :
  slots (map (ReminderWorker.overwrite p) t) = slots t.
Proof.
  unfold slots. rewrite map_map. apply map_ext. intros r.
  unfold ReminderWorker.overwrite.
  destruct (ReminderWorker.same_slot p r) eqn:Hs; [|reflexivity].
  unfold ReminderWorker.same_slot in Hs. apply andb_prop in Hs.
  destruct Hs as [He Hn]. apply Nat.eqb_eq in He. apply Z.eqb_eq in Hn.
  simpl. rewrite He, Hn. reflexivity.
Qed.

Lemma slots_upsert_one (t : list reminder_row)
    (p : ReminderWorker.reminder_data) :
  slots (ReminderWorker.upsert_one t p)
  = if existsb (ReminderWorker.same_slot p) t then slots t
    else (slots t ++ [(ReminderWorker.rd_event_id p,
                       ReminderWorker.rd_notify_at_ts p)])%list.
Proof.
  unfold ReminderWorker.upsert_one.
  destruct (existsb (ReminderWorker.same_slot p) t).
  - apply slots_overwrite.
  - unfold slots. rewrite map_app. reflexivity.
Qed.

Lemma slots_sent_update (reminder_id : nat) (now : Z)
    (error_message : option string) (t : list reminder_row) :
  slots (map (ReminderWorker.sent_update reminder_id now error_message) t)
  = slots t.
Proof.
  unfold slots. rewrite map_map. apply map_ext. intros r.
  unfold ReminderWorker.sent_update.
  destruct (Nat.eqb (rm_id r) reminder_id); reflexivity.
Qed.

Lemma slots_failure_update (reminder_id : nat) (retry_count : Z)
    (error_message : string) (t : list reminder_row) :
  slots (map (ReminderWorker.failure_update reminder_id retry_count
                error_message) t)
  = slots t.
Proof.
  unfold slots. rewrite map_map. apply map_ext. intros r.
  unfold ReminderWorker.failure_update.
  destruct (Nat.eqb (rm_id r) reminder_id); reflexivity.
Qed.

Lemma slots_upsert_incl (ps : list ReminderWorker.reminder_data)
    (t : list reminder_row) :
  incl (slots t) (slots (ReminderWorker.upsert t ps)).
Proof.
  revert t. unfold ReminderWorker.upsert.
  induction ps as [|p ps IH]; intros t; simpl; [apply incl_refl|].
  eapply incl_tran; [|apply IH]. rewrite slots_upsert_one.
  destruct (existsb (ReminderWorker.same_slot p) t);
    [apply incl_refl | apply incl_appl; apply incl_refl].
Qed.

Lemma slots_upsert_has (ps : list ReminderWorker.reminder_data)
    (t : list reminder_row) (p : ReminderWorker.reminder_data) :
  In p ps ->
  In (ReminderWorker.rd_event_id p, ReminderWorker.rd_notify_at_ts p)
     (slots (ReminderWorker.upsert t ps)).
Proof.
  revert t. induction ps as [|q ps IH]; intros t Hin; [destruct Hin|].
  destruct Hin as [->|Hin].
  - apply (slots_upsert_incl ps (ReminderWorker.upsert_one t p)).
    rewrite slots_upsert_one.
    destruct (existsb (ReminderWorker.same_slot p) t) eqn:Hex.
    + apply slot_present. exact Hex.
    + apply in_or_app. right. left. reflexivity.
  - apply (IH (ReminderWorker.upsert_one t q) Hin).
Qed.

Lemma slots_upsert_present (ps : list ReminderWorker.reminder_data)
    (t : list reminder_row) :
  (forall p, In p ps ->
     In (ReminderWorker.rd_event_id p, ReminderWorker.rd_notify_at_ts p)
        (slots t)) ->
  slots (ReminderWorker.upsert t ps) = slots t.
Proof.
  revert t. unfold ReminderWorker.upsert.
  induction ps as [|p ps IH]; intros t Hall; simpl; [reflexivity|].
  assert (Hone : slots (ReminderWorker.upsert_one t p) = slots t).
  { rewrite slots_upsert_one.
    rewrite (proj2 (slot_present p t) (Hall p (or_introl eq_refl))).
    reflexivity. }
  rewrite IH; [exact Hone|].
  intros q Hq. rewrite Hone. apply Hall. right. exact Hq.
Qed.

Lemma slots_upsert_again (ps : list ReminderWorker.reminder_data)
    (t : list reminder_row) :
  slots (ReminderWorker.upsert (ReminderWorker.upsert t ps) ps)
  = slots (ReminderWorker.upsert t ps).
Proof. apply slots_upsert_present. intros p. apply slots_upsert_has. Qed.

Lemma slots_upsert_distinct (ps : list ReminderWorker.reminder_data)
    (t : list reminder_row) :
  NoDup (slots t) -> NoDup (slots (ReminderWorker.upsert t ps)).
Proof.
  revert t. unfold ReminderWorker.upsert.
  induction ps as [|p ps IH]; intros t Hnd; simpl; [exact Hnd|].
  apply IH. rewrite slots_upsert_one.
  destruct (existsb (ReminderWorker.same_slot p) t) eqn:Hex; [exact Hnd|].
  apply NoDup_app; [exact Hnd | apply NoDup_cons; [intros [] | apply NoDup_nil] |].
  intros x Hx [<-|[]].
  apply slot_present in Hx. rewrite Hx in Hex. discriminate Hex.
Qed.

Lemma rewrites_distinct (t t' : list reminder_row) :
  ReminderWorker.rewrites t t' -> NoDup (slots t) -> NoDup (slots t').
Proof.
  induction 1 as [t|t i now em|t i rc em|t ps|t1 t2 t3 _ IH1 _ IH2];
    intros Hnd.
  - exact Hnd.
  - rewrite slots_sent_update. exact Hnd.
  - rewrite slots_failure_update. exact Hnd.
  - apply slots_upsert_distinct. exact Hnd.
  - apply IH2, IH1, Hnd.
Qed.

(** ** The retry bound *)

Lemma respects_bind_lift (R : world -> world -> Prop) {A B}
    (r : result A) (f : A -> M B) :
  (forall w, R w w) ->
  (forall a, r = Ok a -> respects R (f a)) ->
  respects R (bind (ReminderWorker.lift r) f).
Proof.
  intros Hrefl Hf w. unfold bind, ReminderWorker.lift.
  destruct r as [a|e]; [apply (Hf a eq_refl) | apply Hrefl].
Qed.

Lemma within_sent_update (reminder_id : nat) (now : Z)
    (error_message : option string) (d : store) :
  within_retries d ->
  within_retries
    (set_reminders
       (map (ReminderWorker.sent_update reminder_id now error_message)
            (reminders d)) d).
Proof.
  intros Hd r Hr Hst. simpl in Hr. apply in_map_iff in Hr.
  destruct Hr as [r0 [<- Hr0]]. unfold ReminderWorker.sent_update in *.
  destruct (Nat.eqb (rm_id r0) reminder_id); [|exact (Hd r0 Hr0 Hst)].
  simpl in Hst. destruct error_message as [m|];
    [destruct (truthy m)|]; discriminate Hst.
Qed.

Lemma within_failure_update (reminder_id : nat) (retry_count : Z)
    (error_message : string) (d : store) :
  within_retries d ->
  within_retries
    (set_reminders
       (map (ReminderWorker.failure_update reminder_id retry_count
               error_message) (reminders d)) d).
Proof.
  intros Hd r Hr Hst. simpl in Hr. apply in_map_iff in Hr.
  destruct Hr as [r0 [<- Hr0]]. unfold ReminderWorker.failure_update in *.
  destruct (Nat.eqb (rm_id r0) reminder_id); [|exact (Hd r0 Hr0 Hst)].
  simpl in *. destruct (retry_count >=? 5)%Z eqn:Hge; [discriminate Hst|].
  rewrite Z.geb_leb in Hge. apply Z.leb_gt in Hge. exact Hge.
Qed.

Lemma within_upsert (ps : list ReminderWorker.reminder_data) (d : store) :
  Forall (fun p => ReminderWorker.rd_retry_count p = 0%Z) ps ->
  within_retries d ->
  within_retries (set_reminders (ReminderWorker.upsert (reminders d) ps) d).
Proof.
  unfold within_retries. cbn [reminders set_reminders].
  generalize (reminders d) as t. unfold ReminderWorker.upsert.
  induction ps as [|p ps IH]; intros t Hps Ht; simpl; [exact Ht|].
  inversion Hps as [|p0 ps0 Hp Hps']; subst.
  apply IH; [exact Hps'|].
  intros r Hr Hst. unfold ReminderWorker.upsert_one in Hr.
  destruct (existsb (ReminderWorker.same_slot p) t).
  - apply in_map_iff in Hr. destruct Hr as [r0 [<- Hr0]].
    unfold ReminderWorker.overwrite in *.
    destruct (ReminderWorker.same_slot p r0); [|exact (Ht r0 Hr0 Hst)].
    simpl. rewrite Hp. lia.
  - apply in_app_or in Hr. destruct Hr as [Hr|[<-|[]]];
      [exact (Ht r Hr Hst)|]. simpl. rewrite Hp. lia.
Qed.

(** [kept] splits a goal [respects (keeps P) m] along the structure of
    [m]; requests that only read are closed. *)
Ltac kept :=
  repeat first
    [ apply respects_ret; [apply keeps_refl]
    | apply respects_raise; [apply keeps_refl]
    | apply respects_gets; [apply keeps_refl]
    | apply respects_lift; [apply keeps_refl]
    | apply sleep_keeps
    | apply execute_keeps; intros ? ?; assumption
    | apply respects_bind; [apply keeps_trans | | intro ]
    | apply respects_try; [apply keeps_trans | | intro ] ].

Lemma publish_keeps (P : store -> Prop) : respects (keeps P) publish.
Proof. intros w HP. unfold publish. destruct (pushes w); exact HP. Qed.

(** ** Rows left alone *)

Lemma touches_only_refl (ids : list nat) (t : list reminder_row) :
  touches_only ids t t.
Proof.
  exists (fun r => r). split; [symmetry; apply map_id|].
  split; intros; reflexivity.
Qed.

Lemma touches_only_trans (ids : list nat) (t1 t2 t3 : list reminder_row) :
  touches_only ids t1 t2 -> touches_only ids t2 t3 -> touches_only ids t1 t3.
Proof.
  intros [f [-> [Hf1 Hf2]]] [g [-> [Hg1 Hg2]]].
  exists (fun r => g (f r)). split; [apply map_map|]. split.
  - intros r. rewrite Hg1. apply Hf1.
  - intros r Hr. rewrite (Hf2 r Hr). apply Hg2. exact Hr.
Qed.

Lemma touches_only_sent (ids : list nat) (reminder_id : nat) (now : Z)
    (error_message : option string) (t : list reminder_row) :
  In reminder_id ids ->
  touches_only ids t
    (map (ReminderWorker.sent_update reminder_id now error_message) t).
Proof.
  intros Hin. eexists. split; [reflexivity|]. split.
  - intros r. apply sent_update_keeps.
  - intros r Hr. unfold ReminderWorker.sent_update.
    destruct (Nat.eqb (rm_id r) reminder_id) eqn:Heq; [|reflexivity].
    apply Nat.eqb_eq in Heq. rewrite Heq in Hr. contradiction.
Qed.

Lemma touches_only_failure (ids : list nat) (reminder_id : nat)
    (retry_count : Z) (error_message : string) (t : list reminder_row) :
  In reminder_id ids ->
  touches_only ids t
    (map (ReminderWorker.failure_update reminder_id retry_count
            error_message) t).
Proof.
  intros Hin. eexists. split; [reflexivity|]. split.
  - intros r. apply failure_update_keeps.
  - intros r Hr. unfold ReminderWorker.failure_update.
    destruct (Nat.eqb (rm_id r) reminder_id) eqn:Heq; [|reflexivity].
    apply Nat.eqb_eq in Heq. rewrite Heq in Hr. contradiction.
Qed.

(** ** Event rows under the two status updates *)



Section MoreWorker.
Context `{Runtime}.

(** X15. The worker never holds two reminders for the same event and
    notification time: if the slots of the reminders table are pairwise
    distinct, they stay so under any sequence of worker operations. *)
Theorem reminder_slots_stay_distinct
    (acts : list ReminderWorker.action) (w : world) :
  NoDup (slots (reminders (db w))) ->
  NoDup (slots (reminders (db (ReminderWorker.run acts w)))).
Proof. apply rewrites_distinct. apply run_rewritten. Qed.

(** What [_create_reminders] does to two worlds that agree on the users
    and the clock, the store being reachable: it upserts the same rows. *)
Lemma create_reminders_plan (event : event_row) (w w' : world) :
  faults w = [] -> faults w' = [] ->
  users (db w') = users (db w) -> utcnow w' = utcnow w ->
  exists ps,
    reminders (db (snd (ReminderWorker._create_reminders event w)))
      = ReminderWorker.upsert (reminders (db w)) ps /\
    reminders (db (snd (ReminderWorker._create_reminders event w')))
      = ReminderWorker.upsert (reminders (db w')) ps /\
    faults (snd (ReminderWorker._create_reminders event w)) = [] /\
    users (db (snd (ReminderWorker._create_reminders event w)))
      = users (db w) /\
    utcnow (snd (ReminderWorker._create_reminders event w)) = utcnow w.
Proof.
  intros Hf Hf' Hu Hn.
  destruct w as [d f gs ps up ni un mk sl ak].
  destruct w' as [d' f' gs' ps' up' ni' un' mk' sl' ak'].
  simpl in Hf, Hf', Hu, Hn. subst f f' un'.
  unfold ReminderWorker._create_reminders, try_except, bind.
  destruct (fromisoformat _) as [start|];
    [|exists []; repeat split; reflexivity].
  unfold ret, ReminderWorker.lift.
  destruct (ReminderWorker.reminder_times start) as [times|e];
    [|exists []; repeat split; reflexivity].
  unfold execute, gets. cbn [faults db set_db utcnow]. rewrite Hu.
  destruct (ReminderWorker.reminders_to_insert event _ un times)
    as [to_insert|e]; [|exists []; repeat split; reflexivity].
  destruct to_insert as [|p more]; cbn [truthy_list];
    [exists []; repeat split; reflexivity|].
  exists (p :: more). cbn [faults db set_db utcnow]. repeat split; reflexivity.
Qed.

(** X16. Creating the reminders of an event again, at the same instant and
    with the store reachable, adds no reminder: the slots of the table are
    those left by the first call. *)
Theorem creating_reminders_again_adds_none (event : event_row) (w : world) :
  faults w = [] ->
  let w1 := snd (ReminderWorker._create_reminders event w) in
  let w2 := snd (ReminderWorker._create_reminders event w1) in
  slots (reminders (db w2)) = slots (reminders (db w1)) /\
  length (reminders (db w2)) = length (reminders (db w1)).
Proof.
  intros Hf w1 w2.
  assert (Hslots : slots (reminders (db w2)) = slots (reminders (db w1))).
  { destruct (create_reminders_plan event w w Hf Hf eq_refl eq_refl)
      as [ps0 [_ [_ [Hf1 [Hu1 Hn1]]]]].
    fold w1 in Hf1, Hu1, Hn1.
    destruct (create_reminders_plan event w w1 Hf Hf1 Hu1 Hn1)
      as [ps [Ht1 [Ht2 _]]].
    fold w1 in Ht1. fold w2 in Ht2.
    rewrite Ht2, Ht1. apply slots_upsert_again. }
  split; [exact Hslots|].
  apply (f_equal (@length _)) in Hslots. unfold slots in Hslots.
  rewrite !length_map in Hslots. exact Hslots.
Qed.

Lemma reminders_to_insert_fresh (event : event_row)
    (push_token : option string) (now : Z)
    (times : list (datetime * string))
    (ps : list ReminderWorker.reminder_data) :
  ReminderWorker.reminders_to_insert event push_token now times = Ok ps ->
  Forall (fun p => ReminderWorker.rd_retry_count p = 0%Z) ps.
Proof.
  revert ps. induction times as [|[notify_time time_desc] rest IH];
    intros ps Hps; simpl in Hps.
  - inversion Hps. constructor.
  - destruct (ReminderWorker.at_or_before notify_time now) as [[|]|e];
      [apply IH; exact Hps | | discriminate Hps].
    destruct (ReminderWorker.reminders_to_insert event push_token now rest)
      as [more|e]; [|discriminate Hps].
    inversion Hps. constructor; [reflexivity | apply IH; reflexivity].
Qed.

Lemma mark_reminder_sent_within (reminder_id : nat)
    (error_message : option string) :
  respects (keeps within_retries)
    (ReminderWorker._mark_reminder_sent reminder_id error_message).
Proof.
  unfold ReminderWorker._mark_reminder_sent. kept.
  apply execute_keeps. intros d. apply within_sent_update.
Qed.

Lemma handle_push_failure_within (reminder : reminder_row)
    (error_message : string) :
  respects (keeps within_retries)
    (ReminderWorker._handle_push_failure reminder error_message).
Proof.
  unfold ReminderWorker._handle_push_failure. kept.
  apply execute_keeps. intros d. apply within_failure_update.
Qed.

Lemma create_reminders_within (event : event_row) :
  respects (keeps within_retries) (ReminderWorker._create_reminders event).
Proof.
  unfold ReminderWorker._create_reminders.
  apply respects_try; [apply keeps_trans | | intros e; kept].
  apply respects_bind;
    [apply keeps_trans | destruct (fromisoformat _); kept | intros start].
  apply respects_bind; [apply keeps_trans | kept | intros times].
  apply respects_bind; [apply keeps_trans | kept | intros user_rows].
  cbv zeta.
  apply respects_bind; [apply keeps_trans | kept | intros now].
  apply respects_bind_lift; [apply keeps_refl|].
  intros to_insert Hps. apply reminders_to_insert_fresh in Hps.
  destruct (truthy_list to_insert); kept.
  apply execute_keeps. intros d. apply within_upsert. exact Hps.
Qed.

Lemma send_push_notification_within (reminder : reminder_row) :
  respects (keeps within_retries)
    (ReminderWorker._send_push_notification reminder).
Proof.
  unfold ReminderWorker._send_push_notification.
  destruct (negb (ReminderWorker.has_token reminder)).
  - apply mark_reminder_sent_within.
  - apply respects_bind; [apply keeps_trans | apply publish_keeps |].
    intros [|details|e]; [apply mark_reminder_sent_within | kept |].
    destruct (kind e); try apply mark_reminder_sent_within; kept.
Qed.

Lemma process_push_notifications_within :
  respects (keeps within_retries) ReminderWorker.process_push_notifications.
Proof.
  unfold ReminderWorker.process_push_notifications.
  apply respects_try; [apply keeps_trans | | intros e; kept].
  apply respects_bind; [apply keeps_trans | |].
  { unfold ReminderWorker._get_pending_reminders. kept. }
  induction a as [|reminder rest IH]; cbn [ReminderWorker.send_all]; [kept|].
  apply respects_bind; [apply keeps_trans | | intros _; exact IH].
  apply respects_try; [apply keeps_trans | |].
  - apply send_push_notification_within.
  - intros e. apply handle_push_failure_within.
Qed.

(** X17. No reminder is retried for ever: if every pending reminder has
    fewer than five failed attempts behind it, this stays so under any
    sequence of worker operations, whatever the store and the push
    provider answer. *)
Theorem pending_reminders_stay_within_five_retries
    (acts : list ReminderWorker.action) (w : world) :
  within_retries (db w) -> within_retries (db (ReminderWorker.run acts w)).
Proof.
  revert w. unfold ReminderWorker.run.
  induction acts as [|a acts IH]; intros w Hw; simpl; [exact Hw|].
  apply IH. destruct a; simpl.
  - exact (create_reminders_within event w Hw).
  - exact (process_push_notifications_within w Hw).
  - exact (send_push_notification_within reminder w Hw).
  - exact (mark_reminder_sent_within reminder_id error_message w Hw).
  - exact (handle_push_failure_within reminder error_message w Hw).
  - exact Hw.
Qed.

Lemma touched_refl (ids : list nat) (w : world) : touched ids w w.
Proof. apply touches_only_refl. Qed.

Lemma touched_trans (ids : list nat) (a b c : world) :
  touched ids a b -> touched ids b c -> touched ids a c.
Proof. apply touches_only_trans. Qed.

Lemma execute_touched {A} (ids : list nat) (q : store -> A * store) :
  (forall d, touches_only ids (reminders d) (reminders (snd (q d)))) ->
  respects (touched ids) (execute q).
Proof.
  intros Hq w. unfold execute, touched.
  destruct (faults w) as [|[msg|] rest].
  - specialize (Hq (db w)). destruct (q (db w)); exact Hq.
  - apply touches_only_refl.
  - specialize (Hq (db w)). destruct (q (db w)); exact Hq.
Qed.

Lemma mark_reminder_sent_touched (ids : list nat) (reminder_id : nat)
    (error_message : option string) :
  In reminder_id ids ->
  respects (touched ids)
    (ReminderWorker._mark_reminder_sent reminder_id error_message).
Proof.
  intros Hin. unfold ReminderWorker._mark_reminder_sent.
  apply respects_try; [apply touched_trans | |].
  - apply respects_bind; [apply touched_trans | |].
    + apply respects_gets. apply touched_refl.
    + intros now. apply execute_touched. intros d. simpl.
      apply touches_only_sent. exact Hin.
  - intros e. apply respects_ret. apply touched_refl.
Qed.

Lemma handle_push_failure_touched (ids : list nat) (reminder : reminder_row)
    (error_message : string) :
  In (rm_id reminder) ids ->
  respects (touched ids)
    (ReminderWorker._handle_push_failure reminder error_message).
Proof.
  intros Hin. unfold ReminderWorker._handle_push_failure.
  apply respects_try; [apply touched_trans | |].
  - apply execute_touched. intros d. simpl.
    apply touches_only_failure. exact Hin.
  - intros e. apply respects_ret. apply touched_refl.
Qed.

Lemma send_push_notification_touched (ids : list nat)
    (reminder : reminder_row) :
  In (rm_id reminder) ids ->
  respects (touched ids) (ReminderWorker._send_push_notification reminder).
Proof.
  intros Hin. unfold ReminderWorker._send_push_notification.
  destruct (negb (ReminderWorker.has_token reminder)).
  - apply mark_reminder_sent_touched. exact Hin.
  - apply respects_bind; [apply touched_trans | |].
    { intros w. unfold publish, touched.
      destruct (pushes w); apply touches_only_refl. }
    intros [|details|e];
      [apply mark_reminder_sent_touched; exact Hin
      | apply respects_raise; apply touched_refl |].
    destruct (kind e);
      try (apply mark_reminder_sent_touched; exact Hin);
      apply respects_raise; apply touched_refl.
Qed.

Lemma send_all_touched (ids : list nat) (pending : list reminder_row) :
  (forall r, In r pending -> In (rm_id r) ids) ->
  respects (touched ids) (ReminderWorker.send_all pending).
Proof.
  induction pending as [|reminder rest IH]; intros Hids;
    cbn [ReminderWorker.send_all].
  - apply respects_ret. apply touched_refl.
  - assert (Hin : In (rm_id reminder) ids)
      by (apply Hids; left; reflexivity).
    apply respects_bind; [apply touched_trans | |].
    + apply respects_try; [apply touched_trans | |].
      * apply send_push_notification_touched. exact Hin.
      * intros e. apply handle_push_failure_touched. exact Hin.
    + intros _. apply IH. intros r Hr. apply Hids. right. exact Hr.
Qed.

(** X18. [process_push_notifications] rewrites due reminders only: it
    adds and removes no row, keeps every identifier, and leaves every
    reminder that was not due when it started exactly as it was. *)
Theorem push_processing_touches_due_reminders_only (w : world) :
  touches_only
    (map rm_id
       (filter (ReminderWorker.is_due (utcnow w)) (reminders (db w))))
    (reminders (db w))
    (reminders (db (snd (ReminderWorker.process_push_notifications w)))).
Proof.
  set (ids := map rm_id
                (filter (ReminderWorker.is_due (utcnow w))
                        (reminders (db w)))).
  unfold ReminderWorker.process_push_notifications, try_except, bind.
  pose proof (get_pending_reminders_rows w) as Hrows.
  assert (Hsame : reminders (db (snd (ReminderWorker._get_pending_reminders w)))
                  = reminders (db w)).
  { unfold ReminderWorker._get_pending_reminders, try_except, bind, gets,
      execute, raise.
    destruct (faults w) as [|[msg|] rest]; reflexivity. }
  destruct (ReminderWorker._get_pending_reminders w) as [[rows|e] w1];
    simpl in Hsame, Hrows.
  - specialize (Hrows rows eq_refl).
    assert (Hall : touched ids w1 (snd (ReminderWorker.send_all rows w1))).
    { apply send_all_touched. intros r Hr. subst rows ids.
      apply in_map. exact Hr. }
    unfold touched in Hall. rewrite Hsame in Hall.
    destruct (ReminderWorker.send_all rows w1) as [[[]|e] w2]; exact Hall.
  - simpl. rewrite Hsame. apply touches_only_refl.
Qed.

Lemma handle_push_failure_table (reminder : reminder_row)
    (error_message : string) (w : world) :
  hd None (faults w) = None ->
  fst (ReminderWorker._handle_push_failure reminder error_message w) = Ok tt /\
  reminders
    (db (snd (ReminderWorker._handle_push_failure reminder error_message w)))
  = map (ReminderWorker.failure_update (rm_id reminder)
           (rm_retry_count reminder + 1)%Z error_message)
        (reminders (db w)).
Proof.
  unfold ReminderWorker._handle_push_failure, try_except, execute, ret.
  destruct (faults w) as [|[msg|] rest]; simpl; intros Hf;
    try discriminate Hf; split; reflexivity.
Qed.

(** X19. A push that fails for any reason other than an unregistered
    device is counted against the reminder handed to the loop: the store
    accepting the update, its rows get the retry count of that reminder
    plus one and the error text, and keep their sent-at. Below five the
    status is left alone, so a due reminder stays due; from five on the
    status is failed and the reminder is never due again. *)
Theorem failed_push_is_counted_and_retried_below_five
    (reminder : reminder_row) (w : world) (o : push_outcome)
    (later : list push_outcome) :
  hd None (faults w) = None ->
  ReminderWorker.has_token reminder = true ->
  pushes w = o :: later ->
  match o with
  | PushSuccess => False
  | PushNotSuccess _ => True
  | PushRaises e => kind e <> DeviceNotRegisteredError
  end ->
  exists w' msg,
    (forall more,
       ReminderWorker.send_all (reminder :: more) w
         = ReminderWorker.send_all more w') /\
    reminders (db w')
      = map (ReminderWorker.failure_update (rm_id reminder)
               (rm_retry_count reminder + 1)%Z msg)
            (reminders (db w)) /\
    forall r0, In r0 (reminders (db w)) -> rm_id r0 = rm_id reminder ->
      let r1 :=
        ReminderWorker.failure_update (rm_id reminder)
          (rm_retry_count reminder + 1)%Z msg r0 in
      rm_retry_count r1 = (rm_retry_count reminder + 1)%Z /\
      rm_sent_at_ts r1 = rm_sent_at_ts r0 /\
      rm_error_message r1 = Some msg /\
      ((rm_retry_count reminder + 1 < 5)%Z ->
       rm_status r1 = rm_status r0 /\
       forall now, ReminderWorker.is_due now r1 = ReminderWorker.is_due now r0)
      /\
      ((5 <= rm_retry_count reminder + 1)%Z ->
       rm_status r1 = "failed" /\
       forall now, ReminderWorker.is_due now r1 = false).
Proof.
  intros Hf Htok Hp Ho.
  assert (Hsend : exists e,
             ReminderWorker._send_push_notification reminder w
             = (Raise e, set_pushes later w)).
  { unfold ReminderWorker._send_push_notification. rewrite Htok.
    cbn [negb]. unfold bind, publish. rewrite Hp. cbv beta iota.
    destruct o as [|details|e]; [destruct Ho | eexists; reflexivity |].
    destruct (kind e) eqn:Hk; try (eexists; reflexivity).
    exfalso. apply Ho. reflexivity. }
  destruct Hsend as [e Hsend].
  destruct (handle_push_failure_table reminder (text e) (set_pushes later w) Hf)
    as [Hok Ht].
  exists (snd (ReminderWorker._handle_push_failure reminder (text e)
                 (set_pushes later w))), (text e).
  split; [|split].
  - intros more. cbn [ReminderWorker.send_all]. unfold bind at 1.
    unfold try_except. rewrite Hsend.
    destruct (ReminderWorker._handle_push_failure reminder (text e)
                (set_pushes later w)) as [r w2].
    simpl in Hok. subst r. reflexivity.
  - exact Ht.
  - intros r0 _ Hid r1. subst r1. unfold ReminderWorker.failure_update.
    apply Nat.eqb_eq in Hid. rewrite Hid. cbn [rm_retry_count rm_sent_at_ts
      rm_error_message rm_status].
    split; [reflexivity|]. split; [reflexivity|]. split; [reflexivity|].
    split; intros Hcount.
    + assert (Hge : (rm_retry_count reminder + 1 >=? 5)%Z = false)
        by (rewrite Z.geb_leb; apply Z.leb_gt; exact Hcount).
      rewrite Hge. split; [reflexivity|]. intros now. reflexivity.
    + assert (Hge : (rm_retry_count reminder + 1 >=? 5)%Z = true)
        by (rewrite Z.geb_leb; apply Z.leb_le; exact Hcount).
      rewrite Hge. split; [reflexivity|]. intros now.
      unfold ReminderWorker.is_due. cbn [rm_status].
      apply andb_false_r.
Qed.

(** X20. A reminder the provider accepts is marked sent: the store
    accepting the update, its rows get status sent and the sent-at
    instant, keep their retry count and error message, and are not due at
    any instant any more. *)
Theorem delivered_reminder_is_marked_sent
    (reminder : reminder_row) (w : world) (later : list push_outcome) :
  hd None (faults w) = None ->
  ReminderWorker.has_token reminder = true ->
  pushes w = PushSuccess :: later ->
  exists w',
    ReminderWorker._send_push_notification reminder w = (Ok tt, w') /\
    pushes w' = later /\
    reminders (db w')
      = map (ReminderWorker.sent_update (rm_id reminder) (utcnow w) None)
            (reminders (db w)) /\
    forall r0, In r0 (reminders (db w)) -> rm_id r0 = rm_id reminder ->
      let r1 :=
        ReminderWorker.sent_update (rm_id reminder) (utcnow w) None r0 in
      rm_status r1 = "sent" /\ rm_sent_at_ts r1 = Some (utcnow w) /\
      rm_retry_count r1 = rm_retry_count r0 /\
      rm_error_message r1 = rm_error_message r0 /\
      forall now, ReminderWorker.is_due now r1 = false.
Proof.
  intros Hf Htok Hp.
  destruct (mark_reminder_sent_table (rm_id reminder) None
              (set_pushes later w) Hf) as [Hok [_ Ht]].
  exists (snd (ReminderWorker._mark_reminder_sent (rm_id reminder) None
                 (set_pushes later w))).
  split; [|split; [|split]].
  - unfold ReminderWorker._send_push_notification. rewrite Htok.
    cbn [negb]. unfold bind, publish. rewrite Hp. cbv beta iota.
    apply pair_of_parts. exact Hok.
  - unfold ReminderWorker._mark_reminder_sent, try_except, bind, gets,
      execute, ret.
    destruct (faults (set_pushes later w)) as [|[msg|] rest]; reflexivity.
  - exact Ht.
  - intros r0 _ Hid r1. subst r1. unfold ReminderWorker.sent_update.
    apply Nat.eqb_eq in Hid. rewrite Hid. simpl.
    repeat split. intros now. unfold ReminderWorker.is_due. simpl.
    rewrite andb_false_r. reflexivity.
Qed.

(** X21. A delivery the store fails to record is repeated: when the
    provider accepts the message but the update of the reminder fails, the
    failure is swallowed, the table is as before, and a reminder that was
    due is returned again by the next query for pending reminders. *)
Theorem unrecorded_delivery_stays_due
    (reminder : reminder_row) (w : world) (later : list push_outcome)
    (msg : string) (faults_later : list (option string)) :
  faults w = Some msg :: None :: faults_later ->
  ReminderWorker.has_token reminder = true ->
  pushes w = PushSuccess :: later ->
  In reminder (reminders (db w)) ->
  ReminderWorker.is_due (utcnow w) reminder = true ->
  exists w',
    ReminderWorker._send_push_notification reminder w = (Ok tt, w') /\
    reminders (db w') = reminders (db w) /\
    exists rows,
      fst (ReminderWorker._get_pending_reminders w') = Ok rows /\
      In reminder rows.
Proof.
  intros Hf Htok Hp Hin Hdue.
  destruct w as [d f gs ps up ni un mk sl ak]. simpl in *. subst f ps.
  eexists. split; [|split].
  - unfold ReminderWorker._send_push_notification. rewrite Htok.
    cbn [negb]. unfold bind, publish. cbn [pushes]. cbv beta iota.
    unfold ReminderWorker._mark_reminder_sent, try_except, bind, gets,
      execute, ret. cbn [faults set_pushes]. cbv beta iota. reflexivity.
  - reflexivity.
  - unfold ReminderWorker._get_pending_reminders, try_except, bind, gets,
      execute. cbn [faults set_faults utcnow db]. cbv beta iota.
    eexists. split; [reflexivity|].
    apply filter_In. split; assumption.
Qed.

(** X22. [_create_reminders] is all or nothing: when it raises, no table
    has been changed. *)
Theorem failed_reminder_creation_writes_nothing
    (event : event_row) (w : world) (e : exn) :
  fst (ReminderWorker._create_reminders event w) = Raise e ->
  db (snd (ReminderWorker._create_reminders event w)) = db w.
Proof.
  destruct w as [d f gs ps up ni un mk sl ak].
  unfold ReminderWorker._create_reminders, try_except, bind.
  destruct (fromisoformat _) as [start|]; [|reflexivity].
  unfold ret, ReminderWorker.lift.
  destruct (ReminderWorker.reminder_times start) as [times|e1];
    [|reflexivity].
  unfold execute, gets, raise. cbn [faults db set_db set_faults utcnow].
  destruct f as [|[msg|] rest]; cbn [faults db set_db set_faults utcnow];
    try reflexivity;
    (destruct (ReminderWorker.reminders_to_insert event _ un times)
       as [to_insert|e2]; [|reflexivity]);
    (destruct to_insert as [|p more]; cbn [truthy_list ret];
       [intros Hr; discriminate Hr|]);
    cbn [faults db set_db set_faults].
  - intros Hr. discriminate Hr.
  - destruct rest as [|[msg|] rest'];
      cbn [faults db set_db set_faults fst snd]; try reflexivity;
      intros Hr; discriminate Hr.
Qed.

(** X23. An event whose start time carries a UTC offset (a trailing Z is
    turned into one) can never get its reminders: comparing the aware
    notification times with the naive clock raises, so
    [_create_reminders] raises whatever the store answers, and writes
    nothing. *)
Theorem aware_start_time_always_raises
    (event : event_row) (start : datetime) (offset : Z) (w : world) :
  fromisoformat (replace_char "Z" "+00:00" (ev_start_ts event)) = Some start ->
  utcoffset start = Some offset ->
  exists e,
    fst (ReminderWorker._create_reminders event w) = Raise e /\
    reminders (db (snd (ReminderWorker._create_reminders event w)))
      = reminders (db w).
Proof.
  intros Hiso Hoff. destruct w as [d f gs ps up ni un mk sl ak].
  unfold ReminderWorker._create_reminders, try_except, bind.
  rewrite Hiso. unfold ret, ReminderWorker.lift,
    ReminderWorker.reminder_times, ReminderWorker.minus.
  destruct (ticks start - ReminderWorker.hours 24 <? 0)%Z;
    [eexists; split; reflexivity|].
  destruct (ticks start - ReminderWorker.hours 3 <? 0)%Z;
    [eexists; split; reflexivity|].
  destruct (ticks start - ReminderWorker.minutes 30 <? 0)%Z;
    [eexists; split; reflexivity|].
  unfold execute, gets, raise. cbn [faults db set_db set_faults utcnow].
  destruct f as [|[msg|] rest]; cbn [faults db set_db set_faults utcnow];
    try (eexists; split; reflexivity);
    cbn [ReminderWorker.reminders_to_insert]; unfold ReminderWorker.at_or_before;
    cbn [utcoffset]; rewrite Hoff; eexists; split; reflexivity.
Qed.

(** ** Calendar sync and event processing *)

Lemma calendar_service_quiet
    (user : string) (g : ReminderWorker.google) (w : world) :
  let r := ReminderWorker._get_user_calendar_service user g w in
  (db (snd r) = db w /\ (faults w = [] -> faults (snd r) = [])) /\
  exists available g',
    fst r = Ok (available, g') /\
    (ReminderWorker.refresh_token_of (ReminderWorker.refresh_tokens g) user
       = None ->
     available = false /\ g' = g).
Proof.
  assert (Hdone : forall (w0 : world) (a : bool) (g0 : ReminderWorker.google),
             db w0 = db w /\ (faults w = [] -> faults w0 = []) ->
             (a = false /\ g0 = g \/
              ReminderWorker.refresh_token_of
                (ReminderWorker.refresh_tokens g) user <> None) ->
             (db (snd (ret (a, g0) w0)) = db w /\
              (faults w = [] -> faults (snd (ret (a, g0) w0)) = [])) /\
             exists available g',
               fst (ret (a, g0) w0) = Ok (available, g') /\
               (ReminderWorker.refresh_token_of
                  (ReminderWorker.refresh_tokens g) user = None ->
                available = false /\ g' = g)).
  { intros w0 a g0 Hdb Hcase. split; [exact Hdb|]. exists a, g0.
    split; [reflexivity|]. intros Hnone.
    destruct Hcase as [Hcase|Hcase]; [exact Hcase | contradiction]. }
  unfold ReminderWorker._get_user_calendar_service, try_except, bind, execute.
  destruct (faults w) as [|[msg|] rest] eqn:Hfaults; cbv beta iota zeta;
    try (apply Hdone;
         [split; [reflexivity | intros Hf; try discriminate Hf; exact Hfaults]
         | left; split; reflexivity]);
    (destruct (truthy_list _); cbn [negb];
     [|apply Hdone;
       [split; [reflexivity | intros Hf; try discriminate Hf; exact Hfaults]
       | left; split; reflexivity]]);
    (destruct (ReminderWorker.refresh_token_of _ user) as [token|];
     [|apply Hdone;
       [split; [reflexivity | intros Hf; try discriminate Hf; exact Hfaults]
       | left; split; reflexivity]]);
    (destruct (truthy token); cbn [negb];
     [|apply Hdone;
       [split; [reflexivity | intros Hf; try discriminate Hf; exact Hfaults]
       | right; discriminate]]);
    destruct (ReminderWorker.next_answer g) as [[x|  |m] g1];
    (apply Hdone;
     [split; [reflexivity | intros Hf; try discriminate Hf; exact Hfaults]
     | right; discriminate]).
Qed.

Lemma sync_outcome
    (event : event_row) (g : ReminderWorker.google) (w : world) :
  let r := ReminderWorker._sync_to_google_calendar event g w in
  (db (snd r) = db w /\ (faults w = [] -> faults (snd r) = [])) /\
  exists calendar_event_id g',
    fst r = Ok (calendar_event_id, g') /\
    (ReminderWorker.refresh_token_of (ReminderWorker.refresh_tokens g)
       (ev_user_id event) = None ->
     calendar_event_id = None /\ g' = g).
Proof.
  unfold ReminderWorker._sync_to_google_calendar, bind.
  destruct (calendar_service_quiet (ev_user_id event) g w)
    as [Hdb [available [g1 [Hok Hnone]]]].
  destruct (ReminderWorker._get_user_calendar_service (ev_user_id event) g w)
    as [r w1].
  simpl in Hdb, Hok. subst r. cbv beta iota.
  destruct available; cbn [negb].
  - assert (Hsome : ReminderWorker.refresh_token_of
                      (ReminderWorker.refresh_tokens g) (ev_user_id event)
                    <> None).
    { intros Hn. destruct (Hnone Hn) as [Hfalse _]. discriminate Hfalse. }
    assert (Hany : forall (c : option string) (g2 : ReminderWorker.google),
               (db (snd (ret (c, g2) w1)) = db w /\
                (faults w = [] -> faults (snd (ret (c, g2) w1)) = [])) /\
               exists calendar_event_id g',
                 fst (ret (c, g2) w1) = Ok (calendar_event_id, g') /\
                 (ReminderWorker.refresh_token_of
                    (ReminderWorker.refresh_tokens g) (ev_user_id event)
                  = None -> calendar_event_id = None /\ g' = g)).
    { intros c g2. split; [exact Hdb|]. exists c, g2.
      split; [reflexivity | intros Hn; contradiction]. }
    destruct (ReminderWorker.truthy_val (ev_prep_items event)
              && negb (ReminderWorker.iterable (ev_prep_items event)));
      [apply Hany|].
    destruct (ReminderWorker.has_calendar_id event).
    + destruct (ReminderWorker.next_answer g1) as [[y|  |m] g2];
        try apply Hany.
      destruct (ReminderWorker.create_entry g2) as [c g3]. apply Hany.
    + destruct (ReminderWorker.create_entry g1) as [c g3]. apply Hany.
  - split; [exact Hdb|]. exists None, g1. split; [reflexivity|].
    intros Hn. destruct (Hnone Hn) as [_ Hg]. split; [reflexivity | exact Hg].
Qed.

(** X24. Calendar sync is best effort: [_sync_to_google_calendar] never
    raises and changes no table, whatever the store and the provider
    answer; and for a user without a refresh token it returns no
    identifier without contacting the provider. *)
Theorem calendar_sync_is_best_effort
    (event : event_row) (g : ReminderWorker.google) (w : world) :
  let r := ReminderWorker._sync_to_google_calendar event g w in
  db (snd r) = db w /\
  exists calendar_event_id g',
    fst r = Ok (calendar_event_id, g') /\
    (ReminderWorker.refresh_token_of (ReminderWorker.refresh_tokens g)
       (ev_user_id event) = None ->
     calendar_event_id = None /\ g' = g).
Proof.
  destruct (sync_outcome event g w) as [[Hdb _] Hrest].
  split; [exact Hdb | exact Hrest].
Qed.

(** X25. A stale calendar link is replaced: when the update of the linked
    entry is answered with 404, the entry is created anew, and the
    identifier returned is the one of the created entry (none if the
    creation fails). *)
Theorem stale_calendar_link_is_replaced
    (event : event_row) (g : ReminderWorker.google) (w : world)
    (token entry : string) (later : list ReminderWorker.google_outcome) :
  hd None (faults w) = None ->
  filter (fun u => String.eqb (us_id u) (ev_user_id event)) (users (db w))
    <> [] ->
  ReminderWorker.refresh_token_of (ReminderWorker.refresh_tokens g)
    (ev_user_id event) = Some token ->
  truthy token = true ->
  ReminderWorker.truthy_val (ev_prep_items event)
    && negb (ReminderWorker.iterable (ev_prep_items event)) = false ->
  ReminderWorker.has_calendar_id event = true ->
  ReminderWorker.answers g
    = ReminderWorker.GoogleOk entry :: ReminderWorker.GoogleNotFound :: later ->
  fst (ReminderWorker._sync_to_google_calendar event g w)
  = Ok (match later with
        | ReminderWorker.GoogleOk created :: _ => Some created
        | _ => None
        end,
        match later with
        | _ :: rest => ReminderWorker.mk_google (ReminderWorker.refresh_tokens g) rest
        | [] => ReminderWorker.mk_google (ReminderWorker.refresh_tokens g) []
        end).
Proof.
  intros Hf Huser Htok Htruthy Hprep Hlink Hans.
  unfold ReminderWorker._sync_to_google_calendar,
    ReminderWorker._get_user_calendar_service, try_except, bind, execute.
  destruct (filter _ (users (db w))) as [|u us] eqn:Hrows; [contradiction|].
  destruct (faults w) as [|[msg|] rest]; [|discriminate Hf|];
    cbv beta iota zeta; cbn [truthy_list negb]; rewrite Htok, Htruthy;
    cbn [negb]; unfold ReminderWorker.next_answer at 1; rewrite Hans;
    cbv beta iota; cbn [negb fst snd]; rewrite Hprep, Hlink;
    unfold ReminderWorker.next_answer at 1;
    cbn [ReminderWorker.answers ReminderWorker.refresh_tokens];
    cbv beta iota; unfold ReminderWorker.create_entry,
      ReminderWorker.next_answer;
    cbn [ReminderWorker.answers ReminderWorker.refresh_tokens];
    destruct later as [|[created| |m] rest']; reflexivity.
Qed.






End MoreWorker.

(* ===================================================================== *)
(** * The further properties on the sample inputs *)
(* ===================================================================== *)

Lemma parse_candidate_fields_witness :
  @RegexParser.parse forward_sets Samples.soccer_body Samples.soccer_subject
    = (Some Samples.soccer_event, 1.0%float) /\
  In (start_ts Samples.soccer_event)
     (RegexParser.scan_dates Samples.soccer_body) /\
  child_id Samples.soccer_event = None.
Proof.
  split; [exact (@soccer_parse forward_sets)|].
  destruct (@parse_candidate_fields forward_sets _ _ _ _
              (@soccer_parse forward_sets)) as [_ [Hs [_ [_ Hc]]]].
  split; [exact Hs | exact Hc].
Defined.

Lemma extracted_location_is_a_trimmed_line_witness :
  RegexParser._extract_location Samples.soccer_body = Some "Community Field"
  /\ trimmed "Community Field".
Proof.
  assert (Hl : RegexParser._extract_location Samples.soccer_body
               = Some "Community Field") by (vm_compute; reflexivity).
  split; [exact Hl|].
  exact (proj1 (extracted_location_is_a_trimmed_line _ _ Hl)).
Defined.

Lemma prep_items_are_clean_witness :
  RegexParser._extract_prep_items Samples.bulleted_body
    = Some ["water"; "cleats"; "snack"] /\
  forall item, In item ["water"; "cleats"; "snack"] ->
    contains item RegexParser.bullet = false.
Proof.
  assert (Hi : RegexParser._extract_prep_items Samples.bulleted_body
               = Some ["water"; "cleats"; "snack"])
    by (vm_compute; reflexivity).
  split; [exact Hi|]. intros item Hin.
  exact (proj2 (proj2 (proj2
           (proj2 (prep_items_are_clean _ _ Hi) item Hin)))).
Defined.



Lemma existing_event_is_not_parsed_again_witness :
  let w := Samples.world_of Samples.inbox_with_event [] [] [] 0 in
  hd None (faults w) = None /\
  filter (fun e => String.eqb (ev_source_msg_id e) (id Samples.soccer_email))
         (events (db w)) <> [] /\
  exists w',
    @EventParser._process_email forward_sets Samples.soccer_email w
      = (Ok tt, w') /\
    events (db w') = [Samples.recital] /\ asked w' = [].
Proof.
  cbv zeta.
  assert (Hex : filter (fun e => String.eqb (ev_source_msg_id e)
                                   (id Samples.soccer_email))
                  (events (db (Samples.world_of Samples.inbox_with_event
                                 [] [] [] 0))) <> [])
    by (vm_compute; discriminate).
  split; [reflexivity|]. split; [exact Hex|].
  destruct (@existing_event_is_not_parsed_again forward_sets
              Samples.soccer_email
              (Samples.world_of Samples.inbox_with_event [] [] [] 0)
              eq_refl Hex)
    as [w' [Hrun [Hev [_ [Hask _]]]]].
  exists w'. split; [exact Hrun|]. split; [exact Hev | exact Hask].
Defined.

Lemma confident_parse_skips_the_generator_witness :
  let w := Samples.world_of Samples.inbox [] [GenText None] [] 0 in
  (snd (@RegexParser.parse forward_sets (raw_body Samples.soccer_email)
          (subject Samples.soccer_email)) <? 0.7)%float = false /\
  generations (snd (@EventParser._process_email forward_sets
                      Samples.soccer_email w)) = [GenText None].
Proof.
  cbv zeta.
  assert (Hc : (snd (@RegexParser.parse forward_sets
                       (raw_body Samples.soccer_email)
                       (subject Samples.soccer_email)) <? 0.7)%float = false).
  { change (raw_body Samples.soccer_email) with Samples.soccer_body.
    change (subject Samples.soccer_email) with Samples.soccer_subject.
    rewrite (@soccer_parse forward_sets). reflexivity. }
  split; [exact Hc|].
  exact (proj2 (@confident_parse_skips_the_generator forward_sets
                  Samples.soccer_email
                  (Samples.world_of Samples.inbox [] [GenText None] [] 0) Hc)).
Defined.

Lemma processing_twice_yields_one_event_witness :
  let w := Samples.world_of Samples.inbox [] [] [] 0 in
  let w1 := snd (@EventParser._process_email forward_sets
                   Samples.soccer_email w) in
  let w2 := snd (@EventParser._process_email forward_sets
                   Samples.soccer_email w1) in
  faults w = [] /\ events (db w2) = events (db w1).
Proof.
  cbv zeta. split; [reflexivity|].
  exact (proj1 (proj2 (proj2
           (@processing_twice_yields_one_event forward_sets
              Samples.soccer_email
              (Samples.world_of Samples.inbox [] [] [] 0) eq_refl)))).
Defined.

Lemma marked_message_is_not_fetched_again_witness :
  let w := Samples.world_of Samples.inbox [] [] [] 0 in
  let w1 := snd (@EventParser._mark_email_processed "msg-1" true w) in
  let w2 := snd (@EventParser.parse_queue forward_sets 1 w1) in
  hd None (faults w) = None /\
  forall found,
    fst (EventParser._get_unprocessed_emails w2) = Ok found ->
    forall email, In email found -> id email <> "msg-1".
Proof.
  cbv zeta. split; [reflexivity|].
  exact (@marked_message_is_not_fetched_again forward_sets "msg-1" true 1
           (Samples.world_of Samples.inbox [] [] [] 0) eq_refl).
Defined.

Lemma reminder_slots_stay_distinct_witness :
  let w := Samples.world_of Samples.reminders_due [] []
                            [Samples.device_gone] 5000 in
  NoDup (slots (reminders (db w))) /\
  NoDup (slots (reminders
                  (db (@ReminderWorker.run forward_sets
                         [ReminderWorker.ProcessPushNotifications] w)))).
Proof.
  cbv zeta.
  assert (Hnd : NoDup (slots (reminders
                   (db (Samples.world_of Samples.reminders_due [] []
                          [Samples.device_gone] 5000))))).
  { simpl. constructor; [intros [Heq|[]]; discriminate Heq|].
    constructor; [intros []|]. constructor. }
  split; [exact Hnd|].
  exact (@reminder_slots_stay_distinct forward_sets
           [ReminderWorker.ProcessPushNotifications] _ Hnd).
Defined.

Lemma creating_reminders_again_adds_none_witness :
  let w := Samples.world_of Samples.inbox [] [] []
             (Samples.recital_start - ReminderWorker.hours 25)%Z in
  let w1 := snd (@ReminderWorker._create_reminders forward_sets
                   Samples.recital w) in
  let w2 := snd (@ReminderWorker._create_reminders forward_sets
                   Samples.recital w1) in
  faults w = [] /\
  length (reminders (db w2)) = length (reminders (db w1)).
Proof.
  cbv zeta. split; [reflexivity|].
  exact (proj2 (@creating_reminders_again_adds_none forward_sets
                  Samples.recital
                  (Samples.world_of Samples.inbox [] [] []
                     (Samples.recital_start - ReminderWorker.hours 25)%Z)
                  eq_refl)).
Defined.

Lemma pending_reminders_stay_within_five_retries_witness :
  let w := Samples.world_of Samples.reminders_due [] []
                            [Samples.rate_limited] 5000 in
  within_retries (db w) /\
  within_retries
    (db (@ReminderWorker.run forward_sets
           [ReminderWorker.ProcessPushNotifications] w)).
Proof.
  cbv zeta.
  assert (Hw : within_retries
                 (db (Samples.world_of Samples.reminders_due [] []
                        [Samples.rate_limited] 5000))).
  { intros r [<-|[<-|[]]] _; reflexivity. }
  split; [exact Hw|].
  exact (@pending_reminders_stay_within_five_retries forward_sets
           [ReminderWorker.ProcessPushNotifications] _ Hw).
Defined.

Lemma failed_push_is_counted_and_retried_below_five_witness :
  let w := Samples.world_of Samples.reminders_due [] []
                            [Samples.rate_limited] 5000 in
  hd None (faults w) = None /\
  ReminderWorker.has_token Samples.registered_reminder = true /\
  pushes w = [Samples.rate_limited] /\
  exists w' msg,
    reminders (db w')
      = map (ReminderWorker.failure_update 2 1 msg) (reminders (db w)).
Proof.
  cbv zeta. split; [reflexivity|]. split; [reflexivity|].
  split; [reflexivity|].
  destruct (failed_push_is_counted_and_retried_below_five
              Samples.registered_reminder
              (Samples.world_of Samples.reminders_due [] []
                 [Samples.rate_limited] 5000)
              Samples.rate_limited [] eq_refl eq_refl eq_refl I)
    as [w' [msg [_ [Ht _]]]].
  exists w', msg. exact Ht.
Defined.

Lemma delivered_reminder_is_marked_sent_witness :
  let w := Samples.world_of Samples.reminders_due [] [] [PushSuccess] 5000 in
  hd None (faults w) = None /\
  ReminderWorker.has_token Samples.registered_reminder = true /\
  exists w',
    ReminderWorker._send_push_notification Samples.registered_reminder w
      = (Ok tt, w') /\
    pushes w' = [].
Proof.
  cbv zeta. split; [reflexivity|]. split; [reflexivity|].
  destruct (delivered_reminder_is_marked_sent
              Samples.registered_reminder
              (Samples.world_of Samples.reminders_due [] [] [PushSuccess] 5000)
              [] eq_refl eq_refl eq_refl)
    as [w' [Hrun [Hp _]]].
  exists w'. split; [exact Hrun | exact Hp].
Defined.

Lemma unrecorded_delivery_stays_due_witness :
  let w := Samples.world_of Samples.reminders_due [Some "timeout"; None] []
                            [PushSuccess] 5000 in
  ReminderWorker.has_token Samples.registered_reminder = true /\
  ReminderWorker.is_due (utcnow w) Samples.registered_reminder = true /\
  exists w',
    ReminderWorker._send_push_notification Samples.registered_reminder w
      = (Ok tt, w') /\
    reminders (db w') = reminders (db w).
Proof.
  cbv zeta. split; [reflexivity|]. split; [reflexivity|].
  destruct (unrecorded_delivery_stays_due
              Samples.registered_reminder
              (Samples.world_of Samples.reminders_due
                 [Some "timeout"; None] [] [PushSuccess] 5000)
              [] "timeout" [] eq_refl eq_refl eq_refl
              (or_intror (or_introl eq_refl)) eq_refl)
    as [w' [Hrun [Ht _]]].
  exists w'. split; [exact Hrun | exact Ht].
Defined.

Lemma failed_reminder_creation_writes_nothing_witness :
  let w := Samples.world_of Samples.inbox Samples.outage [] [] 0 in
  fst (@ReminderWorker._create_reminders forward_sets Samples.recital w)
    = Raise (mk_exn StoreError "connection refused") /\
  db (snd (@ReminderWorker._create_reminders forward_sets Samples.recital w))
    = db w.
Proof.
  cbv zeta.
  assert (Hr : fst (@ReminderWorker._create_reminders forward_sets
                      Samples.recital
                      (Samples.world_of Samples.inbox Samples.outage [] [] 0))
               = Raise (mk_exn StoreError "connection refused"))
    by (vm_compute; reflexivity).
  split; [exact Hr|].
  exact (@failed_reminder_creation_writes_nothing forward_sets _ _ _ Hr).
Defined.

Lemma aware_start_time_always_raises_witness :
  let w := Samples.world_of Samples.inbox [] [] [] 0 in
  @fromisoformat forward_sets
    (replace_char "Z" "+00:00" (ev_start_ts Samples.recital_utc))
    = Some (mk_datetime Samples.recital_start (Some 0%Z)) /\
  exists e,
    fst (@ReminderWorker._create_reminders forward_sets
           Samples.recital_utc w) = Raise e /\
    reminders
      (db (snd (@ReminderWorker._create_reminders forward_sets
                  Samples.recital_utc w))) = reminders (db w).
Proof.
  cbv zeta.
  assert (Hiso : @fromisoformat forward_sets
                   (replace_char "Z" "+00:00"
                      (ev_start_ts Samples.recital_utc))
                 = Some (mk_datetime Samples.recital_start (Some 0%Z)))
    by (vm_compute; reflexivity).
  split; [exact Hiso|].
  exact (@aware_start_time_always_raises forward_sets Samples.recital_utc
           _ 0%Z (Samples.world_of Samples.inbox [] [] [] 0) Hiso eq_refl).
Defined.

Lemma stale_calendar_link_is_replaced_witness :
  let w := Samples.world_of Samples.inbox [] [] [] 0 in
  ReminderWorker.has_calendar_id Samples.linked_recital = true /\
  fst (ReminderWorker._sync_to_google_calendar Samples.linked_recital
         Samples.google_side w)
  = Ok (Some "cal-2", ReminderWorker.mk_google [("user-1", "refresh-1")] []).
Proof.
  cbv zeta. split; [reflexivity|].
  assert (Huser : filter (fun u => String.eqb (us_id u)
                                     (ev_user_id Samples.linked_recital))
                    (users (db (Samples.world_of Samples.inbox [] [] [] 0)))
                  <> [])
    by (vm_compute; discriminate).
  exact (stale_calendar_link_is_replaced Samples.linked_recital
           Samples.google_side (Samples.world_of Samples.inbox [] [] [] 0)
           "refresh-1" "token" [ReminderWorker.GoogleOk "cal-2"]
           eq_refl Huser eq_refl eq_refl eq_refl eq_refl eq_refl).
Defined.


